(** * 7Zip.ShellExtension: command applicability, naming and lifetime

    A shallow embedding of [7Zip.ShellExtension.cpp].  Wide strings are lists
    of UTF-16 code units, the Windows file system is a function giving the
    attributes of a path, a selection is the [IShellItemArray] the host hands
    to a command, the process launches of [ShellRun] are returned as a list,
    and the COM objects live in a heap keyed by address next to the two
    process-wide counters.

    Out-pointers are taken to be valid (the [E_POINTER] returns are left
    out), [SHStrDupW] to succeed, and memory to be unbounded.  The strings
    handed to [ShellExecuteExW] are kept as the [std::wstring] whose buffer
    the call receives.  [ClassFactory] keeps no state of its own besides its
    reference count: its two methods are functions of the module state. *)

From Stdlib Require Import ZArith NArith Ascii String Lia.
From stdpp Require Import gmap list strings.

(** ** Wide strings *)

Definition wchar := N.
Definition wstring := list wchar.

(** A wide string literal [L"..."]. *)
Definition L (s : string) : wstring := N_of_ascii <$> list_ascii_of_string s.
Arguments L s%_string.

Definition dquote : wstring := [34%N].
Definition bslash : wstring := [92%N].

(** [c_str]: the characters a C function sees, up to the first NUL. *)
Fixpoint c_str (s : wstring) : wstring :=
  match s with
  | [] => []
  | c :: s' => if (c =? 0)%N then [] else c :: c_str s'
  end.

(** [towlower] in the C locale, the one the module runs in: only A-Z change. *)
Definition towlower (c : wchar) : wchar :=
  if ((65 <=? c) && (c <=? 90))%N then (c + 32)%N else c.

(** [_wcsicmp] of the C runtime on two NUL-terminated strings: the difference
    of the first pair of lowered characters that differ, the terminator being
    character 0. *)
Fixpoint _wcsicmp (a b : wstring) : Z :=
  match a, b with
  | [], [] => 0
  | [], d :: _ => 0 - Z.of_N (towlower d)
  | c :: _, [] => Z.of_N (towlower c) - 0
  | c :: a', d :: b' =>
      if (towlower c =? towlower d)%N then _wcsicmp a' b'
      else Z.of_N (towlower c) - Z.of_N (towlower d)
  end.

(** ** [std::filesystem::path]

    The lexical decomposition of the C++ standard library the file is built
    with (MSVC, see the build line of the source).  A path holds its text
    unchanged; the functions below find the boundaries of root name, relative
    path, filename, stem and extension in it. *)

Definition _Is_slash (c : wchar) : bool := ((c =? 47) || (c =? 92))%N.

Definition is_drive_letter (c : wchar) : bool :=
  (((65 <=? c) && (c <=? 90)) || ((97 <=? c) && (c <=? 122)))%N.

Definition _Has_drive_letter_prefix (s : wstring) : bool :=
  match s with
  | c :: d :: _ => is_drive_letter c && (d =? 58)%N
  | _ => false
  end.

Definition at_ (s : wstring) (i : nat) : wchar := nth i s 0%N.

(** Number of leading characters satisfying [P]. *)
Fixpoint prefix_len (P : wchar → bool) (s : wstring) : nat :=
  match s with
  | c :: s' => if P c then S (prefix_len P s') else 0
  | [] => 0
  end.

(** [std::find_if_not(first + i, last, P)] as an index. *)
Definition find_if_not (P : wchar → bool) (s : wstring) (i : nat) : nat :=
  i + prefix_len P (drop i s).

Definition find_if (P : wchar → bool) (s : wstring) (i : nat) : nat :=
  find_if_not (λ c, negb (P c)) s i.

Definition _Find_root_name_end (s : wstring) : nat :=
  let n := length s in
  if n <? 2 then 0
  else if _Has_drive_letter_prefix s then 2
  else if negb (_Is_slash (at_ s 0)) then 0
  else if (4 <=? n) && _Is_slash (at_ s 3)
          && ((n =? 4) || negb (_Is_slash (at_ s 4)))
          && ((_Is_slash (at_ s 1) && ((at_ s 2 =? 63) || (at_ s 2 =? 46))%N)
              || ((at_ s 1 =? 63) && (at_ s 2 =? 63))%N)
       then 3
  else if (3 <=? n) && _Is_slash (at_ s 1) && negb (_Is_slash (at_ s 2))
       then find_if _Is_slash s 3
  else 0.

Definition _Find_relative_path (s : wstring) : nat :=
  find_if_not _Is_slash s (_Find_root_name_end s).

(** [while (lo != last && P(last[-1])) --last;] *)
Fixpoint back_while (P : wchar → bool) (s : wstring) (lo last : nat) : nat :=
  match last with
  | 0 => 0
  | S l' => if negb (lo =? last) && P (at_ s l') then back_while P s lo l' else last
  end.

Definition _Find_filename (s : wstring) : nat :=
  back_while (λ c, negb (_Is_slash c)) s (_Find_relative_path s) (length s).

(** The loop of [_Find_extension]: step back to the last dot that is not the
    first character of the filename. *)
Fixpoint scan_back_dot (s : wstring) (fname e ads : nat) : nat :=
  match e with
  | 0 => ads
  | S e' => if fname =? e' then ads
            else if (at_ s e' =? 46)%N then e'
            else scan_back_dot s fname e' ads
  end.

Definition _Find_extension (s : wstring) (fname ads : nat) : nat :=
  if fname =? ads then ads
  else
    let e := ads - 1 in
    if fname =? e then ads
    else if (at_ s e =? 46)%N then
           if (fname =? e - 1) && (at_ s (e - 1) =? 46)%N then ads else e
         else scan_back_dot s fname e ads.

Definition substr (s : wstring) (first last : nat) : wstring :=
  take (last - first) (drop first s).

(** Start of an alternate data stream name: the first colon of the filename. *)
Definition _Find_ads (s : wstring) : nat :=
  find_if (λ c, (c =? 58)%N) s (_Find_filename s).

Definition filename (s : wstring) : wstring := drop (_Find_filename s) s.

Definition stem (s : wstring) : wstring :=
  let f := _Find_filename s in
  substr s f (_Find_extension s f (_Find_ads s)).

Definition extension (s : wstring) : wstring :=
  let a := _Find_ads s in
  substr s (_Find_extension s (_Find_filename s) a) a.

Definition parent_path (s : wstring) : wstring :=
  let r := _Find_relative_path s in
  let l1 := back_while (λ c, negb (_Is_slash c)) s r (length s) in
  take (back_while _Is_slash s r l1) s.

(** Path comparison treats both separators alike and a run of separators as
    one; [collapse] is the text it compares. *)
Fixpoint collapse (after_slash : bool) (s : wstring) : wstring :=
  match s with
  | [] => []
  | c :: s' =>
      if _Is_slash c then
        if after_slash then collapse true s' else 92%N :: collapse true s'
      else c :: collapse false s'
  end.

(** [a == b] on paths, that is [a.compare(b) == 0]: equal root names, both or
    neither with a root directory, and equal relative paths up to
    separators. *)
Definition path_eqb (a b : wstring) : bool :=
  let ra := _Find_root_name_end a in
  let rb := _Find_root_name_end b in
  let pa := _Find_relative_path a in
  let pb := _Find_relative_path b in
  bool_decide (take ra a = take rb b)
  && Bool.eqb (negb (ra =? pa)) (negb (rb =? pb))
  && bool_decide (collapse false (drop pa a) = collapse false (drop pb b)).

(** What [path_eqb] compares. *)
Definition path_key (a : wstring) : wstring * bool * wstring :=
  let ra := _Find_root_name_end a in
  let pa := _Find_relative_path a in
  (take ra a, negb (ra =? pa), collapse false (drop pa a)).

(** ** The Windows services the commands call *)

Definition INVALID_FILE_ATTRIBUTES : Z := 0xFFFFFFFF.
Definition FILE_ATTRIBUTE_DIRECTORY : Z := 0x10.

Record Win32 := {
  (** attributes of the path named by a C string, a DWORD *)
  GetFileAttributesW : wstring → Z;
  (** [GetModuleFileNameW] followed by [PathRemoveFileSpecW] on [g_hMod] *)
  GetModuleDir : wstring;
  PathAppendW : wstring → wstring → wstring
}.

Inductive HRESULT :=
  S_OK | S_FALSE | E_NOTIMPL | E_POINTER | E_NOINTERFACE
| CLASS_E_NOAGGREGATION | CLASS_E_CLASSNOTAVAILABLE.

Inductive EXPCMDSTATE := ECS_ENABLED | ECS_HIDDEN.

Inductive EXPCMDFLAGS := ECF_DEFAULT | ECF_HASSUBCOMMANDS.

#[global] Instance HRESULT_eq_dec : EqDecision HRESULT.
Proof. solve_decision. Defined.
#[global] Instance EXPCMDSTATE_eq_dec : EqDecision EXPCMDSTATE.
Proof. solve_decision. Defined.

(** A shell item answers [GetDisplayName(SIGDN_FILESYSPATH)] with a string or
    fails; an item array answers [GetCount] with a count or fails, and
    [GetItemAt] with an item or fails. *)
Record IShellItem := { GetDisplayName : option wstring }.

Record IShellItemArray := {
  GetCount : option nat;
  GetItemAt : nat → option IShellItem
}.

(** What [ShellExecuteExW] is called with; an absent string is [nullptr]. *)
Record SHELLEXECUTEINFOW := {
  lpFile : wstring;
  lpParameters : option wstring;
  lpDirectory : option wstring
}.

#[global] Instance SHELLEXECUTEINFOW_eq_dec : EqDecision SHELLEXECUTEINFOW.
Proof. solve_decision. Defined.

Module CommandID.
Inductive t :=
  None
| Open | Test | ExtractFiles | ExtractHere | ExtractTo
| AddToArchive | AddTo7z | AddToZip
| EmailArchive | Email7z | EmailZip
| CRCMenu | CRC32 | CRC64 | SHA1 | SHA256.

#[global] Instance eq_dec : EqDecision t.
Proof. solve_decision. Defined.
End CommandID.

Definition is_empty (s : wstring) : bool :=
  match s with [] => true | _ => false end.

(** [s.empty() ? nullptr : s.c_str()] *)
Definition nullable (s : wstring) : option wstring :=
  if is_empty s then None else Some s.

(** ** Helpers of the source *)

Section Commands.
Variable os : Win32.

Definition Combine (a b : wstring) : wstring := PathAppendW os a b.

Definition FileExists (p : wstring) : bool :=
  let a := GetFileAttributesW os (c_str p) in
  negb (a =? INVALID_FILE_ATTRIBUTES)%Z
  && negb (negb (Z.land a FILE_ATTRIBUTE_DIRECTORY =? 0)%Z).

Definition ShellRun (exe args cwd : wstring) : SHELLEXECUTEINFOW :=
  {| lpFile := exe; lpParameters := nullable args; lpDirectory := nullable cwd |}.

Definition Find7zTool (name : wstring) : wstring :=
  let here := GetModuleDir os in
  let p := Combine here name in
  if FileExists p then p else name.

Definition GetItemPath (it : IShellItem) : wstring :=
  match GetDisplayName it with
  | Some s => c_str s
  | Datatypes.None => []
  end.

Definition IsDirectoryPath (p : wstring) : bool :=
  let a := GetFileAttributesW os (c_str p) in
  negb (a =? INVALID_FILE_ATTRIBUTES)%Z
  && negb (Z.land a FILE_ATTRIBUTE_DIRECTORY =? 0)%Z.

Definition exts : list wstring :=
  [L ".7z"; L ".zip"; L ".rar"; L ".tar"; L ".gz"; L ".xz"; L ".bz2";
   L ".cab"; L ".wim"; L ".lzma"; L ".zst"; L ".arj"].

Definition IsArchiveExt (ext : wstring) : bool :=
  existsb (λ e, (_wcsicmp (c_str ext) e =? 0)%Z) exts.

Definition BaseName (path : wstring) : wstring :=
  if IsDirectoryPath path then filename path else stem path.

(** The loop of [DefaultArchiveName]: every parent equals [parent], leaving
    at the first that differs. *)
Fixpoint allSameParent (parent : wstring) (paths : list wstring) : bool :=
  match paths with
  | [] => true
  | p :: rest =>
      if negb (path_eqb (parent_path p) parent) then false
      else allSameParent parent rest
  end.

Definition DefaultArchiveName (paths : list wstring) (ext : wstring) : wstring :=
  match paths with
  | [] => L "Archive" ++ ext
  | [p] => BaseName p ++ ext
  | p0 :: _ =>
      let parent := parent_path p0 in
      if allSameParent parent paths && negb (is_empty (filename parent))
      then filename parent ++ ext
      else L "Archive" ++ ext
  end.

(** The loop of [CollectPaths] over the indices [0 .. c-1]. *)
Definition CollectPaths_loop (arr : IShellItemArray) (c : nat) : list wstring :=
  foldl (λ out i,
           match GetItemAt arr i with
           | Some it =>
               let p := GetItemPath it in
               if is_empty p then out else out ++ [p]
           | Datatypes.None => out
           end) [] (seq 0 c).

Definition CollectPaths (arr : option IShellItemArray) : list wstring :=
  match arr with
  | Datatypes.None => []
  | Some a =>
      match GetCount a with
      | Datatypes.None => []
      | Some c => CollectPaths_loop a c
      end
  end.

(** ** [ExplorerCommandBase] *)

Definition GetTitle (m_id : CommandID.t) (m_title : wstring)
    (psiItemArray : option IShellItemArray) : HRESULT * wstring :=
  let paths := CollectPaths psiItemArray in
  match m_id with
  | CommandID.AddTo7z | CommandID.AddToZip
  | CommandID.Email7z | CommandID.EmailZip =>
      let ext :=
        match m_id with
        | CommandID.AddToZip | CommandID.EmailZip => L ".zip"
        | _ => L ".7z"
        end in
      let base := DefaultArchiveName paths (c_str ext) in
      let text :=
        match m_id with
        | CommandID.AddTo7z | CommandID.AddToZip =>
            L "Add to " ++ dquote ++ base ++ dquote
        | _ => L "Compress to " ++ dquote ++ base ++ dquote ++ L " and email"
        end in
      (S_OK, c_str text)
  | CommandID.ExtractTo =>
      match paths with
      | p0 :: _ =>
          let folder := BaseName p0 in
          let text := L "Extract to " ++ dquote ++ folder ++ bslash ++ dquote in
          (S_OK, c_str text)
      | [] => (S_OK, L "Extract to \<Folder>" ++ bslash)
      end
  | _ => (S_OK, c_str m_title)
  end.

(** The loop of [GetState]: every extension is an archive extension, leaving
    at the first that is not. *)
Fixpoint allArchives (paths : list wstring) : bool :=
  match paths with
  | [] => true
  | p :: rest =>
      let ext := extension p in
      if negb (IsArchiveExt ext) then false else allArchives rest
  end.

Definition GetState (m_id : CommandID.t)
    (psiItemArray : option IShellItemArray) : HRESULT * EXPCMDSTATE :=
  let paths := CollectPaths psiItemArray in
  match paths with
  | [] => (S_OK, ECS_HIDDEN)
  | _ :: _ =>
      let all := allArchives paths in
      match m_id with
      | CommandID.Open =>
          (S_OK, if (length paths =? 1) && all then ECS_ENABLED else ECS_HIDDEN)
      | CommandID.Test | CommandID.ExtractFiles
      | CommandID.ExtractHere | CommandID.ExtractTo =>
          (S_OK, if all then ECS_ENABLED else ECS_HIDDEN)
      | _ => (S_OK, ECS_ENABLED)
      end
  end.

Definition quoteJoin (v : list wstring) : wstring :=
  foldl (λ s p, s ++ dquote ++ p ++ dquote ++ L " ") [] v.

(** One extraction into the folder named after the archive, the body of the
    loops of [ExtractHere] and [ExtractTo]. *)
Definition extract_to_folder (sevenZG p : wstring) : SHELLEXECUTEINFOW :=
  let folder := BaseName p in
  let args := L "x -y -o" ++ dquote ++ folder ++ bslash ++ dquote
              ++ L " " ++ dquote ++ p ++ dquote in
  ShellRun sevenZG args [].

(** [Invoke] with the calls of [ShellRun] it makes, in order. *)
Definition Invoke (m_id : CommandID.t)
    (psiItemArray : option IShellItemArray) : HRESULT * list SHELLEXECUTEINFOW :=
  let paths := CollectPaths psiItemArray in
  match paths with
  | [] => (S_OK, [])
  | p0 :: _ =>
      let sevenZG := Find7zTool (L "7zG.exe") in
      let sevenZ := Find7zTool (L "7z.exe") in
      let sevenFM := Find7zTool (L "7zFM.exe") in
      let runs :=
        match m_id with
        | CommandID.Open => [ShellRun sevenFM (dquote ++ p0 ++ dquote) []]
        | CommandID.Test => [ShellRun sevenZG (L "t " ++ quoteJoin paths) []]
        | CommandID.ExtractFiles =>
            [ShellRun sevenZG (L "x " ++ quoteJoin paths) []]
        | CommandID.ExtractHere =>
            if length paths =? 1 then
              [ShellRun sevenZG (L "x -y " ++ dquote ++ p0 ++ dquote) []]
            else extract_to_folder sevenZG <$> paths
        | CommandID.ExtractTo => extract_to_folder sevenZG <$> paths
        | CommandID.AddToArchive =>
            [ShellRun sevenZG (L "a " ++ quoteJoin paths) []]
        | CommandID.AddTo7z =>
            let out := DefaultArchiveName paths (L ".7z") in
            [ShellRun sevenZG
               (L "a " ++ dquote ++ out ++ dquote ++ L " " ++ quoteJoin paths) []]
        | CommandID.AddToZip =>
            let out := DefaultArchiveName paths (L ".zip") in
            [ShellRun sevenZG
               (L "a -tzip " ++ dquote ++ out ++ dquote ++ L " " ++ quoteJoin paths) []]
        | CommandID.EmailArchive =>
            [ShellRun sevenZG (L "a " ++ quoteJoin paths) []]
        | CommandID.Email7z =>
            let out := DefaultArchiveName paths (L ".7z") in
            [ShellRun sevenZG
               (L "a " ++ dquote ++ out ++ dquote ++ L " " ++ quoteJoin paths) []]
        | CommandID.EmailZip =>
            let out := DefaultArchiveName paths (L ".zip") in
            [ShellRun sevenZG
               (L "a -tzip " ++ dquote ++ out ++ dquote ++ L " " ++ quoteJoin paths) []]
        | CommandID.CRC32 =>
            [ShellRun sevenZ (L "h -scrcCRC32 " ++ quoteJoin paths) []]
        | CommandID.CRC64 =>
            [ShellRun sevenZ (L "h -scrcCRC64 " ++ quoteJoin paths) []]
        | CommandID.SHA1 =>
            [ShellRun sevenZ (L "h -scrcSHA1 " ++ quoteJoin paths) []]
        | CommandID.SHA256 =>
            [ShellRun sevenZ (L "h -scrcSHA256 " ++ quoteJoin paths) []]
        | _ => []
        end in
      (S_OK, runs)
  end.

Definition GetFlags (m_id : CommandID.t) : HRESULT * EXPCMDFLAGS :=
  (S_OK, match m_id with
         | CommandID.CRCMenu => ECF_HASSUBCOMMANDS
         | _ => ECF_DEFAULT
         end).

End Commands.

(** ** [ExplorerCommandRoot]: the methods that do not touch the heap *)

Definition Root_GetTitle (psiItemArray : option IShellItemArray) : HRESULT * wstring :=
  (S_OK, L "7-Zip").

Definition Root_GetState (psiItemArray : option IShellItemArray) : HRESULT * EXPCMDSTATE :=
  (S_OK, ECS_ENABLED).

Definition Root_Invoke (psiItemArray : option IShellItemArray)
  : HRESULT * list SHELLEXECUTEINFOW := (S_OK, []).

Definition Root_GetFlags : HRESULT * EXPCMDFLAGS := (S_OK, ECF_HASSUBCOMMANDS).

(** ** The launches of the extraction commands *)

(** The launch that extracts [p] where it lies, and the one that extracts it
    into the folder [BaseName p], the name the default extraction folder
    takes. *)
Definition in_place (os : Win32) (p : wstring) : SHELLEXECUTEINFOW :=
  {| lpFile := Find7zTool os (L "7zG.exe");
     lpParameters := Some (L "x -y " ++ dquote ++ p ++ dquote);
     lpDirectory := None |}.

Definition into_subfolder (os : Win32) (p : wstring) : SHELLEXECUTEINFOW :=
  {| lpFile := Find7zTool os (L "7zG.exe");
     lpParameters :=
       Some (L "x -y -o" ++ dquote ++ BaseName os p ++ bslash ++ dquote
             ++ L " " ++ dquote ++ p ++ dquote);
     lpDirectory := None |}.

(** ** Object lifetime

    The COM objects of the module live in a heap keyed by address, next to
    the two process-wide counters.  A method is a function of the state; it
    has no result where the source would call through a pointer to no live
    object of the class it expects. *)

(** [LONG] arithmetic wraps to 32 bits, two's complement; a [ULONG] result
    is the same bits read unsigned. *)
Definition LONG (z : Z) : Z := ((z + 2 ^ 31) `mod` 2 ^ 32 - 2 ^ 31)%Z.
Definition ULONG (z : Z) : Z := (z `mod` 2 ^ 32)%Z.

Definition addr := nat.

Inductive IID :=
  IID_IUnknown | IID_IExplorerCommand | IID_IEnumExplorerCommand
| IID_IClassFactory | IID_other.

(** An [ExplorerCommandBase] is tagged with whether it is the derived
    [CRCMenuParent]. *)
Inductive object :=
| ExplorerCommandBase (is_CRCMenuParent : bool) (m_ref : Z)
    (m_id : CommandID.t) (m_title : wstring)
| ExplorerCommandRoot (m_ref : Z) (subs : list addr) (idx : nat)
| CommandEnum (m_ref : Z) (items : list addr) (idx : nat).

Definition m_ref (o : object) : Z :=
  match o with
  | ExplorerCommandBase _ r _ _ => r
  | ExplorerCommandRoot r _ _ => r
  | CommandEnum r _ _ => r
  end.

Definition set_m_ref (o : object) (r : Z) : object :=
  match o with
  | ExplorerCommandBase d _ id t => ExplorerCommandBase d r id t
  | ExplorerCommandRoot _ subs idx => ExplorerCommandRoot r subs idx
  | CommandEnum _ items idx => CommandEnum r items idx
  end.

Record State := {
  g_ObjCount : Z;
  g_LockCount : Z;
  heap : gmap addr object
}.

Definition initial : State :=
  {| g_ObjCount := 0; g_LockCount := 0; heap := ∅ |}.

Definition M (A : Type) : Type := State → option (A * State).

#[global] Instance M_ret : MRet M := λ A x s, Some (x, s).
#[global] Instance M_bind : MBind M :=
  λ A B k m s, match m s with Some (x, s') => k x s' | None => None end.

Definition undefined {A} : M A := λ _, None.

Definition get_obj (a : addr) : M object :=
  λ s, match heap s !! a with Some o => Some (o, s) | None => None end.

Definition put_obj (a : addr) (o : object) : M () :=
  λ s, Some ((), {| g_ObjCount := g_ObjCount s; g_LockCount := g_LockCount s;
                    heap := <[a:=o]> (heap s) |}).

(** [operator new]: an address that holds no live object. *)
Definition new_ (o : object) : M addr :=
  λ s, let a := fresh (dom (heap s)) in
       Some (a, {| g_ObjCount := g_ObjCount s; g_LockCount := g_LockCount s;
                   heap := <[a:=o]> (heap s) |}).

Definition free (a : addr) : M () :=
  λ s, Some ((), {| g_ObjCount := g_ObjCount s; g_LockCount := g_LockCount s;
                    heap := delete a (heap s) |}).

Definition InterlockedIncrement_ObjCount : M Z :=
  λ s, let v := LONG (g_ObjCount s + 1) in
       Some (v, {| g_ObjCount := v; g_LockCount := g_LockCount s; heap := heap s |}).

Definition InterlockedDecrement_ObjCount : M Z :=
  λ s, let v := LONG (g_ObjCount s - 1) in
       Some (v, {| g_ObjCount := v; g_LockCount := g_LockCount s; heap := heap s |}).

Definition InterlockedIncrement_LockCount : M Z :=
  λ s, let v := LONG (g_LockCount s + 1) in
       Some (v, {| g_ObjCount := g_ObjCount s; g_LockCount := v; heap := heap s |}).

Definition InterlockedDecrement_LockCount : M Z :=
  λ s, let v := LONG (g_LockCount s - 1) in
       Some (v, {| g_ObjCount := g_ObjCount s; g_LockCount := v; heap := heap s |}).

(** [new ExplorerCommandBase(id, title)] and its destructor. *)
Definition new_ExplorerCommandBase (derived : bool) (id : CommandID.t)
    (title : wstring) : M addr :=
  a ← new_ (ExplorerCommandBase derived 1 id title);
  InterlockedIncrement_ObjCount;;
  mret a.

Definition delete_ExplorerCommandBase (a : addr) : M () :=
  InterlockedDecrement_ObjCount;; free a.

(** [AddRef] has the same body in the three classes. *)
Definition AddRef (a : addr) : M Z :=
  o ← get_obj a;
  let c := LONG (m_ref o + 1) in
  put_obj a (set_m_ref o c);;
  mret (ULONG c).

(** [Release] has the same body in the three classes, up to the destructor
    that [delete this] runs. *)
Definition Release_by (destroy : addr → M ()) (a : addr) : M Z :=
  o ← get_obj a;
  let c := ULONG (LONG (m_ref o - 1)) in
  put_obj a (set_m_ref o (LONG (m_ref o - 1)));;
  (if (c =? 0)%Z then destroy a else mret ());;
  mret c.

(** [i->Release()] on an element of [items] or [subs]: these vectors are only
    ever filled with [ExplorerCommandBase] objects. *)
Definition Release_item (a : addr) : M Z :=
  o ← get_obj a;
  match o with
  | ExplorerCommandBase _ _ _ _ => Release_by delete_ExplorerCommandBase a
  | _ => undefined
  end.

(** [delete this]: the destructor of the dynamic type, then the memory. *)
Definition delete_ (a : addr) : M () :=
  o ← get_obj a;
  match o with
  | ExplorerCommandBase _ _ _ _ => delete_ExplorerCommandBase a
  | CommandEnum _ items _ => mapM Release_item items;; free a
  | ExplorerCommandRoot _ subs _ =>
      mapM Release_item subs;; InterlockedDecrement_ObjCount;; free a
  end.

Definition Release (a : addr) : M Z := Release_by delete_ a.

Definition new_CommandEnum (v : list addr) : M addr :=
  a ← new_ (CommandEnum 1 v 0);
  mapM AddRef v;;
  mret a.

(** The interfaces each class answers [QueryInterface] for. *)
Definition supports (o : object) (riid : IID) : bool :=
  match o, riid with
  | _, IID_IUnknown => true
  | ExplorerCommandBase _ _ _ _, IID_IExplorerCommand => true
  | CommandEnum _ _ _, IID_IEnumExplorerCommand => true
  | ExplorerCommandRoot _ _ _, (IID_IExplorerCommand | IID_IEnumExplorerCommand) => true
  | _, _ => false
  end.

Definition QueryInterface (a : addr) (riid : IID) : M (HRESULT * option addr) :=
  o ← get_obj a;
  if supports o riid then AddRef a;; mret (S_OK, Some a)
  else mret (E_NOINTERFACE, None).

Definition hash_children : list (CommandID.t * wstring) :=
  [(CommandID.CRC32, L "CRC-32"); (CommandID.CRC64, L "CRC-64");
   (CommandID.SHA1, L "SHA-1"); (CommandID.SHA256, L "SHA-256")].

Definition new_CRCMenuParent : M addr :=
  new_ExplorerCommandBase true CommandID.CRCMenu (L "CRC SHA").

Definition CRCMenuParent_EnumSubCommands : M (HRESULT * option addr) :=
  v ← mapM (λ c, new_ExplorerCommandBase false c.1 c.2) hash_children;
  e ← new_CommandEnum v;
  AddRef e;;
  mret (S_OK, Some e).

(** The commands [ExplorerCommandRoot] creates before the hash menu. *)
Definition root_children : list (CommandID.t * wstring) :=
  [(CommandID.Open, L "Open archive");
   (CommandID.ExtractFiles, L "Extract files...");
   (CommandID.ExtractHere, L "Extract Here");
   (CommandID.ExtractTo, L "Extract to \<Folder>" ++ bslash);
   (CommandID.Test, L "Test archive");
   (CommandID.AddToArchive, L "Add to archive...");
   (CommandID.AddTo7z, L "Add to " ++ dquote ++ L "<Name>.7z" ++ dquote);
   (CommandID.AddToZip, L "Add to " ++ dquote ++ L "<Name>.zip" ++ dquote);
   (CommandID.EmailArchive, L "Compress and email...");
   (CommandID.Email7z,
    L "Compress to " ++ dquote ++ L "<Name>.7z" ++ dquote ++ L " and email");
   (CommandID.EmailZip,
    L "Compress to " ++ dquote ++ L "<Name>.zip" ++ dquote ++ L " and email")].

Definition new_ExplorerCommandRoot : M addr :=
  a ← new_ (ExplorerCommandRoot 1 [] 0);
  InterlockedIncrement_ObjCount;;
  v ← mapM (λ c, new_ExplorerCommandBase false c.1 c.2) root_children;
  crc ← new_CRCMenuParent;
  put_obj a (ExplorerCommandRoot 1 (v ++ [crc]) 0);;
  mret a.

(** [EnumSubCommands] through an [IExplorerCommand*]. *)
Definition EnumSubCommands (a : addr) : M (HRESULT * option addr) :=
  o ← get_obj a;
  match o with
  | ExplorerCommandBase true _ _ _ => CRCMenuParent_EnumSubCommands
  | ExplorerCommandBase false _ _ _ => mret (E_NOTIMPL, None)
  | ExplorerCommandRoot _ subs _ =>
      e ← new_CommandEnum subs;
      AddRef e;;
      mret (S_OK, Some e)
  | CommandEnum _ _ _ => undefined
  end.

(** The loop of [CommandEnum::Next]. *)
Fixpoint Next_loop (a : addr) (celt : nat) : M (list addr) :=
  match celt with
  | 0 => mret []
  | S n =>
      o ← get_obj a;
      match o with
      | CommandEnum r items idx =>
          match items !! idx with
          | Some it =>
              put_obj a (CommandEnum r items (S idx));;
              AddRef it;;
              rest ← Next_loop a n;
              mret (it :: rest)
          | None => mret []
          end
      | _ => undefined
      end
  end.

(** [Next] through an [IEnumExplorerCommand*], with the elements fetched. *)
Definition Next (a : addr) (celt : nat) : M (HRESULT * list addr) :=
  o ← get_obj a;
  match o with
  | CommandEnum _ _ _ =>
      f ← Next_loop a celt;
      mret (if length f =? celt then S_OK else S_FALSE, f)
  | ExplorerCommandRoot _ _ _ => mret (E_NOTIMPL, [])
  | _ => undefined
  end.

Definition Skip (a : addr) (celt : nat) : M HRESULT :=
  o ← get_obj a;
  match o with
  | CommandEnum r items idx =>
      put_obj a (CommandEnum r items (Nat.min (idx + celt) (length items)));;
      mret S_OK
  | ExplorerCommandRoot _ _ _ => mret E_NOTIMPL
  | _ => undefined
  end.

Definition Reset (a : addr) : M HRESULT :=
  o ← get_obj a;
  match o with
  | CommandEnum r items _ => put_obj a (CommandEnum r items 0);; mret S_OK
  | ExplorerCommandRoot _ _ _ => mret E_NOTIMPL
  | _ => undefined
  end.

Definition Clone (a : addr) : M (HRESULT * option addr) :=
  o ← get_obj a;
  match o with
  | CommandEnum _ items idx =>
      e ← new_CommandEnum items;
      put_obj e (CommandEnum 1 items idx);;
      mret (S_OK, Some e)
  | ExplorerCommandRoot _ _ _ => mret (E_NOTIMPL, None)
  | _ => undefined
  end.

(** [ClassFactory]: its two methods do not read the factory object. *)
Definition CreateInstance (pUnkOuter : bool) (riid : IID) : M (HRESULT * option addr) :=
  if pUnkOuter then mret (CLASS_E_NOAGGREGATION, None)
  else
    obj ← new_ExplorerCommandRoot;
    r ← QueryInterface obj riid;
    Release obj;;
    mret r.

Definition LockServer (fLock : bool) : M HRESULT :=
  (if fLock then InterlockedIncrement_LockCount
   else InterlockedDecrement_LockCount);;
  mret S_OK.

Definition DllCanUnloadNow (s : State) : HRESULT :=
  if (g_ObjCount s =? 0)%Z && (g_LockCount s =? 0)%Z then S_OK else S_FALSE.

(** What the host can do to the module, and a run of such calls. *)
Inductive call :=
| call_CreateInstance (pUnkOuter : bool) (riid : IID)
| call_LockServer (fLock : bool)
| call_QueryInterface (a : addr) (riid : IID)
| call_AddRef (a : addr)
| call_Release (a : addr)
| call_EnumSubCommands (a : addr)
| call_Next (a : addr) (celt : nat)
| call_Skip (a : addr) (celt : nat)
| call_Reset (a : addr)
| call_Clone (a : addr).

Definition do_call (c : call) : M () :=
  match c with
  | call_CreateInstance u riid => CreateInstance u riid;; mret ()
  | call_LockServer f => LockServer f;; mret ()
  | call_QueryInterface a riid => QueryInterface a riid;; mret ()
  | call_AddRef a => AddRef a;; mret ()
  | call_Release a => Release a;; mret ()
  | call_EnumSubCommands a => EnumSubCommands a;; mret ()
  | call_Next a celt => Next a celt;; mret ()
  | call_Skip a celt => Skip a celt;; mret ()
  | call_Reset a => Reset a;; mret ()
  | call_Clone a => Clone a;; mret ()
  end.

Fixpoint run (cs : list call) (s : State) : option State :=
  match cs with
  | [] => Some s
  | c :: cs' =>
      match do_call c s with
      | Some (_, s') => run cs' s'
      | None => None
      end
  end.

(** The objects the counter is about: commands and roots that are alive. *)
Definition counted (o : object) : bool :=
  match o with
  | ExplorerCommandBase _ _ _ _ | ExplorerCommandRoot _ _ _ => true
  | CommandEnum _ _ _ => false
  end.

Definition live (h : gmap addr object) : nat :=
  size (filter (λ ao, counted ao.2 = true) h).

Definition live_commands (s : State) : nat := live (heap s).

(** The counter holds the number of live commands, as a [LONG]. *)
Definition counts_live (s : State) : Prop :=
  g_ObjCount s = LONG (Z.of_nat (live_commands s)).

Inductive kind := KBase | KRoot | KEnum.

Definition kind_of (o : object) : kind :=
  match o with
  | ExplorerCommandBase _ _ _ _ => KBase
  | ExplorerCommandRoot _ _ _ => KRoot
  | CommandEnum _ _ _ => KEnum
  end.

(** A step from [s] to [s'] that keeps the counter right and leaves every
    root and enumerator where it is. *)
Definition ok (s s' : State) : Prop :=
  (counts_live s → counts_live s')
  ∧ (∀ a o, heap s !! a = Some o → kind_of o ≠ KBase →
            ∃ o', heap s' !! a = Some o' ∧ kind_of o' = kind_of o).

(** What the host sees of a command: its id and title. *)
Definition described (s : State) (a : addr) : option (CommandID.t * wstring) :=
  match heap s !! a with
  | Some (ExplorerCommandBase _ _ id t) => Some (id, t)
  | _ => None
  end.

Definition describe_all (f : list addr) : M (list (CommandID.t * wstring)) :=
  λ s, match mapM (described s) f with
       | Some l => Some (l, s)
       | None => None
       end.

Definition expand (celt : nat) : M (HRESULT * list (CommandID.t * wstring)) :=
  r ← CRCMenuParent_EnumSubCommands;
  match r with
  | (S_OK, Some e) =>
      f ← Next e celt;
      l ← describe_all f.2;
      mret (f.1, l)
  | _ => undefined
  end.

(** [n] expansions in a row. *)
Definition expand_times (n celt : nat)
  : M (list (HRESULT * list (CommandID.t * wstring))) :=
  mapM (λ _ : (), expand celt) (replicate n ()).

(** Every object of [s] is still there in [s'], the same up to its reference
    count. *)
Definition extends (s s' : State) : Prop :=
  ∀ a o, heap s !! a = Some o →
         ∃ o', heap s' !! a = Some o' ∧ set_m_ref o' 0 = set_m_ref o 0.

(** Every command of [s] is still there in [s'], with its id and title. *)
Definition keeps_commands (s s' : State) : Prop :=
  ∀ a c, described s a = Some c → described s' a = Some c.

(** ** Reading the results *)

(** The switches of a command line: its text before the first quoted
    argument. *)
Fixpoint switches (args : wstring) : wstring :=
  match args with
  | [] => []
  | c :: r => if (c =? 34)%N then [] else c :: switches r
  end.

(** An entry whose extension, lowered, is one of [exts]. *)
Definition has_archive_extension (p : wstring) : Prop :=
  towlower <$> c_str (extension p) ∈ exts.

(** A selection whose items all answer with the given paths. *)
Definition shell_items (l : list wstring) : option IShellItemArray :=
  Some {| GetCount := Some (length l);
          GetItemAt := λ i, (λ p, {| GetDisplayName := Some p |}) <$> l !! i |}.

(** A small file system: two directories, one of them named like an archive,
    a few files, and the archiver next to the module. *)
Definition sample_dirs : list wstring :=
  [L "C:\dir\sub"; L "C:\dir\photos.zip"; L "C:\dir"].

Definition sample_files : list wstring :=
  [L "C:\dir\X.7z"; L "C:\dir\Y.7z"; L "C:\dir\a.txt"; L "C:\dir\b.txt";
   L "C:\Program Files\7-Zip\7zG.exe"].

Definition sample_os : Win32 :=
  {| GetFileAttributesW := λ p,
       if bool_decide (p ∈ sample_dirs) then 0x10%Z
       else if bool_decide (p ∈ sample_files) then 0x20%Z
       else INVALID_FILE_ATTRIBUTES;
     GetModuleDir := L "C:\Program Files\7-Zip";
     PathAppendW := λ a b, a ++ bslash ++ b |}.

(** ** Further readings of the results *)

(** What the item at index [i] adds to the paths [CollectPaths] gathers: its
    file system path when it has one, nothing otherwise. *)
Definition item_path (arr : IShellItemArray) (i : nat) : option wstring :=
  match GetItemAt arr i with
  | Some it => if is_empty (GetItemPath it) then None else Some (GetItemPath it)
  | None => None
  end.

(** The archiver each command launches. *)
Definition tool_of (os : Win32) (m_id : CommandID.t) : wstring :=
  match m_id with
  | CommandID.Open => Find7zTool os (L "7zFM.exe")
  | CommandID.CRC32 | CommandID.CRC64 | CommandID.SHA1 | CommandID.SHA256 =>
      Find7zTool os (L "7z.exe")
  | _ => Find7zTool os (L "7zG.exe")
  end.

(** The commands that make one launch per path, and those that make none. *)
Definition per_path (m_id : CommandID.t) : bool :=
  match m_id with
  | CommandID.ExtractHere | CommandID.ExtractTo => true
  | _ => false
  end.

Definition launches_nothing (m_id : CommandID.t) : bool :=
  match m_id with
  | CommandID.None | CommandID.CRCMenu => true
  | _ => false
  end.

(** The commands whose state depends on the extensions of the selection. *)
Definition needs_archives (m_id : CommandID.t) : bool :=
  match m_id with
  | CommandID.Open | CommandID.Test | CommandID.ExtractFiles
  | CommandID.ExtractHere | CommandID.ExtractTo => true
  | _ => false
  end.

(** Reading a command line back: the quoted arguments, in order. *)
Fixpoint quoted_args (inq : bool) (cur s : wstring) : list wstring :=
  match s with
  | [] => []
  | c :: r =>
      if (c =? 34)%N then
        if inq then cur :: quoted_args false [] r else quoted_args true [] r
      else if inq then quoted_args true (cur ++ [c]) r
      else quoted_args false cur r
  end.

Definition no_NUL (s : wstring) : Prop := Forall (λ c, c ≠ 0%N) s.
Definition no_quote (s : wstring) : Prop := Forall (λ c, c ≠ 34%N) s.

(** The quoted arguments a launch carries. *)
Definition quoted_of (d : SHELLEXECUTEINFOW) : list wstring :=
  quoted_args false [] (default [] (lpParameters d)).

(** The quoted arguments of the launches of each command on the paths
    [p0 :: rest]. *)
Definition carried (os : Win32) (m_id : CommandID.t) (p0 : wstring)
    (rest : list wstring) : list (list wstring) :=
  let paths := p0 :: rest in
  let into p := [BaseName os p ++ bslash; p] in
  match m_id with
  | CommandID.None | CommandID.CRCMenu => []
  | CommandID.Open => [[p0]]
  | CommandID.ExtractHere =>
      match rest with [] => [[p0]] | _ :: _ => into <$> paths end
  | CommandID.ExtractTo => into <$> paths
  | CommandID.AddTo7z | CommandID.Email7z =>
      [DefaultArchiveName os paths (L ".7z") :: paths]
  | CommandID.AddToZip | CommandID.EmailZip =>
      [DefaultArchiveName os paths (L ".zip") :: paths]
  | _ => [paths]
  end.

(** The state with another heap, and the values a [LONG] can hold. *)
Definition with_heap (s : State) (h : gmap addr object) : State :=
  {| g_ObjCount := g_ObjCount s; g_LockCount := g_LockCount s; heap := h |}.

Definition in_LONG (z : Z) : Prop := (- 2 ^ 31 ≤ z < 2 ^ 31)%Z.

(** One reference more or fewer on an object. *)
Definition more_refs (k : Z) (o : object) : object :=
  set_m_ref o (LONG (m_ref o + k)).

(** The module after one [CreateInstance] and one [EnumSubCommands] on the
    root: the root at address 0, its commands at 1 to 12, an enumerator over
    them at 13. *)
Definition sample_state : State :=
  default initial
    (run [call_CreateInstance false IID_IExplorerCommand; call_EnumSubCommands 0]
       initial).

(** The menu of the root, in order: for each command whether it is the
    [CRCMenuParent], its id and its title. *)
Definition root_menu : list (bool * CommandID.t * wstring) :=
  ((λ c, (false, c.1, c.2)) <$> root_children)
  ++ [(true, CommandID.CRCMenu, L "CRC SHA")].

(** A root just built in [s]: the root at [a] with one reference, the
    commands of its menu at [subs], in order and with one reference each, all
    at addresses that held nothing in [s], the rest of the heap as in [s], and
    one more counted object for each of the thirteen. *)
Definition fresh_root (s s1 : State) (a : addr) (subs : list addr) : Prop :=
  NoDup (a :: subs)
  ∧ Forall (λ b, heap s !! b = None) (a :: subs)
  ∧ (∀ b, b ∉ a :: subs → heap s1 !! b = heap s !! b)
  ∧ heap s1 !! a = Some (ExplorerCommandRoot 1 subs 0)
  ∧ Forall2 (λ b c, heap s1 !! b = Some (ExplorerCommandBase c.1.1 1 c.1.2 c.2))
      subs root_menu
  ∧ g_ObjCount s1 = LONG (g_ObjCount s + 13)
  ∧ g_LockCount s1 = g_LockCount s.

(** A live command that holds a reference and can take one more. *)
Definition shared_command (s : State) (b : addr) : Prop :=
  match heap s !! b with
  | Some (ExplorerCommandBase _ k _ _) => (0 < k < 2 ^ 31 - 1)%Z
  | _ => False
  end.

(** * Properties *)

(** ** Paths *)

Example path_parts_file :
  let p := L "C:\dir\a.tar.gz" in
  (parent_path p, filename p, stem p, extension p)
  = (L "C:\dir", L "a.tar.gz", L "a.tar", L ".gz").
Proof. reflexivity. Qed.

Example path_parts_dotfile :
  let p := L "C:\dir\.profile" in
  (filename p, stem p, extension p) = (L ".profile", L ".profile", []).
Proof. reflexivity. Qed.

Example path_parts_root :
  (parent_path (L "C:\a.txt"), filename (parent_path (L "C:\a.txt")),
   parent_path (L "\\srv\share\f.zip"), filename (L "C:\dir\sub" ++ bslash))
  = (L "C:" ++ bslash, [], L "\\srv\share", []).
Proof. reflexivity. Qed.

Example path_eqb_separators :
  path_eqb (L "C:\d1//sub") (L "C:/d1\sub") = true
  ∧ path_eqb (L "C:\d1") (L "C:\d2") = false
  ∧ path_eqb (L "C:\d1") (L "D:\d1") = false.
Proof. repeat split; reflexivity. Qed.

(** ** Extensions *)

Lemma c_str_no_NUL (s : wstring) : Forall (λ c, c ≠ 0%N) (c_str s).
Proof.
  induction s as [|c s IH]; simpl; [constructor|].
  destruct (N.eqb_spec c 0); [constructor|]. by constructor.
Qed.

Lemma towlower_NUL (c : wchar) : towlower c = 0%N → c = 0%N.
Proof.
  unfold towlower. destruct ((65 <=? c) && (c <=? 90))%N eqn:E; [|done].
  apply andb_prop in E as [E1%N.leb_le E2]. lia.
Qed.

(** Two strings without NUL compare equal exactly when they are the same
    after lowering. *)
Lemma _wcsicmp_0 (a b : wstring) :
  Forall (λ c, c ≠ 0%N) a → Forall (λ c, c ≠ 0%N) b →
  _wcsicmp a b = 0%Z ↔ towlower <$> a = towlower <$> b.
Proof.
  intros Ha. revert b. induction Ha as [|c a Hc Ha IH]; intros b Hb.
  - destruct Hb as [|d b Hd Hb]; simpl; [done|].
    split; [|done]. intros E. destruct Hd. apply towlower_NUL. lia.
  - destruct Hb as [|d b Hd Hb]; simpl.
    + split; [|done]. intros E. destruct Hc. apply towlower_NUL. lia.
    + destruct (N.eqb_spec (towlower c) (towlower d)) as [E|E].
      * rewrite E. split.
        -- intros H. apply IH in H; [|done]. f_equal. exact H.
        -- intros [= H]. apply IH; [done|]. exact H.
      * split; [lia|]. by intros [=].
Qed.

Lemma exts_lower : Forall (λ e, Forall (λ c, c ≠ 0%N) e ∧ towlower <$> e = e) exts.
Proof. repeat constructor; by vm_compute. Qed.

Lemma IsArchiveExt_spec (ext : wstring) :
  IsArchiveExt ext = true ↔ towlower <$> c_str ext ∈ exts.
Proof.
  unfold IsArchiveExt. rewrite existsb_exists. split.
  - intros (e & He%list_elem_of_In & Hc%Z.eqb_eq).
    pose proof exts_lower as Hl. rewrite Forall_forall in Hl.
    destruct (Hl e He) as [Hn Hlow].
    apply _wcsicmp_0 in Hc; [|apply c_str_no_NUL|done].
    by rewrite Hc, Hlow.
  - intros He. exists (towlower <$> c_str ext). split; [by apply list_elem_of_In|].
    pose proof exts_lower as Hl. rewrite Forall_forall in Hl.
    destruct (Hl _ He) as [Hn Hlow].
    apply Z.eqb_eq, _wcsicmp_0; [apply c_str_no_NUL|done|by rewrite Hlow].
Qed.

Lemma allArchives_Forall (paths : list wstring) :
  allArchives paths = true ↔ Forall has_archive_extension paths.
Proof.
  induction paths as [|p paths IH]; simpl.
  - split; [constructor|done].
  - rewrite Forall_cons. unfold has_archive_extension at 1.
    rewrite <- IsArchiveExt_spec, <- IH.
    destruct (IsArchiveExt (extension p)); simpl; intuition congruence.
Qed.

(** ** Visibility *)

Lemma GetState_nonempty (m_id : CommandID.t) (arr : option IShellItemArray) :
  CollectPaths arr ≠ [] →
  GetState m_id arr =
    (S_OK,
     match m_id with
     | CommandID.Open =>
         if (length (CollectPaths arr) =? 1) && allArchives (CollectPaths arr)
         then ECS_ENABLED else ECS_HIDDEN
     | CommandID.Test | CommandID.ExtractFiles
     | CommandID.ExtractHere | CommandID.ExtractTo =>
         if allArchives (CollectPaths arr) then ECS_ENABLED else ECS_HIDDEN
     | _ => ECS_ENABLED
     end).
Proof.
  intros Hne. unfold GetState.
  destruct (CollectPaths arr) as [|p paths]; [done|]. by destruct m_id.
Qed.

Lemma GetState_no_paths (m_id : CommandID.t) (arr : option IShellItemArray) :
  CollectPaths arr = [] → GetState m_id arr = (S_OK, ECS_HIDDEN).
Proof. intros H. unfold GetState. by rewrite H. Qed.

(** C5. Every command of [ExplorerCommandBase], whatever its id, answers
    [GetState] on a selection that yields no path (a null array, a failing
    count, or no item with a file system path) with [S_OK] and
    [ECS_HIDDEN]. *)
Theorem GetState_empty_selection_hidden
    (m_id : CommandID.t) (arr : option IShellItemArray) :
  CollectPaths arr = [] → GetState m_id arr = (S_OK, ECS_HIDDEN).
Proof. apply GetState_no_paths. Qed.

(** C6, as the source has it. [Open] is enabled exactly when the selection
    is one entry whose extension is in the allow-list, compared without
    case; the file system is not asked, so the entry need not be a regular
    file.  It is hidden for every selection of two or more entries, whatever
    their extensions. *)
Theorem Open_enabled_iff_single_archive (arr : option IShellItemArray) :
  (GetState CommandID.Open arr = (S_OK, ECS_ENABLED)
   ↔ ∃ p, CollectPaths arr = [p] ∧ has_archive_extension p)
  ∧ (∀ p q rest, CollectPaths arr = p :: q :: rest →
       GetState CommandID.Open arr = (S_OK, ECS_HIDDEN)).
Proof.
  split.
  - destruct (CollectPaths arr) as [|p [|q rest]] eqn:E.
    + rewrite GetState_no_paths by done.
      split; [done|]. by intros (p & [=] & _).
    + rewrite GetState_nonempty by (by rewrite E). rewrite E.
      change (length [p] =? 1) with true. rewrite andb_true_l.
      destruct (allArchives [p]) eqn:A.
      * split; [|done]. intros _. exists p. split; [done|].
        apply allArchives_Forall in A. by inversion A.
      * split; [done|]. intros (p' & [= <-] & Hp).
        assert (allArchives [p] = true) as A'
          by (apply allArchives_Forall; by constructor).
        congruence.
    + rewrite GetState_nonempty by (by rewrite E). rewrite E.
      split; [done|]. by intros (p' & [=] & _).
  - intros p q rest E. rewrite GetState_nonempty by (by rewrite E).
    by rewrite E.
Qed.

(** C4, as the source has it. On a selection with at least one path the
    flag of [GetState] is true exactly when the extension of every entry is
    in the allow-list, compared without case; the file system is not asked,
    so a directory with such a name counts.  The commands that need the flag
    are enabled exactly when there is a path and every extension is in the
    list; a selection without paths never reaches the flag and hides every
    command. *)
Theorem allArchives_by_extension_only (arr : option IShellItemArray) :
  (CollectPaths arr ≠ [] →
     (allArchives (CollectPaths arr) = true
      ↔ Forall has_archive_extension (CollectPaths arr)))
  ∧ (GetState CommandID.Test arr = (S_OK, ECS_ENABLED)
     ↔ CollectPaths arr ≠ [] ∧ Forall has_archive_extension (CollectPaths arr))
  ∧ (CollectPaths arr = [] → ∀ m_id, GetState m_id arr = (S_OK, ECS_HIDDEN)).
Proof.
  split; [intros _; apply allArchives_Forall|].
  split; [|intros E m_id; by apply GetState_no_paths].
  destruct (CollectPaths arr) as [|p paths] eqn:E.
  - rewrite GetState_no_paths by done. split; [done|]. by intros [].
  - rewrite GetState_nonempty by (by rewrite E). rewrite E.
    rewrite <- allArchives_Forall.
    destruct (allArchives (p :: paths)); split; try done. by intros [_ ?].
Qed.

(** C10. The root command answers [GetState] with [S_OK] and [ECS_ENABLED]
    for every selection; on the null selection each of the commands it
    enumerates, and each child of the hash menu, is hidden while the root
    stays enabled. *)
Theorem Root_GetState_always_enabled (arr : option IShellItemArray) :
  Root_GetState arr = (S_OK, ECS_ENABLED)
  ∧ Root_GetState None = (S_OK, ECS_ENABLED)
  ∧ Forall (λ c, GetState c.1 None = (S_OK, ECS_HIDDEN))
      (root_children ++ [(CommandID.CRCMenu, L "CRC SHA")] ++ hash_children).
Proof. repeat split. repeat constructor. Qed.

(** C4, as stated, fails. The directory [C:\dir\photos.zip] has an archive
    extension, so the flag is true for it and [Open] is enabled on it; the
    flag being true does not make every entry a regular file. *)
Lemma allArchives_true_on_directory :
  let d := L "C:\dir\photos.zip" in
  CollectPaths (shell_items [d]) = [d]
  ∧ IsDirectoryPath sample_os d = true
  ∧ allArchives (CollectPaths (shell_items [d])) = true
  ∧ GetState CommandID.Open (shell_items [d]) = (S_OK, ECS_ENABLED)
  ∧ ¬ (∀ (os : Win32) (arr : option IShellItemArray),
         allArchives (CollectPaths arr) = true →
         Forall (λ p, IsDirectoryPath os p = false ∧ has_archive_extension p)
           (CollectPaths arr)).
Proof.
  repeat split; try reflexivity.
  intros H.
  specialize (H sample_os (shell_items [L "C:\dir\photos.zip"]) eq_refl).
  apply Forall_inv in H as [H _]. vm_compute in H. discriminate H.
Qed.

(** C6, as stated, fails. [Open] is enabled on the directory
    [C:\dir\photos.zip] and on the path [C:\gone\old.7z] that does not
    exist: each is the one entry of its selection and has an archive
    extension, and neither is a regular file.  So being enabled does not make
    the entry an archive, a regular file with such an extension. *)
Lemma Open_enabled_on_directory :
  let d := L "C:\dir\photos.zip" in
  let m := L "C:\gone\old.7z" in
  CollectPaths (shell_items [d]) = [d]
  ∧ GetState CommandID.Open (shell_items [d]) = (S_OK, ECS_ENABLED)
  ∧ IsDirectoryPath sample_os d = true
  ∧ FileExists sample_os d = false
  ∧ CollectPaths (shell_items [m]) = [m]
  ∧ GetState CommandID.Open (shell_items [m]) = (S_OK, ECS_ENABLED)
  ∧ GetFileAttributesW sample_os (c_str m) = INVALID_FILE_ATTRIBUTES
  ∧ FileExists sample_os m = false
  ∧ ¬ (∀ (os : Win32) (arr : option IShellItemArray),
         GetState CommandID.Open arr = (S_OK, ECS_ENABLED)
         ↔ ∃ p, CollectPaths arr = [p]
                ∧ FileExists os p = true ∧ has_archive_extension p).
Proof.
  split_and!; try reflexivity.
  intros H.
  destruct (proj1 (H sample_os (shell_items [L "C:\dir\photos.zip"])) eq_refl)
    as (p & Hp & Hf & _).
  injection Hp as <-. vm_compute in Hf. discriminate Hf.
Qed.

Lemma GetState_empty_selection_hidden_witness :
  CollectPaths None = [] ∧ GetState CommandID.AddTo7z None = (S_OK, ECS_HIDDEN).
Proof.
  split; [reflexivity|].
  apply (GetState_empty_selection_hidden CommandID.AddTo7z None). reflexivity.
Defined.

Lemma Open_enabled_iff_single_archive_witness :
  GetState CommandID.Open (shell_items [L "C:\dir\X.7z"]) = (S_OK, ECS_ENABLED)
  ∧ GetState CommandID.Open (shell_items [L "C:\dir\X.7z"; L "C:\dir\Y.7z"])
    = (S_OK, ECS_HIDDEN).
Proof.
  split.
  - apply (proj1 (Open_enabled_iff_single_archive (shell_items [L "C:\dir\X.7z"]))).
    exists (L "C:\dir\X.7z"). split; [reflexivity|].
    apply (bool_decide_unpack _). vm_compute. reflexivity.
  - apply (proj2 (Open_enabled_iff_single_archive
                    (shell_items [L "C:\dir\X.7z"; L "C:\dir\Y.7z"]))
             (L "C:\dir\X.7z") (L "C:\dir\Y.7z") []).
    reflexivity.
Defined.

Lemma allArchives_by_extension_only_witness :
  let sel := shell_items [L "C:\dir\X.7Z"; L "C:\dir\photos.zip"] in
  allArchives (CollectPaths sel) = true
  ∧ GetState CommandID.Test sel = (S_OK, ECS_ENABLED)
  ∧ GetState CommandID.Test None = (S_OK, ECS_HIDDEN).
Proof.
  pose proof (allArchives_by_extension_only
                (shell_items [L "C:\dir\X.7Z"; L "C:\dir\photos.zip"]))
    as (H1 & H2 & _).
  assert (Forall has_archive_extension
            (CollectPaths (shell_items [L "C:\dir\X.7Z"; L "C:\dir\photos.zip"])))
    as HF by (apply (bool_decide_unpack _); vm_compute; reflexivity).
  split; [apply H1; [discriminate|exact HF]|].
  split; [apply H2; split; [discriminate|exact HF]|].
  apply (proj2 (proj2 (allArchives_by_extension_only None))). reflexivity.
Defined.

(** ** Names *)

Lemma path_eqb_key (a b : wstring) :
  path_eqb a b = true ↔ path_key a = path_key b.
Proof.
  unfold path_eqb, path_key.
  rewrite !andb_true_iff, !bool_decide_eq_true, Bool.eqb_true_iff.
  split; [by intros [[-> ->] ->]|by intros [= -> -> ->]].
Qed.

Lemma allSameParent_Forall (parent : wstring) (paths : list wstring) :
  allSameParent parent paths = true
  ↔ Forall (λ x, path_eqb (parent_path x) parent = true) paths.
Proof.
  induction paths as [|p paths IH]; simpl.
  - split; [constructor|done].
  - rewrite Forall_cons, <- IH.
    destruct (path_eqb (parent_path p) parent); simpl; intuition congruence.
Qed.

(** The parents are path-equal to one another exactly when each is path-equal
    to the parent of the first entry. *)
Lemma same_parent_pairwise (p : wstring) (rest : list wstring) :
  Forall (λ x, path_eqb (parent_path x) (parent_path p) = true) (p :: rest)
  ↔ ∀ x y, x ∈ p :: rest → y ∈ p :: rest →
           path_eqb (parent_path x) (parent_path y) = true.
Proof.
  rewrite Forall_forall. split.
  - intros H x y Hx Hy. apply path_eqb_key.
    apply H, path_eqb_key in Hx. apply H, path_eqb_key in Hy. congruence.
  - intros H x Hx. apply H; [done|]. left.
Qed.

Section Names.
Variable os : Win32.

(** C3. [DefaultArchiveName] gives [Archive] + ext on no path; on one path
    its name for a directory and its name without extension otherwise, + ext;
    on several paths the name of the parent of the first + ext when the
    parents of all entries are path-equal and that name is not empty, and
    [Archive] + ext in every other case. *)
Theorem DefaultArchiveName_cases (p q : wstring) (rest : list wstring) (ext : wstring) :
  DefaultArchiveName os [] ext = L "Archive" ++ ext
  ∧ DefaultArchiveName os [p] ext
    = (if IsDirectoryPath os p then filename p else stem p) ++ ext
  ∧ let paths := p :: q :: rest in
    let common :=
      (∀ x y, x ∈ paths → y ∈ paths →
              path_eqb (parent_path x) (parent_path y) = true)
      ∧ filename (parent_path p) ≠ [] in
    (common → DefaultArchiveName os paths ext = filename (parent_path p) ++ ext)
    ∧ (¬ common → DefaultArchiveName os paths ext = L "Archive" ++ ext).
Proof.
  split; [reflexivity|]. split; [reflexivity|].
  intros paths common. subst common paths.
  change (DefaultArchiveName os (p :: q :: rest) ext)
    with (if allSameParent (parent_path p) (p :: q :: rest)
             && negb (is_empty (filename (parent_path p)))
          then filename (parent_path p) ++ ext else L "Archive" ++ ext).
  rewrite <- (same_parent_pairwise p (q :: rest)), <- allSameParent_Forall.
  destruct (allSameParent (parent_path p) (p :: q :: rest));
    destruct (filename (parent_path p)) as [|c f]; simpl; split; intros H;
    try reflexivity; try (by destruct H as [? ?]).
  destruct H. by split.
Qed.

End Names.

Lemma DefaultArchiveName_cases_witness :
  DefaultArchiveName sample_os [L "C:\dir\a.txt"; L "C:\dir\b.txt"] (L ".7z")
  = L "dir.7z"
  ∧ DefaultArchiveName sample_os [L "C:\d1\a.txt"; L "C:\d2\b.txt"] (L ".7z")
    = L "Archive.7z".
Proof.
  split.
  - apply (proj1 (proj2 (proj2 (DefaultArchiveName_cases sample_os
             (L "C:\dir\a.txt") (L "C:\dir\b.txt") [] (L ".7z"))))).
    split; [|discriminate].
    apply (same_parent_pairwise (L "C:\dir\a.txt") [L "C:\dir\b.txt"]).
    repeat constructor.
  - apply (proj2 (proj2 (proj2 (DefaultArchiveName_cases sample_os
             (L "C:\d1\a.txt") (L "C:\d2\b.txt") [] (L ".7z"))))).
    intros [H _].
    specialize (H (L "C:\d1\a.txt") (L "C:\d2\b.txt")).
    assert (path_eqb (parent_path (L "C:\d1\a.txt")) (parent_path (L "C:\d2\b.txt"))
            = true) as E by (apply H; repeat constructor).
    vm_compute in E. discriminate E.
Defined.

Example DefaultArchiveName_empty (ext : wstring) :
  DefaultArchiveName sample_os [] ext = L "Archive" ++ ext.
Proof. reflexivity. Qed.

Example DefaultArchiveName_single :
  DefaultArchiveName sample_os [L "C:\dir\file.txt"] (L ".7z") = L "file.7z"
  ∧ DefaultArchiveName sample_os [L "C:\dir\sub"] (L ".zip") = L "sub.zip"
  ∧ DefaultArchiveName sample_os [L "C:\dir\photos.zip"] (L ".7z") = L "photos.zip.7z".
Proof. repeat split; reflexivity. Qed.

Example DefaultArchiveName_drive_root :
  DefaultArchiveName sample_os [L "C:\a.txt"; L "C:\b.txt"] (L ".7z") = L "Archive.7z".
Proof. reflexivity. Qed.

(** ** Dispatch *)

Section Dispatch.
Variable os : Win32.

Lemma Invoke_ExtractTo (arr : option IShellItemArray) :
  Invoke os CommandID.ExtractTo arr = (S_OK, into_subfolder os <$> CollectPaths arr).
Proof. unfold Invoke. by destruct (CollectPaths arr). Qed.

(** C1. [Extract Here] on a selection of one entry makes one launch, with the
    switches [x -y] and the quoted path and no [-o] switch; on a selection of
    two or more entries it makes one launch per entry, in order, each with
    [-o] naming the folder [BaseName] of that entry. *)
Theorem ExtractHere_smart (arr : option IShellItemArray) :
  (∀ p, CollectPaths arr = [p] →
     Invoke os CommandID.ExtractHere arr = (S_OK, [in_place os p])
     ∧ (switches <$> lpParameters (in_place os p)) = Some (L "x -y "))
  ∧ (∀ p q rest, CollectPaths arr = p :: q :: rest →
       Invoke os CommandID.ExtractHere arr
       = (S_OK, into_subfolder os <$> p :: q :: rest)
       ∧ Forall (λ d, switches <$> lpParameters d = Some (L "x -y -o"))
           (into_subfolder os <$> p :: q :: rest)).
Proof.
  split.
  - intros p E. unfold Invoke. rewrite E. split; reflexivity.
  - intros p q rest E. unfold Invoke. rewrite E. split; [reflexivity|].
    apply Forall_fmap, Forall_true. intros x. reflexivity.
Qed.

(** C2. [Extract to folder] makes one launch per entry of any selection, in
    order, each with [-o] naming the folder [BaseName] of that entry; on a
    selection of one entry this differs from the launch of [Extract Here],
    which has no [-o]. *)
Theorem ExtractTo_always_subfolder (arr : option IShellItemArray) :
  (∀ p rest, CollectPaths arr = p :: rest →
     Invoke os CommandID.ExtractTo arr = (S_OK, into_subfolder os <$> p :: rest)
     ∧ Forall (λ d, switches <$> lpParameters d = Some (L "x -y -o"))
         (into_subfolder os <$> p :: rest))
  ∧ (∀ p, CollectPaths arr = [p] →
       Invoke os CommandID.ExtractTo arr = (S_OK, [into_subfolder os p])
       ∧ Invoke os CommandID.ExtractHere arr = (S_OK, [in_place os p])
       ∧ into_subfolder os p ≠ in_place os p).
Proof.
  split.
  - intros p rest E. rewrite Invoke_ExtractTo, E. split; [reflexivity|].
    apply Forall_fmap, Forall_true. intros x. reflexivity.
  - intros p E. rewrite Invoke_ExtractTo, E. split; [reflexivity|].
    split; [unfold Invoke; by rewrite E|].
    intros H. apply (f_equal lpParameters) in H. discriminate H.
Qed.

(** C9. Each email command makes the launches of the add command with the
    same extension, on every selection: the same tool, the same archive name
    and the same arguments. *)
Theorem Email_same_dispatch_as_Add (arr : option IShellItemArray) :
  Invoke os CommandID.Email7z arr = Invoke os CommandID.AddTo7z arr
  ∧ Invoke os CommandID.EmailZip arr = Invoke os CommandID.AddToZip arr
  ∧ Invoke os CommandID.EmailArchive arr = Invoke os CommandID.AddToArchive arr.
Proof. unfold Invoke. by destruct (CollectPaths arr). Qed.

End Dispatch.

Lemma ExtractHere_smart_witness :
  Invoke sample_os CommandID.ExtractHere (shell_items [L "C:\dir\X.7z"])
  = (S_OK, [in_place sample_os (L "C:\dir\X.7z")])
  ∧ Invoke sample_os CommandID.ExtractHere
      (shell_items [L "C:\dir\X.7z"; L "C:\dir\Y.7z"])
    = (S_OK, [into_subfolder sample_os (L "C:\dir\X.7z");
              into_subfolder sample_os (L "C:\dir\Y.7z")]).
Proof.
  split.
  - apply (proj1 (ExtractHere_smart sample_os (shell_items [L "C:\dir\X.7z"]))).
    reflexivity.
  - apply (proj2 (ExtractHere_smart sample_os
                    (shell_items [L "C:\dir\X.7z"; L "C:\dir\Y.7z"]))
             (L "C:\dir\X.7z") (L "C:\dir\Y.7z") []).
    reflexivity.
Defined.

Lemma ExtractTo_always_subfolder_witness :
  Invoke sample_os CommandID.ExtractTo (shell_items [L "C:\dir\X.7z"])
  = (S_OK, [into_subfolder sample_os (L "C:\dir\X.7z")])
  ∧ into_subfolder sample_os (L "C:\dir\X.7z") ≠ in_place sample_os (L "C:\dir\X.7z").
Proof.
  pose proof (proj2 (ExtractTo_always_subfolder sample_os
                       (shell_items [L "C:\dir\X.7z"]))
                (L "C:\dir\X.7z") eq_refl) as (H1 & _ & H3).
  split; [exact H1|exact H3].
Defined.

Example ExtractHere_one_archive :
  Invoke sample_os CommandID.ExtractHere (shell_items [L "C:\dir\X.7z"])
  = (S_OK, [{| lpFile := L "C:\Program Files\7-Zip\7zG.exe";
               lpParameters := Some (L "x -y " ++ dquote ++ L "C:\dir\X.7z" ++ dquote);
               lpDirectory := None |}]).
Proof. reflexivity. Qed.

Example ExtractHere_two_archives :
  Invoke sample_os CommandID.ExtractHere
    (shell_items [L "C:\dir\X.7z"; L "C:\dir\Y.7z"])
  = (S_OK,
     [{| lpFile := L "C:\Program Files\7-Zip\7zG.exe";
         lpParameters :=
           Some (L "x -y -o" ++ dquote ++ L "X" ++ bslash ++ dquote ++ L " "
                 ++ dquote ++ L "C:\dir\X.7z" ++ dquote);
         lpDirectory := None |};
      {| lpFile := L "C:\Program Files\7-Zip\7zG.exe";
         lpParameters :=
           Some (L "x -y -o" ++ dquote ++ L "Y" ++ bslash ++ dquote ++ L " "
                 ++ dquote ++ L "C:\dir\Y.7z" ++ dquote);
         lpDirectory := None |}]).
Proof. reflexivity. Qed.

Example ExtractTo_one_archive :
  Invoke sample_os CommandID.ExtractTo (shell_items [L "C:\dir\X.7z"])
  = (S_OK,
     [{| lpFile := L "C:\Program Files\7-Zip\7zG.exe";
         lpParameters :=
           Some (L "x -y -o" ++ dquote ++ L "X" ++ bslash ++ dquote ++ L " "
                 ++ dquote ++ L "C:\dir\X.7z" ++ dquote);
         lpDirectory := None |}]).
Proof. reflexivity. Qed.

Example Email7z_two_files :
  Invoke sample_os CommandID.Email7z (shell_items [L "C:\dir\a.txt"; L "C:\dir\b.txt"])
  = (S_OK,
     [{| lpFile := L "C:\Program Files\7-Zip\7zG.exe";
         lpParameters :=
           Some (L "a " ++ dquote ++ L "dir.7z" ++ dquote ++ L " "
                 ++ dquote ++ L "C:\dir\a.txt" ++ dquote ++ L " "
                 ++ dquote ++ L "C:\dir\b.txt" ++ dquote ++ L " ");
         lpDirectory := None |}]).
Proof. reflexivity. Qed.

(** ** Counters *)

Lemma LONG_small (z : Z) : (- 2 ^ 31 ≤ z < 2 ^ 31)%Z → LONG z = z.
Proof. intros H. unfold LONG. rewrite Z.mod_small by lia. lia. Qed.

Lemma LONG_range (z : Z) : (- 2 ^ 31 ≤ LONG z < 2 ^ 31)%Z.
Proof.
  unfold LONG. pose proof (Z.mod_pos_bound (z + 2 ^ 31) (2 ^ 32)). lia.
Qed.

Lemma LONG_add (z k : Z) : LONG (LONG z + k) = LONG (z + k).
Proof.
  unfold LONG. f_equal.
  replace ((z + 2 ^ 31) `mod` 2 ^ 32 - 2 ^ 31 + k + 2 ^ 31)%Z
    with ((z + 2 ^ 31) `mod` 2 ^ 32 + k)%Z by lia.
  rewrite Zplus_mod_idemp_l. f_equal. lia.
Qed.

Lemma LONG_sub (z k : Z) : LONG (LONG z - k) = LONG (z - k).
Proof. apply (LONG_add z (- k)). Qed.

(** ** Counting the live commands *)

Lemma live_insert_fresh (h : gmap addr object) (a : addr) (o : object) :
  h !! a = None →
  live (<[a:=o]> h) = if counted o then S (live h) else live h.
Proof.
  intros Ha. unfold live. destruct (counted o) eqn:E.
  - rewrite map_filter_insert_True by done.
    apply map_size_insert_None. by apply map_lookup_filter_None_2; left.
  - rewrite map_filter_insert_not'; [done|simpl; congruence|].
    intros y Hy. congruence.
Qed.

Lemma live_delete (h : gmap addr object) (a : addr) (o : object) :
  h !! a = Some o →
  live h = if counted o then S (live (delete a h)) else live (delete a h).
Proof.
  intros Ha. rewrite <- (insert_delete_id h a o) at 1 by done.
  apply live_insert_fresh, lookup_delete_eq.
Qed.

Lemma live_insert_same (h : gmap addr object) (a : addr) (o o' : object) :
  h !! a = Some o → counted o' = counted o → live (<[a:=o']> h) = live h.
Proof.
  intros Ha E. rewrite <- (insert_delete_eq h).
  rewrite live_insert_fresh by apply lookup_delete_eq.
  rewrite (live_delete h a o) by done. by rewrite E.
Qed.

(** ** Steps of the state monad *)

Lemma bind_Some {A B} (m : M A) (k : A → M B) (s s2 : State) (y : B) :
  (m ≫= k) s = Some (y, s2) ↔ ∃ x s1, m s = Some (x, s1) ∧ k x s1 = Some (y, s2).
Proof.
  unfold mbind, M_bind. destruct (m s) as [[x s1]|]; split.
  - intros H. by exists x, s1.
  - by intros (? & ? & [= <- <-] & H).
  - done.
  - by intros (? & ? & [=] & _).
Qed.

Lemma ret_Some {A} (x y : A) (s s' : State) :
  (mret x : M A) s = Some (y, s') ↔ x = y ∧ s = s'.
Proof. unfold mret, M_ret. split; [by intros [= -> ->]|by intros [-> ->]]. Qed.

Lemma get_obj_Some (a : addr) (s s' : State) (o : object) :
  get_obj a s = Some (o, s') ↔ heap s !! a = Some o ∧ s' = s.
Proof.
  unfold get_obj. destruct (heap s !! a); split; try done.
  - by intros [= -> ->].
  - by intros [[= ->] ->].
  - by intros [? _].
Qed.

#[global] Instance ok_preorder : PreOrder ok.
Proof.
  split.
  - intros s. split; [done|]. intros a o ? _. by exists o.
  - intros s1 s2 s3 [I1 F1] [I2 F2]. split; [auto|].
    intros a o Ha Hk. destruct (F1 a o Ha Hk) as (o' & Ha' & Hk').
    destruct (F2 a o' Ha') as (o'' & ? & ?); [congruence|].
    exists o''. split; [done|congruence].
Qed.

Lemma mapM_rel {A B} (R : relation State) `{!PreOrder R} (f : A → M B) (l : list A) :
  (∀ x s y s', f x s = Some (y, s') → R s s') →
  ∀ s ys s', mapM f l s = Some (ys, s') → R s s'.
Proof.
  intros Hf. induction l as [|x l IH]; intros s ys s' H; simpl in H.
  - apply ret_Some in H as [_ ->]. reflexivity.
  - apply bind_Some in H as (y & s1 & H1 & H).
    apply bind_Some in H as (k & s2 & H2 & H).
    apply ret_Some in H as [_ ->].
    etrans; [by eapply Hf|by eapply IH].
Qed.

Lemma put_obj_ok (a : addr) (o o' : object) (s s' : State) (u : ()) :
  heap s !! a = Some o → kind_of o' = kind_of o →
  put_obj a o' s = Some (u, s') → ok s s'.
Proof.
  intros Ha Hk [= _ <-]. split.
  - unfold counts_live, live_commands. simpl. intros ->.
    rewrite (live_insert_same _ a o); [done..|]. by destruct o, o'.
  - intros b ob Hb Hkb. simpl. destruct (decide (a = b)) as [->|Hne].
    + rewrite lookup_insert_eq. exists o'. split; [done|congruence].
    + rewrite lookup_insert_ne by done. by exists ob.
Qed.

Lemma set_m_ref_kind (o : object) (r : Z) : kind_of (set_m_ref o r) = kind_of o.
Proof. by destruct o. Qed.

Lemma AddRef_ok (a : addr) (s s' : State) (c : Z) :
  AddRef a s = Some (c, s') → ok s s'.
Proof.
  unfold AddRef. intros H.
  apply bind_Some in H as (o & s0 & H0 & H).
  apply get_obj_Some in H0 as [Ha ->].
  apply bind_Some in H as (u & s1 & H1 & H).
  apply ret_Some in H as [_ ->].
  eapply put_obj_ok; [exact Ha|apply set_m_ref_kind|exact H1].
Qed.

Lemma new_Some (o : object) (s s' : State) (a : addr) :
  new_ o s = Some (a, s') →
  heap s !! a = None ∧ heap s' = <[a:=o]> (heap s)
  ∧ g_ObjCount s' = g_ObjCount s ∧ g_LockCount s' = g_LockCount s.
Proof.
  intros [= <- <-]. simpl. split; [|done].
  apply not_elem_of_dom, is_fresh.
Qed.

Lemma put_obj_Some (a : addr) (o : object) (s s' : State) (u : ()) :
  put_obj a o s = Some (u, s') →
  heap s' = <[a:=o]> (heap s)
  ∧ g_ObjCount s' = g_ObjCount s ∧ g_LockCount s' = g_LockCount s.
Proof. by intros [= _ <-]. Qed.

Lemma free_Some (a : addr) (s s' : State) (u : ()) :
  free a s = Some (u, s') →
  heap s' = delete a (heap s)
  ∧ g_ObjCount s' = g_ObjCount s ∧ g_LockCount s' = g_LockCount s.
Proof. by intros [= _ <-]. Qed.

Lemma Increment_ObjCount_Some (s s' : State) (v : Z) :
  InterlockedIncrement_ObjCount s = Some (v, s') →
  heap s' = heap s ∧ g_ObjCount s' = LONG (g_ObjCount s + 1)
  ∧ g_LockCount s' = g_LockCount s.
Proof. by intros [= _ <-]. Qed.

Lemma Decrement_ObjCount_Some (s s' : State) (v : Z) :
  InterlockedDecrement_ObjCount s = Some (v, s') →
  heap s' = heap s ∧ g_ObjCount s' = LONG (g_ObjCount s - 1)
  ∧ g_LockCount s' = g_LockCount s.
Proof. by intros [= _ <-]. Qed.

Lemma insert_frame (h : gmap addr object) (a : addr) (o : object) :
  h !! a = None →
  ∀ b ob, h !! b = Some ob → kind_of ob ≠ KBase →
          ∃ o', <[a:=o]> h !! b = Some o' ∧ kind_of o' = kind_of ob.
Proof.
  intros Ha b ob Hb _. exists ob. split; [|done].
  rewrite lookup_insert_ne; [done|congruence].
Qed.

Lemma new_ExplorerCommandBase_ok d id t (s s' : State) (a : addr) :
  new_ExplorerCommandBase d id t s = Some (a, s') →
  ok s s' ∧ heap s' !! a = Some (ExplorerCommandBase d 1 id t).
Proof.
  unfold new_ExplorerCommandBase. intros H.
  apply bind_Some in H as (a' & s1 & H1 & H).
  apply bind_Some in H as (v & s2 & H2 & H).
  apply ret_Some in H as [-> ->].
  apply new_Some in H1 as (Hf & Hh & Hc & _).
  apply Increment_ObjCount_Some in H2 as (Hh2 & Hc2 & _).
  rewrite Hh2, Hh, lookup_insert_eq. split; [|done]. split.
  - unfold counts_live, live_commands. rewrite Hc2, Hh2, Hh, Hc. intros ->.
    rewrite live_insert_fresh by done. simpl.
    rewrite LONG_add. f_equal. lia.
  - rewrite Hh2, Hh. by apply insert_frame.
Qed.

Lemma new_counted_ok (o : object) (s s1 s2 : State) (a : addr) (v : Z) :
  counted o = true →
  new_ o s = Some (a, s1) → InterlockedIncrement_ObjCount s1 = Some (v, s2) →
  ok s s2 ∧ heap s2 !! a = Some o.
Proof.
  intros Ho H1 H2.
  apply new_Some in H1 as (Hf & Hh & Hc & _).
  apply Increment_ObjCount_Some in H2 as (Hh2 & Hc2 & _).
  rewrite Hh2, Hh, lookup_insert_eq. split; [|done]. split.
  - unfold counts_live, live_commands. rewrite Hc2, Hh2, Hh, Hc. intros ->.
    rewrite live_insert_fresh, Ho by done.
    rewrite LONG_add. f_equal. lia.
  - rewrite Hh2, Hh. by apply insert_frame.
Qed.

(** The destructor's decrement followed by the release of the memory. *)
Lemma destroy_counted (a : addr) (o : object) (s s' : State) (u : ()) :
  heap s !! a = Some o → counted o = true →
  (InterlockedDecrement_ObjCount;; free a) s = Some (u, s') →
  (counts_live s → counts_live s')
  ∧ heap s' = delete a (heap s).
Proof.
  intros Ha Ho H.
  apply bind_Some in H as (v & s1 & H1 & H).
  apply Decrement_ObjCount_Some in H1 as (Hh1 & Hc1 & _).
  apply free_Some in H as (Hh & Hc & _).
  rewrite Hh, Hh1. split; [|done].
  unfold counts_live, live_commands. rewrite Hc, Hc1, Hh, Hh1. intros ->.
  rewrite (live_delete (heap s) a o), Ho by done.
  rewrite LONG_sub. f_equal. lia.
Qed.

Lemma delete_frame (h : gmap addr object) (a : addr) (o : object) :
  h !! a = Some o → kind_of o = KBase →
  ∀ b ob, h !! b = Some ob → kind_of ob ≠ KBase →
          ∃ o', delete a h !! b = Some o' ∧ kind_of o' = kind_of ob.
Proof.
  intros Ha Hk b ob Hb Hkb. exists ob. split; [|done].
  rewrite lookup_delete_ne; [done|]. intros ->. congruence.
Qed.

Lemma delete_ExplorerCommandBase_ok (a : addr) (o : object) (s s' : State) (u : ()) :
  heap s !! a = Some o → kind_of o = KBase →
  delete_ExplorerCommandBase a s = Some (u, s') → ok s s'.
Proof.
  intros Ha Hk H.
  apply (destroy_counted a o) in H as [Hi Hh]; [|done|by destruct o].
  split; [done|]. rewrite Hh. by eapply delete_frame.
Qed.

Lemma Release_item_ok (a : addr) (s s' : State) (c : Z) :
  Release_item a s = Some (c, s') → ok s s'.
Proof.
  unfold Release_item. intros H.
  apply bind_Some in H as (o & s0 & H0 & H).
  apply get_obj_Some in H0 as [Ha ->].
  destruct o as [d r id t| |]; try discriminate H.
  unfold Release_by in H.
  apply bind_Some in H as (o & s0 & H0 & H).
  apply get_obj_Some in H0 as [Ha' ->].
  apply bind_Some in H as (u & s1 & H1 & H).
  apply bind_Some in H as (u' & s2 & H2 & H).
  apply ret_Some in H as [_ ->].
  assert (ok s s1) as Hok1
    by (eapply put_obj_ok; [exact Ha'|apply set_m_ref_kind|exact H1]).
  etrans; [exact Hok1|].
  apply put_obj_Some in H1 as (Hh1 & _).
  destruct (_ =? 0)%Z.
  - eapply (delete_ExplorerCommandBase_ok a); [|..|exact H2].
    + rewrite Hh1. apply lookup_insert_eq.
    + rewrite set_m_ref_kind. rewrite Ha in Ha'. by injection Ha' as <-.
  - apply ret_Some in H2 as [_ ->]. reflexivity.
Qed.

Lemma mapM_Release_item_ok (l : list addr) (s s' : State) (cs : list Z) :
  mapM Release_item l s = Some (cs, s') → ok s s'.
Proof. apply mapM_rel; [apply _|]. intros ????. apply Release_item_ok. Qed.

Lemma free_uncounted (a : addr) (o : object) (s s' : State) (u : ()) :
  heap s !! a = Some o → counted o = false →
  free a s = Some (u, s') → counts_live s → counts_live s'.
Proof.
  intros Ha Ho H. apply free_Some in H as (Hh & Hc & _).
  unfold counts_live, live_commands. rewrite Hc, Hh. intros ->.
  by rewrite (live_delete (heap s) a o), Ho.
Qed.

Lemma delete_counts_live (a : addr) (s s' : State) (u : ()) :
  delete_ a s = Some (u, s') → counts_live s → counts_live s'.
Proof.
  unfold delete_. intros H.
  apply bind_Some in H as (o & s0 & H0 & H).
  apply get_obj_Some in H0 as [Ha ->].
  destruct o as [d r id t|r subs idx|r items idx].
  - by apply (delete_ExplorerCommandBase_ok a _ _ _ _ Ha) in H as [Hi _].
  - apply bind_Some in H as (cs & s1 & H1 & H).
    apply mapM_Release_item_ok in H1 as [Hi1 Hf1].
    destruct (Hf1 a _ Ha) as (o' & Ha' & Hk'); [done|].
    apply (destroy_counted a o') in H as [Hi _]; [auto|done|by destruct o'].
  - apply bind_Some in H as (cs & s1 & H1 & H).
    apply mapM_Release_item_ok in H1 as [Hi1 Hf1].
    destruct (Hf1 a _ Ha) as (o' & Ha' & Hk'); [done|].
    intros Hs. eapply free_uncounted; [exact Ha'|by destruct o'|exact H|auto].
Qed.

Lemma Release_counts_live (a : addr) (s s' : State) (c : Z) :
  Release a s = Some (c, s') → counts_live s → counts_live s'.
Proof.
  unfold Release, Release_by. intros H.
  apply bind_Some in H as (o & s0 & H0 & H).
  apply get_obj_Some in H0 as [Ha ->].
  apply bind_Some in H as (u & s1 & H1 & H).
  apply bind_Some in H as (u' & s2 & H2 & H).
  apply ret_Some in H as [_ ->].
  apply (put_obj_ok a o) in H1 as [Hi1 _]; [|done|apply set_m_ref_kind].
  destruct (_ =? 0)%Z.
  - intros Hs. eapply delete_counts_live; [exact H2|auto].
  - by apply ret_Some in H2 as [_ ->].
Qed.

Lemma mapM_AddRef_ok (l : list addr) (s s' : State) (cs : list Z) :
  mapM AddRef l s = Some (cs, s') → ok s s'.
Proof. apply mapM_rel; [apply _|]. intros ????. apply AddRef_ok. Qed.

Lemma new_CommandEnum_ok (v : list addr) (s s' : State) (a : addr) :
  new_CommandEnum v s = Some (a, s') →
  ok s s' ∧ ∃ o, heap s' !! a = Some o ∧ kind_of o = KEnum.
Proof.
  unfold new_CommandEnum. intros H.
  apply bind_Some in H as (a' & s1 & H1 & H).
  apply bind_Some in H as (cs & s2 & H2 & H).
  apply ret_Some in H as [-> ->].
  apply new_Some in H1 as (Hf & Hh & Hc & _).
  apply mapM_AddRef_ok in H2 as Hok2.
  assert (ok s s1) as Hok1.
  { split.
    - unfold counts_live, live_commands. rewrite Hh, Hc. intros ->.
      by rewrite live_insert_fresh.
    - rewrite Hh. by apply insert_frame. }
  split; [by etrans|].
  destruct Hok2 as [_ Hf2]. apply (Hf2 a (CommandEnum 1 v 0)); [|done].
  rewrite Hh. apply lookup_insert_eq.
Qed.

Lemma QueryInterface_ok (a : addr) (riid : IID) (s s' : State) r :
  QueryInterface a riid s = Some (r, s') → ok s s'.
Proof.
  unfold QueryInterface. intros H.
  apply bind_Some in H as (o & s0 & H0 & H).
  apply get_obj_Some in H0 as [Ha ->].
  destruct (supports o riid).
  - apply bind_Some in H as (c & s1 & H1 & H).
    apply ret_Some in H as [_ ->]. by eapply AddRef_ok.
  - apply ret_Some in H as [_ ->]. reflexivity.
Qed.

Lemma mapM_new_ExplorerCommandBase_ok (l : list (CommandID.t * wstring))
    (s s' : State) (v : list addr) :
  mapM (λ c, new_ExplorerCommandBase false c.1 c.2) l s = Some (v, s') → ok s s'.
Proof.
  apply mapM_rel; [apply _|]. intros c s1 a s2 H.
  by apply new_ExplorerCommandBase_ok in H as [? _].
Qed.

Lemma CRCMenuParent_EnumSubCommands_ok (s s' : State) r :
  CRCMenuParent_EnumSubCommands s = Some (r, s') → ok s s'.
Proof.
  unfold CRCMenuParent_EnumSubCommands. intros H.
  apply bind_Some in H as (v & s1 & H1 & H).
  apply bind_Some in H as (e & s2 & H2 & H).
  apply bind_Some in H as (c & s3 & H3 & H).
  apply ret_Some in H as [_ ->].
  apply mapM_new_ExplorerCommandBase_ok in H1.
  apply new_CommandEnum_ok in H2 as [H2 _].
  apply AddRef_ok in H3. etrans; [exact H1|]. by etrans.
Qed.

Lemma new_ExplorerCommandRoot_ok (s s' : State) (a : addr) :
  new_ExplorerCommandRoot s = Some (a, s') →
  ok s s' ∧ ∃ o, heap s' !! a = Some o ∧ kind_of o = KRoot.
Proof.
  unfold new_ExplorerCommandRoot. intros H.
  apply bind_Some in H as (a' & s1 & H1 & H).
  apply bind_Some in H as (c & s2 & H2 & H).
  apply bind_Some in H as (v & s3 & H3 & H).
  apply bind_Some in H as (crc & s4 & H4 & H).
  apply bind_Some in H as (u & s5 & H5 & H).
  apply ret_Some in H as [-> ->].
  destruct (new_counted_ok (ExplorerCommandRoot 1 [] 0) _ _ _ _ _ eq_refl H1 H2)
    as [Hok2 Ha2].
  apply mapM_new_ExplorerCommandBase_ok in H3.
  apply new_ExplorerCommandBase_ok in H4 as [H4 _].
  assert (ok s2 s4) as Hok4 by (by etrans).
  destruct (proj2 Hok4 a _ Ha2) as (o4 & Ha4 & Hk4); [done|].
  assert (ok s4 s') as Hok5
    by (apply (put_obj_ok a o4 (ExplorerCommandRoot 1 (v ++ [crc]) 0) s4 s' u Ha4);
        [by rewrite Hk4|exact H5]).
  split; [etrans; [exact Hok2|]; by etrans|].
  apply put_obj_Some in H5 as (Hh5 & _). rewrite Hh5, lookup_insert_eq. eauto.
Qed.

Lemma EnumSubCommands_ok (a : addr) (s s' : State) r :
  EnumSubCommands a s = Some (r, s') → ok s s'.
Proof.
  unfold EnumSubCommands. intros H.
  apply bind_Some in H as (o & s0 & H0 & H).
  apply get_obj_Some in H0 as [Ha ->].
  destruct o as [[] r' id t|r' subs idx|r' items idx].
  - by eapply CRCMenuParent_EnumSubCommands_ok.
  - apply ret_Some in H as [_ ->]. reflexivity.
  - apply bind_Some in H as (e & s1 & H1 & H).
    apply bind_Some in H as (c & s2 & H2 & H).
    apply ret_Some in H as [_ ->].
    apply new_CommandEnum_ok in H1 as [H1 _]. apply AddRef_ok in H2.
    by etrans.
  - discriminate H.
Qed.

Lemma put_CommandEnum_ok (a : addr) r items idx r' items' idx'
    (s s' : State) (u : ()) :
  heap s !! a = Some (CommandEnum r items idx) →
  put_obj a (CommandEnum r' items' idx') s = Some (u, s') → ok s s'.
Proof. intros Ha. by apply (put_obj_ok a _ _ _ _ _ Ha). Qed.

Lemma Next_loop_ok (a : addr) (celt : nat) (s s' : State) (f : list addr) :
  Next_loop a celt s = Some (f, s') → ok s s'.
Proof.
  revert s f. induction celt as [|n IH]; intros s f H; simpl in H.
  - apply ret_Some in H as [_ ->]. reflexivity.
  - apply bind_Some in H as (o & s0 & H0 & H).
    apply get_obj_Some in H0 as [Ha ->].
    destruct o as [| |r items idx]; try discriminate H.
    destruct (items !! idx) as [it|].
    + apply bind_Some in H as (u & s1 & H1 & H).
      apply bind_Some in H as (c & s2 & H2 & H).
      apply bind_Some in H as (rest & s3 & H3 & H).
      apply ret_Some in H as [_ ->].
      apply (put_CommandEnum_ok a _ _ _ _ _ _ _ _ _ Ha) in H1.
      apply AddRef_ok in H2. apply IH in H3.
      etrans; [exact H1|]. by etrans.
    + apply ret_Some in H as [_ ->]. reflexivity.
Qed.

Lemma Next_ok (a : addr) (celt : nat) (s s' : State) r :
  Next a celt s = Some (r, s') → ok s s'.
Proof.
  unfold Next. intros H.
  apply bind_Some in H as (o & s0 & H0 & H).
  apply get_obj_Some in H0 as [Ha ->].
  destruct o as [| |r' items idx]; try discriminate H.
  - apply ret_Some in H as [_ ->]. reflexivity.
  - apply bind_Some in H as (f & s1 & H1 & H).
    apply ret_Some in H as [_ ->]. by eapply Next_loop_ok.
Qed.

Lemma Skip_ok (a : addr) (celt : nat) (s s' : State) r :
  Skip a celt s = Some (r, s') → ok s s'.
Proof.
  unfold Skip. intros H.
  apply bind_Some in H as (o & s0 & H0 & H).
  apply get_obj_Some in H0 as [Ha ->].
  destruct o as [| |r' items idx]; try discriminate H.
  - apply ret_Some in H as [_ ->]. reflexivity.
  - apply bind_Some in H as (u & s1 & H1 & H).
    apply ret_Some in H as [_ ->].
    by apply (put_CommandEnum_ok a _ _ _ _ _ _ _ _ _ Ha) in H1.
Qed.

Lemma Reset_ok (a : addr) (s s' : State) r :
  Reset a s = Some (r, s') → ok s s'.
Proof.
  unfold Reset. intros H.
  apply bind_Some in H as (o & s0 & H0 & H).
  apply get_obj_Some in H0 as [Ha ->].
  destruct o as [| |r' items idx]; try discriminate H.
  - apply ret_Some in H as [_ ->]. reflexivity.
  - apply bind_Some in H as (u & s1 & H1 & H).
    apply ret_Some in H as [_ ->].
    by apply (put_CommandEnum_ok a _ _ _ _ _ _ _ _ _ Ha) in H1.
Qed.

Lemma Clone_ok (a : addr) (s s' : State) r :
  Clone a s = Some (r, s') → ok s s'.
Proof.
  unfold Clone. intros H.
  apply bind_Some in H as (o & s0 & H0 & H).
  apply get_obj_Some in H0 as [Ha ->].
  destruct o as [| |r' items idx]; try discriminate H.
  - apply ret_Some in H as [_ ->]. reflexivity.
  - apply bind_Some in H as (e & s1 & H1 & H).
    apply bind_Some in H as (u & s2 & H2 & H).
    apply ret_Some in H as [_ ->].
    apply new_CommandEnum_ok in H1 as (Hok1 & oe & He & Hk).
    etrans; [exact Hok1|].
    apply (put_obj_ok e oe (CommandEnum 1 items idx) s1 s' u He);
      [by rewrite Hk|exact H2].
Qed.

Lemma CreateInstance_counts_live (u : bool) (riid : IID) (s s' : State) r :
  CreateInstance u riid s = Some (r, s') → counts_live s → counts_live s'.
Proof.
  unfold CreateInstance. intros H. destruct u.
  - by apply ret_Some in H as [_ ->].
  - apply bind_Some in H as (obj & s1 & H1 & H).
    apply bind_Some in H as (q & s2 & H2 & H).
    apply bind_Some in H as (c & s3 & H3 & H).
    apply ret_Some in H as [_ ->].
    apply new_ExplorerCommandRoot_ok in H1 as [[Hi1 _] _].
    apply QueryInterface_ok in H2 as [Hi2 _].
    intros Hs. eapply Release_counts_live; [exact H3|auto].
Qed.

Lemma LockServer_counts_live (f : bool) (s s' : State) r :
  LockServer f s = Some (r, s') → counts_live s → counts_live s'.
Proof.
  unfold LockServer. intros H.
  apply bind_Some in H as (v & s1 & H1 & H).
  apply ret_Some in H as [_ ->].
  unfold counts_live, live_commands. by destruct f; injection H1 as _ <-.
Qed.

Lemma do_call_counts_live (c : call) (s s' : State) (u : ()) :
  do_call c s = Some (u, s') → counts_live s → counts_live s'.
Proof.
  intros H. destruct c; simpl in H;
    apply bind_Some in H as (r & s1 & H1 & H);
    apply ret_Some in H as [_ ->].
  - by eapply CreateInstance_counts_live.
  - by eapply LockServer_counts_live.
  - by apply QueryInterface_ok in H1 as [? _].
  - by apply AddRef_ok in H1 as [? _].
  - by eapply Release_counts_live.
  - by apply EnumSubCommands_ok in H1 as [? _].
  - by apply Next_ok in H1 as [? _].
  - by apply Skip_ok in H1 as [? _].
  - by apply Reset_ok in H1 as [? _].
  - by apply Clone_ok in H1 as [? _].
Qed.

Lemma run_counts_live (cs : list call) (s s' : State) :
  run cs s = Some s' → counts_live s → counts_live s'.
Proof.
  revert s. induction cs as [|c cs IH]; intros s H; simpl in H.
  - by injection H as <-.
  - destruct (do_call c s) as [[u s1]|] eqn:E; [|done].
    intros Hs. eapply IH; [exact H|]. by eapply do_call_counts_live.
Qed.

Lemma initial_counts_live : counts_live initial.
Proof. reflexivity. Qed.

(** ** Steps that always succeed *)

#[global] Instance extends_preorder : PreOrder extends.
Proof.
  split.
  - intros s a o Ha. by exists o.
  - intros s1 s2 s3 H1 H2 a o Ha.
    destruct (H1 a o Ha) as (o' & Ha' & E').
    destruct (H2 a o' Ha') as (o'' & Ha'' & E'').
    exists o''. split; [done|congruence].
Qed.

Lemma counted_set_m_ref (o : object) (r : Z) : counted (set_m_ref o r) = counted o.
Proof. by destruct o. Qed.

Lemma same_up_to_ref_counted (o o' : object) :
  set_m_ref o 0 = set_m_ref o' 0 → counted o = counted o'.
Proof.
  intros E. by rewrite <- (counted_set_m_ref o 0), E, counted_set_m_ref.
Qed.

Lemma extends_described (s s' : State) (a : addr) c :
  extends s s' → described s a = Some c → described s' a = Some c.
Proof.
  unfold described. intros He H.
  destruct (heap s !! a) as [o|] eqn:Ha; [|done].
  destruct (He a o Ha) as (o' & -> & E).
  destruct o, o'; try done. simpl in E. by injection E as -> -> ->.
Qed.

Lemma extends_mapM_described (s s' : State) (v : list addr) l :
  extends s s' → mapM (described s) v = Some l → mapM (described s') v = Some l.
Proof.
  intros He. rewrite !mapM_Some. intros H.
  eapply Forall2_impl; [exact H|]. intros a c. by apply extends_described.
Qed.

Lemma bind_step {A B} (m : M A) (k : A → M B) (s s1 : State) (x : A) :
  m s = Some (x, s1) → (m ≫= k) s = k x s1.
Proof. unfold mbind, M_bind. by intros ->. Qed.

Lemma new_ExplorerCommandBase_fwd d id t (s : State) :
  ∃ a s', new_ExplorerCommandBase d id t s = Some (a, s')
          ∧ extends s s'
          ∧ described s' a = Some (id, t)
          ∧ live_commands s' = S (live_commands s).
Proof.
  destruct (new_ExplorerCommandBase d id t s) as [[a s']|] eqn:E; [|done].
  exists a, s'. split; [done|].
  unfold new_ExplorerCommandBase in E.
  apply bind_Some in E as (a' & s1 & H1 & H).
  apply bind_Some in H as (v & s2 & H2 & H).
  apply ret_Some in H as [-> ->].
  apply new_Some in H1 as (Hf & Hh & _).
  apply Increment_ObjCount_Some in H2 as (Hh2 & _).
  unfold described, live_commands. rewrite Hh2, Hh. repeat split.
  - intros b ob Hb. exists ob. rewrite Hh2, Hh, lookup_insert_ne; [done|congruence].
  - by rewrite lookup_insert_eq.
  - by rewrite live_insert_fresh.
Qed.

Lemma mapM_new_ExplorerCommandBase_fwd (l : list (CommandID.t * wstring)) (s : State) :
  ∃ v s', mapM (λ c, new_ExplorerCommandBase false c.1 c.2) l s = Some (v, s')
          ∧ extends s s'
          ∧ mapM (described s') v = Some l
          ∧ live_commands s' = live_commands s + length l.
Proof.
  revert s. induction l as [|[id t] l IH]; intros s.
  - exists [], s. repeat split; [reflexivity|simpl; lia].
  - destruct (new_ExplorerCommandBase_fwd false id t s) as (a & s1 & H1 & E1 & D1 & L1).
    destruct (IH s1) as (v & s2 & H2 & E2 & D2 & L2).
    exists (a :: v), s2. repeat split.
    + simpl. rewrite (bind_step _ _ _ _ _ H1), (bind_step _ _ _ _ _ H2). done.
    + by etrans.
    + simpl. rewrite (extends_described _ _ _ _ E2 D1). simpl. by rewrite D2.
    + simpl. lia.
Qed.

Lemma AddRef_fwd (a : addr) (o : object) (s : State) :
  heap s !! a = Some o →
  ∃ c s', AddRef a s = Some (c, s')
          ∧ extends s s'
          ∧ heap s' !! a = Some (set_m_ref o (LONG (m_ref o + 1)))
          ∧ live_commands s' = live_commands s.
Proof.
  intros Ha. unfold AddRef, get_obj, mbind, M_bind. rewrite Ha. simpl.
  eexists _, _. split; [reflexivity|]. unfold live_commands. simpl. repeat split.
  - intros b ob Hb. simpl. destruct (decide (a = b)) as [<-|Hne].
    + rewrite lookup_insert_eq. eexists. split; [done|].
      rewrite Ha in Hb. injection Hb as <-. by destruct o.
    + rewrite lookup_insert_ne by done. by exists ob.
  - by rewrite lookup_insert_eq.
  - apply (live_insert_same _ a o); [done|apply counted_set_m_ref].
Qed.

Lemma extends_live (s s' : State) (v : list addr) :
  extends s s' →
  Forall (λ a, is_Some (heap s !! a)) v → Forall (λ a, is_Some (heap s' !! a)) v.
Proof.
  intros He H. eapply Forall_impl; [exact H|]. intros a [o Ha].
  destruct (He a o Ha) as (o' & Ha' & _). by exists o'.
Qed.

Lemma mapM_AddRef_fwd (v : list addr) (s : State) :
  Forall (λ a, is_Some (heap s !! a)) v →
  ∃ cs s', mapM AddRef v s = Some (cs, s')
           ∧ extends s s' ∧ live_commands s' = live_commands s.
Proof.
  revert s. induction v as [|a v IH]; intros s Hv.
  - exists [], s. done.
  - apply Forall_cons in Hv as [[o Ha] Hv].
    destruct (AddRef_fwd a o s Ha) as (c & s1 & H1 & E1 & _ & L1).
    destruct (IH s1) as (cs & s2 & H2 & E2 & L2); [by eapply extends_live|].
    exists (c :: cs), s2. repeat split.
    + simpl. rewrite (bind_step _ _ _ _ _ H1), (bind_step _ _ _ _ _ H2). done.
    + by etrans.
    + congruence.
Qed.

Lemma described_live (s : State) (v : list addr) l :
  mapM (described s) v = Some l → Forall (λ a, is_Some (heap s !! a)) v.
Proof.
  rewrite mapM_Some. intros H. induction H as [|a c v l Ha _ IH]; constructor; [|done].
  unfold described in Ha. by destruct (heap s !! a).
Qed.

Lemma new_CommandEnum_fwd (v : list addr) (s : State) :
  Forall (λ a, is_Some (heap s !! a)) v →
  ∃ e s' r, new_CommandEnum v s = Some (e, s')
            ∧ extends s s'
            ∧ heap s' !! e = Some (CommandEnum r v 0)
            ∧ live_commands s' = live_commands s.
Proof.
  intros Hv. unfold new_CommandEnum.
  destruct (new_ (CommandEnum 1 v 0) s) as [[e s1]|] eqn:H1; [|done].
  pose proof H1 as (Hf & Hh & _)%new_Some.
  assert (extends s s1) as E1.
  { intros b ob Hb. exists ob. rewrite Hh, lookup_insert_ne; [done|congruence]. }
  destruct (mapM_AddRef_fwd v s1) as (cs & s2 & H2 & E2 & L2);
    [by eapply extends_live|].
  destruct (E2 e (CommandEnum 1 v 0)) as (o' & He' & Eo');
    [rewrite Hh; apply lookup_insert_eq|].
  destruct o' as [| |r items idx]; try done. simpl in Eo'. injection Eo' as -> ->.
  exists e, s2, r. repeat split.
  - rewrite (bind_step _ _ _ _ _ H1), (bind_step _ _ _ _ _ H2). done.
  - by etrans.
  - done.
  - rewrite L2. unfold live_commands. rewrite Hh. by rewrite live_insert_fresh.
Qed.

Lemma CRCMenuParent_EnumSubCommands_fwd (s : State) :
  ∃ e s' r v, CRCMenuParent_EnumSubCommands s = Some ((S_OK, Some e), s')
              ∧ extends s s'
              ∧ heap s' !! e = Some (CommandEnum r v 0)
              ∧ mapM (described s') v = Some hash_children
              ∧ live_commands s' = live_commands s + 4.
Proof.
  destruct (mapM_new_ExplorerCommandBase_fwd hash_children s)
    as (v & s1 & H1 & E1 & D1 & L1).
  destruct (new_CommandEnum_fwd v s1) as (e & s2 & r & H2 & E2 & He2 & L2);
    [by eapply described_live|].
  destruct (AddRef_fwd e _ s2 He2) as (c & s3 & H3 & E3 & He3 & L3).
  exists e, s3, (LONG (r + 1)), v. repeat split.
  - unfold CRCMenuParent_EnumSubCommands.
    rewrite (bind_step _ _ _ _ _ H1), (bind_step _ _ _ _ _ H2),
      (bind_step _ _ _ _ _ H3). done.
  - etrans; [exact E1|]. by etrans.
  - done.
  - eapply extends_mapM_described; [|exact D1]. by etrans.
  - rewrite L3, L2, L1. done.
Qed.

#[global] Instance keeps_commands_preorder : PreOrder keeps_commands.
Proof.
  split; [by intros s a c|]. intros s1 s2 s3 H1 H2 a c Ha. by apply H2, H1.
Qed.

Lemma extends_keeps_commands (s s' : State) : extends s s' → keeps_commands s s'.
Proof. intros He a c. by apply extends_described. Qed.

Lemma keeps_commands_mapM (s s' : State) (v : list addr) l :
  keeps_commands s s' →
  mapM (described s) v = Some l → mapM (described s') v = Some l.
Proof.
  intros He. rewrite !mapM_Some. intros H.
  eapply Forall2_impl; [exact H|]. intros a c. apply He.
Qed.

Lemma described_is_Some (s : State) (a : addr) :
  is_Some (described s a) → is_Some (heap s !! a).
Proof. unfold described. by destruct (heap s !! a). Qed.

(** [Next] on an enumerator whose elements are all commands fetches the
    elements from its position on, and moves the position past them. *)
Lemma Next_loop_fwd (e : addr) (n : nat) (s : State) r items idx :
  heap s !! e = Some (CommandEnum r items idx) →
  Forall (λ a, is_Some (described s a)) items →
  ∃ s' r', Next_loop e n s = Some (take n (drop idx items), s')
           ∧ keeps_commands s s'
           ∧ heap s' !! e
             = Some (CommandEnum r' items (idx + length (take n (drop idx items))))
           ∧ live_commands s' = live_commands s.
Proof.
  revert s r idx. induction n as [|n IH]; intros s r idx He Hv.
  - exists s, r. rewrite take_0. simpl. rewrite Nat.add_0_r. done.
  - simpl. unfold get_obj at 1. unfold mbind at 1, M_bind at 1. rewrite He.
    destruct (items !! idx) as [it|] eqn:Hit.
    + rewrite (drop_S _ _ _ Hit). simpl.
      set (s1 := {| g_ObjCount := g_ObjCount s; g_LockCount := g_LockCount s;
                    heap := <[e:=CommandEnum r items (S idx)]> (heap s) |}).
      assert (keeps_commands s s1) as K1.
      { intros a c. unfold described. simpl.
        destruct (decide (e = a)) as [<-|Hne].
        - by rewrite He.
        - by rewrite lookup_insert_ne. }
      assert (is_Some (described s1 it)) as [c Hc].
      { rewrite Forall_forall in Hv.
        destruct (Hv it) as [c Hc]; [by eapply list_elem_of_lookup_2|].
        exists c. by apply K1. }
      destruct (described_is_Some s1 it) as [o Ho]; [by rewrite Hc|].
      destruct (AddRef_fwd it o s1 Ho) as (c' & s2 & H2 & E2 & _ & L2).
      destruct (E2 e (CommandEnum r items (S idx))) as (o' & He' & Eo');
        [apply lookup_insert_eq|].
      destruct o' as [| |r2 items2 idx2]; try done.
      simpl in Eo'. injection Eo' as -> ->.
      destruct (IH s2 r2 (S idx) He') as (s3 & r3 & H3 & K3 & He3 & L3).
      { eapply Forall_impl; [exact Hv|]. intros a [ca Ha]. exists ca.
        by apply (extends_keeps_commands _ _ E2), K1. }
      exists s3, r3. repeat split.
      * assert (put_obj e (CommandEnum r items (S idx)) s = Some ((), s1)) as H1
          by reflexivity.
        rewrite (bind_step _ _ _ _ _ H1), (bind_step _ _ _ _ _ H2),
          (bind_step _ _ _ _ _ H3). done.
      * etrans; [exact K1|]. etrans; [|exact K3].
        by apply extends_keeps_commands.
      * rewrite He3. do 2 f_equal. lia.
      * rewrite L3, L2. unfold live_commands. simpl.
        by apply (live_insert_same _ e (CommandEnum r items idx)).
    + rewrite (drop_ge items idx) by (by apply lookup_ge_None). rewrite take_nil.
      exists s, r. simpl. rewrite Nat.add_0_r. done.
Qed.

Lemma mapM_described_Some (s : State) (v : list addr) l :
  mapM (described s) v = Some l →
  Forall (λ a, is_Some (described s a)) v ∧ length v = length l.
Proof.
  rewrite mapM_Some. intros H. split; [|by eapply Forall2_length].
  induction H as [|a c v l' Ha _ IH]; constructor; [by exists c|done].
Qed.

Lemma expand_fwd (k : nat) (s : State) :
  ∃ s', expand (4 + k) s
        = Some ((if k =? 0 then S_OK else S_FALSE, hash_children), s')
        ∧ live_commands s' = live_commands s + 4.
Proof.
  destruct (CRCMenuParent_EnumSubCommands_fwd s)
    as (e & s1 & r & v & H1 & E1 & He1 & D1 & L1).
  destruct (mapM_described_Some _ _ _ D1) as [Hv Hlen].
  destruct (Next_loop_fwd e (4 + k) s1 r v 0 He1 Hv) as (s2 & r2 & H2 & K2 & _ & L2).
  rewrite drop_0, take_ge in H2 by (rewrite Hlen; simpl; lia).
  exists s2. split; [|lia].
  unfold expand. rewrite (bind_step _ _ _ _ _ H1).
  assert (Next e (4 + k) s1 = Some ((if k =? 0 then S_OK else S_FALSE, v), s2)) as HN.
  { unfold Next, get_obj. unfold mbind at 1, M_bind at 1. rewrite He1.
    rewrite (bind_step _ _ _ _ _ H2). rewrite Hlen. by destruct k. }
  rewrite (bind_step _ _ _ _ _ HN).
  assert (describe_all v s2 = Some (hash_children, s2)) as HD.
  { unfold describe_all. by rewrite (keeps_commands_mapM _ _ _ _ K2 D1). }
  simpl. by rewrite (bind_step _ _ _ _ _ HD).
Qed.

(** C7. Expanding the hash menu any number of times in a row, from any state
    of the module, gives each time the same four children in the same order:
    CRC-32, CRC-64, SHA-1, SHA-256.  The expansion takes no selection.
    [Next] for four elements fetches them all with [S_OK]; asked for more it
    fetches the same four with [S_FALSE]. *)
Theorem hash_menu_expansion_fixed (n k : nat) (s : State) :
  ∃ s', expand_times n (4 + k) s
        = Some (replicate n (if k =? 0 then S_OK else S_FALSE,
                             [(CommandID.CRC32, L "CRC-32");
                              (CommandID.CRC64, L "CRC-64");
                              (CommandID.SHA1, L "SHA-1");
                              (CommandID.SHA256, L "SHA-256")]), s').
Proof.
  revert s. induction n as [|n IH]; intros s.
  - by exists s.
  - destruct (expand_fwd k s) as (s1 & H1 & _).
    destruct (IH s1) as (s2 & H2).
    exists s2. unfold expand_times in *. simpl.
    rewrite (bind_step _ _ _ _ _ H1), (bind_step _ _ _ _ _ H2). done.
Qed.

(** ** The lifecycle query *)

Lemma new_ExplorerCommandRoot_fwd (s : State) :
  ∃ a s' subs, new_ExplorerCommandRoot s = Some (a, s')
               ∧ heap s' !! a = Some (ExplorerCommandRoot 1 subs 0)
               ∧ live_commands s' = live_commands s + 13.
Proof.
  destruct (new_ (ExplorerCommandRoot 1 [] 0) s) as [[a s1]|] eqn:H1; [|done].
  pose proof H1 as (Hf & Hh1 & _)%new_Some.
  destruct (InterlockedIncrement_ObjCount s1) as [[c s2]|] eqn:H2; [|done].
  pose proof H2 as (Hh2 & _)%Increment_ObjCount_Some.
  destruct (mapM_new_ExplorerCommandBase_fwd root_children s2)
    as (v & s3 & H3 & E3 & _ & L3).
  destruct (new_ExplorerCommandBase_fwd true CommandID.CRCMenu (L "CRC SHA") s3)
    as (crc & s4 & H4 & E4 & _ & L4).
  assert (heap s2 !! a = Some (ExplorerCommandRoot 1 [] 0)) as Ha2
    by (rewrite Hh2, Hh1; apply lookup_insert_eq).
  destruct (E3 a _ Ha2) as (o3 & Ha3 & Eo3).
  destruct (E4 a _ Ha3) as (o4 & Ha4 & Eo4).
  destruct (put_obj a (ExplorerCommandRoot 1 (v ++ [crc]) 0) s4) as [[u s5]|] eqn:H5;
    [|done].
  pose proof H5 as (Hh5 & _)%put_obj_Some.
  exists a, s5, (v ++ [crc]). repeat split.
  - unfold new_ExplorerCommandRoot.
    rewrite (bind_step _ _ _ _ _ H1), (bind_step _ _ _ _ _ H2),
      (bind_step _ _ _ _ _ H3).
    unfold new_CRCMenuParent.
    rewrite (bind_step _ _ _ _ _ H4), (bind_step _ _ _ _ _ H5). done.
  - rewrite Hh5. apply lookup_insert_eq.
  - assert (counted o4 = true) as Hc4.
    { rewrite (same_up_to_ref_counted _ _ Eo4).
      by rewrite (same_up_to_ref_counted _ _ Eo3). }
    unfold live_commands in *. rewrite Hh5.
    rewrite (live_insert_same _ a o4); [|done|by rewrite Hc4].
    rewrite L4, L3, Hh2, Hh1, live_insert_fresh by done. simpl. lia.
Qed.

Lemma CreateInstance_fwd (s : State) :
  ∃ r s', CreateInstance false IID_IExplorerCommand s = Some (r, s')
          ∧ live_commands s' = live_commands s + 13.
Proof.
  destruct (new_ExplorerCommandRoot_fwd s) as (a & s1 & subs & H1 & Ha1 & L1).
  destruct (AddRef_fwd a _ s1 Ha1) as (c & s2 & H2 & _ & Ha2 & L2).
  simpl in Ha2.
  assert (QueryInterface a IID_IExplorerCommand s1 = Some ((S_OK, Some a), s2)) as HQ.
  { unfold QueryInterface, get_obj. unfold mbind at 1, M_bind at 1. rewrite Ha1.
    simpl. by rewrite (bind_step _ _ _ _ _ H2). }
  destruct (put_obj a (ExplorerCommandRoot (LONG (LONG (1 + 1) - 1)) subs 0) s2)
    as [[u s3]|] eqn:H3; [|done].
  pose proof H3 as (Hh3 & _)%put_obj_Some.
  exists (S_OK, Some a), s3. split.
  - unfold CreateInstance.
    rewrite (bind_step _ _ _ _ _ H1), (bind_step _ _ _ _ _ HQ).
    assert (get_obj a s2
            = Some (ExplorerCommandRoot (LONG (1 + 1)) subs 0, s2)) as HG
      by (unfold get_obj; by rewrite Ha2).
    assert (Release a s2 = Some (1%Z, s3)) as HR.
    { unfold Release, Release_by. rewrite (bind_step _ _ _ _ _ HG).
      cbn [m_ref set_m_ref]. rewrite (bind_step _ _ _ _ _ H3).
      reflexivity. }
    by rewrite (bind_step _ _ _ _ _ HR).
  - unfold live_commands in *. rewrite Hh3.
    rewrite (live_insert_same _ a _ (ExplorerCommandRoot (LONG (LONG (1 + 1) - 1)) subs 0)
               Ha2 eq_refl). lia.
Qed.

Lemma run_CreateInstance_fwd (n : nat) (s : State) :
  ∃ s', run (replicate n (call_CreateInstance false IID_IExplorerCommand)) s = Some s'
        ∧ live_commands s' = live_commands s + 13 * n.
Proof.
  revert s. induction n as [|n IH]; intros s.
  - exists s. split; [done|lia].
  - destruct (CreateInstance_fwd s) as (r & s1 & H1 & L1).
    destruct (IH s1) as (s2 & H2 & L2).
    exists s2. split; [|lia].
    cbn [replicate run do_call]. rewrite (bind_step _ _ _ _ _ H1).
    exact H2.
Qed.

Lemma DllCanUnloadNow_S_OK (s : State) :
  DllCanUnloadNow s = S_OK ↔ g_ObjCount s = 0%Z ∧ g_LockCount s = 0%Z.
Proof.
  unfold DllCanUnloadNow.
  destruct (Z.eqb_spec (g_ObjCount s) 0), (Z.eqb_spec (g_LockCount s) 0);
    simpl; intuition congruence.
Qed.

(** C8, as the source has it. At every state the host can bring the module
    to, the query answers [S_OK] exactly when both counters read zero, and
    the object counter holds the number of live commands and roots as a
    32-bit [LONG]: it is that number exactly while fewer than 2^31 of them
    are alive, and then the query answers [S_OK] exactly when none is alive
    and no lock is held. *)
Theorem ObjCount_counts_live_commands (cs : list call) (s : State) :
  run cs initial = Some s →
  (DllCanUnloadNow s = S_OK ↔ g_ObjCount s = 0%Z ∧ g_LockCount s = 0%Z)
  ∧ g_ObjCount s = LONG (Z.of_nat (live_commands s))
  ∧ ((Z.of_nat (live_commands s) < 2 ^ 31)%Z →
       g_ObjCount s = Z.of_nat (live_commands s)
       ∧ (DllCanUnloadNow s = S_OK ↔ live_commands s = 0 ∧ g_LockCount s = 0%Z)).
Proof.
  intros H. apply run_counts_live in H; [|apply initial_counts_live].
  split; [apply DllCanUnloadNow_S_OK|]. split; [exact H|].
  intros Hlt. unfold counts_live in H. rewrite LONG_small in H by lia.
  split; [exact H|]. rewrite DllCanUnloadNow_S_OK, H. lia.
Qed.

Lemma live_commands_initial : live_commands initial = 0.
Proof. reflexivity. Qed.

(** C8, as stated, fails. Each [CreateInstance] leaves thirteen objects
    alive; after 165191050 of them, none released, 2147483650 objects are
    alive and the 32-bit counter has wrapped to -2147483646. *)
Lemma ObjCount_wraps :
  (∃ s, run (replicate (Z.to_nat 165191050)
               (call_CreateInstance false IID_IExplorerCommand)) initial = Some s
        ∧ Z.of_nat (live_commands s) = 2147483650%Z
        ∧ g_ObjCount s = (-2147483646)%Z)
  ∧ ¬ (∀ cs s, run cs initial = Some s →
               g_ObjCount s = Z.of_nat (live_commands s)).
Proof.
  destruct (run_CreateInstance_fwd (Z.to_nat 165191050) initial) as (s & H & Hl).
  assert (Z.of_nat (live_commands s) = 2147483650%Z) as HL.
  { rewrite Hl, live_commands_initial, Nat2Z.inj_add, Nat2Z.inj_mul.
    rewrite Z2Nat.id by lia. reflexivity. }
  pose proof (run_counts_live _ _ _ H initial_counts_live) as Hc.
  unfold counts_live in Hc. rewrite HL in Hc.
  change (LONG 2147483650) with (-2147483646)%Z in Hc.
  split.
  - exists s. split; [exact H|]. split; [exact HL|exact Hc].
  - intros Hall. specialize (Hall _ _ H). rewrite HL, Hc in Hall.
    discriminate Hall.
Qed.

Lemma ObjCount_counts_live_commands_witness :
  ∃ s, run [call_CreateInstance false IID_IExplorerCommand;
            call_EnumSubCommands 12; call_LockServer true] initial = Some s
       ∧ g_ObjCount s = 17%Z
       ∧ live_commands s = 17
       ∧ DllCanUnloadNow s = S_FALSE.
Proof.
  eexists. split; [vm_compute; reflexivity|].
  split; [|split; vm_compute; reflexivity].
  etransitivity.
  - refine (proj1 (proj2 (proj2 (ObjCount_counts_live_commands
      [call_CreateInstance false IID_IExplorerCommand;
       call_EnumSubCommands 12; call_LockServer true] _ _)) _)).
    + vm_compute. reflexivity.
    + vm_compute. reflexivity.
  - vm_compute. reflexivity.
Defined.

(** Construct thirteen objects and observe thirteen; release the root, which
    destroys all of them, and observe none.  The four children of an
    expansion outlive the root, and a lock alone keeps the module loaded. *)
Example lifecycle_construct_destroy :
  let observe cs :=
    (λ s, (g_ObjCount s, live_commands s, DllCanUnloadNow s)) <$> run cs initial in
  observe [call_CreateInstance false IID_IExplorerCommand]
  = Some (13%Z, 13, S_FALSE)
  ∧ observe [call_CreateInstance false IID_IExplorerCommand; call_Release 0]
    = Some (0%Z, 0, S_OK)
  ∧ observe [call_CreateInstance false IID_IExplorerCommand;
             call_EnumSubCommands 12; call_Release 0]
    = Some (4%Z, 4, S_FALSE)
  ∧ observe [call_CreateInstance false IID_IExplorerCommand;
             call_LockServer true; call_Release 0]
    = Some (0%Z, 0, S_FALSE).
Proof. repeat split; vm_compute; reflexivity. Qed.

(** * Further properties of the commands *)

(** ** Gathering the paths *)

Lemma CollectPaths_loop_omap (arr : IShellItemArray) (l : list nat) (acc : list wstring) :
  foldl (λ out i,
           match GetItemAt arr i with
           | Some it =>
               let p := GetItemPath it in
               if is_empty p then out else out ++ [p]
           | None => out
           end) acc l
  = acc ++ omap (item_path arr) l.
Proof.
  revert acc. induction l as [|i l IH]; intros acc; simpl.
  - by rewrite app_nil_r.
  - rewrite IH. unfold item_path at 2.
    destruct (GetItemAt arr i) as [it|]; [|done].
    destruct (is_empty (GetItemPath it)); [done|]. by rewrite <- app_assoc.
Qed.

Lemma GetItemPath_no_NUL (it : IShellItem) : no_NUL (GetItemPath it).
Proof.
  unfold GetItemPath. destruct (GetDisplayName it); [apply c_str_no_NUL|constructor].
Qed.

Lemma item_path_Some (arr : IShellItemArray) (i : nat) (p : wstring) :
  item_path arr i = Some p → p ≠ [] ∧ no_NUL p.
Proof.
  unfold item_path. destruct (GetItemAt arr i) as [it|]; [|done].
  destruct (GetItemPath it) as [|c r] eqn:E; [done|]. simpl.
  intros [= <-]. split; [done|]. rewrite <- E. apply GetItemPath_no_NUL.
Qed.

Lemma length_omap_le {A B} (f : A → option B) (l : list A) :
  length (omap f l) ≤ length l.
Proof.
  induction l as [|x l IH]; [done|].
  change (omap f (x :: l))
    with (match f x with Some y => y :: omap f l | None => omap f l end).
  destruct (f x); simpl in *; lia.
Qed.

Lemma CollectPaths_paths (arr : option IShellItemArray) :
  Forall (λ p, p ≠ [] ∧ no_NUL p) (CollectPaths arr).
Proof.
  destruct arr as [a|]; [|constructor]. simpl.
  destruct (GetCount a) as [c|]; [|constructor].
  unfold CollectPaths_loop. rewrite CollectPaths_loop_omap. simpl.
  apply Forall_forall. intros p (i & _ & Hi)%list_elem_of_omap.
  by apply (item_path_Some a i).
Qed.

(** X1. [CollectPaths] gathers, in index order, the file system path of each
    of the first [GetCount] items that has one; an item that fails, or whose
    path fails or is empty, is skipped.  A null array or a failing count
    gives no path.  No gathered path is empty or holds a NUL, and there are
    at most [GetCount] of them. *)
Theorem CollectPaths_in_order (a : IShellItemArray) :
  CollectPaths None = []
  ∧ CollectPaths (Some a)
    = match GetCount a with
      | Some c => omap (item_path a) (seq 0 c)
      | None => []
      end
  ∧ Forall (λ p, p ≠ [] ∧ no_NUL p) (CollectPaths (Some a))
  ∧ length (CollectPaths (Some a)) ≤ default 0 (GetCount a).
Proof.
  split; [done|].
  assert (CollectPaths (Some a)
          = match GetCount a with
            | Some c => omap (item_path a) (seq 0 c)
            | None => []
            end) as E.
  { simpl. destruct (GetCount a) as [c|]; [|done].
    unfold CollectPaths_loop. by rewrite CollectPaths_loop_omap. }
  split; [exact E|]. split; [apply CollectPaths_paths|].
  rewrite E. destruct (GetCount a) as [c|]; simpl; [|done].
  etrans; [apply length_omap_le|]. by rewrite length_seq.
Qed.

(** ** The file system tests *)

(** X2. A path is never both an existing file and a directory: when the
    attributes are invalid both tests fail, and otherwise exactly one of
    them holds. *)
Theorem FileExists_xor_IsDirectoryPath (os : Win32) (p : wstring) :
  (GetFileAttributesW os (c_str p) = INVALID_FILE_ATTRIBUTES →
     FileExists os p = false ∧ IsDirectoryPath os p = false)
  ∧ (GetFileAttributesW os (c_str p) ≠ INVALID_FILE_ATTRIBUTES →
     FileExists os p = negb (IsDirectoryPath os p)).
Proof.
  unfold FileExists, IsDirectoryPath. split.
  - intros ->. done.
  - intros H. destruct (Z.eqb_spec (GetFileAttributesW os (c_str p))
                          INVALID_FILE_ATTRIBUTES); [done|]. simpl.
    by destruct (Z.land _ _ =? 0)%Z.
Qed.

Lemma FileExists_xor_IsDirectoryPath_witness :
  (FileExists sample_os (L "C:\nowhere") = false
   ∧ IsDirectoryPath sample_os (L "C:\nowhere") = false)
  ∧ FileExists sample_os (L "C:\dir\sub")
    = negb (IsDirectoryPath sample_os (L "C:\dir\sub")).
Proof.
  split.
  - apply (proj1 (FileExists_xor_IsDirectoryPath sample_os (L "C:\nowhere"))).
    reflexivity.
  - apply (proj2 (FileExists_xor_IsDirectoryPath sample_os (L "C:\dir\sub"))).
    vm_compute. discriminate.
Defined.

(** ** What [Invoke] launches *)

Lemma fmap_extract_to_folder (os : Win32) (paths : list wstring) :
  Forall (λ d, lpDirectory d = None ∧ is_Some (lpParameters d)
               ∧ lpFile d = Find7zTool os (L "7zG.exe"))
    (extract_to_folder os (Find7zTool os (L "7zG.exe")) <$> paths).
Proof. apply Forall_fmap, Forall_true. intros p. repeat split. by eexists. Qed.

(** X3. [Invoke] launches nothing on a selection without paths, whatever the
    command, and the ids [None] and [CRCMenu] launch nothing on any
    selection; in each case it answers [S_OK]. *)
Theorem Invoke_launches_nothing (os : Win32) (m_id : CommandID.t)
    (arr : option IShellItemArray) :
  (CollectPaths arr = [] → Invoke os m_id arr = (S_OK, []))
  ∧ (launches_nothing m_id = true → Invoke os m_id arr = (S_OK, [])).
Proof.
  unfold Invoke. split.
  - by intros ->.
  - intros H. destruct (CollectPaths arr); [done|]. by destruct m_id.
Qed.

Lemma Invoke_launches_nothing_witness :
  Invoke sample_os CommandID.Open None = (S_OK, [])
  ∧ Invoke sample_os CommandID.CRCMenu (shell_items [L "C:\dir\a.txt"]) = (S_OK, []).
Proof.
  split.
  - apply (proj1 (Invoke_launches_nothing sample_os CommandID.Open None)).
    reflexivity.
  - apply (proj2 (Invoke_launches_nothing sample_os CommandID.CRCMenu
                    (shell_items [L "C:\dir\a.txt"]))).
    reflexivity.
Defined.

(** X4. Every launch of [Invoke] names the archiver of its command (the file
    manager for [Open], the console tool for the hashes, the GUI tool for
    the rest), passes parameters and sets no working directory.  On a
    selection with paths a command makes exactly one launch, except the two
    extraction commands, which make exactly one per path on every selection,
    and the two ids that make none on every selection; so there are never
    more launches than paths.  [Invoke] always answers [S_OK]. *)
Theorem Invoke_launch_shape (os : Win32) (m_id : CommandID.t)
    (arr : option IShellItemArray) :
  (Invoke os m_id arr).1 = S_OK
  ∧ Forall (λ d, lpDirectory d = None ∧ is_Some (lpParameters d)
                 ∧ lpFile d = tool_of os m_id)
      (Invoke os m_id arr).2
  ∧ length (Invoke os m_id arr).2 ≤ length (CollectPaths arr)
  ∧ (CollectPaths arr ≠ [] → launches_nothing m_id = false →
       per_path m_id = false → length (Invoke os m_id arr).2 = 1)
  ∧ (per_path m_id = true →
       length (Invoke os m_id arr).2 = length (CollectPaths arr))
  ∧ (launches_nothing m_id = true → (Invoke os m_id arr).2 = []).
Proof.
  unfold Invoke. destruct (CollectPaths arr) as [|p rest] eqn:E.
  - split_and!; [done|constructor|done..].
  - destruct m_id; simpl; split_and!;
      try (by repeat constructor; eexists); try done; try lia.
    + destruct rest; simpl; [by repeat constructor; eexists|].
      apply (fmap_extract_to_folder os (p :: _ :: rest)).
    + destruct rest; simpl; [lia|]. by rewrite length_fmap.
    + intros _. destruct rest; simpl; [done|]. by rewrite length_fmap.
    + apply (fmap_extract_to_folder os (p :: rest)).
    + by rewrite length_fmap.
    + intros _. by rewrite length_fmap.
Qed.

Lemma Invoke_launch_shape_witness :
  length (Invoke sample_os CommandID.SHA256
            (shell_items [L "C:\dir\a.txt"; L "C:\dir\b.txt"])).2 = 1
  ∧ length (Invoke sample_os CommandID.ExtractTo
              (shell_items [L "C:\dir\X.7z"; L "C:\dir\Y.7z"])).2 = 2
  ∧ (Invoke sample_os CommandID.CRCMenu (shell_items [L "C:\dir\a.txt"])).2 = [].
Proof.
  split_and!.
  - destruct (Invoke_launch_shape sample_os CommandID.SHA256
                (shell_items [L "C:\dir\a.txt"; L "C:\dir\b.txt"]))
      as (_ & _ & _ & H & _ & _).
    apply H; [discriminate|reflexivity|reflexivity].
  - destruct (Invoke_launch_shape sample_os CommandID.ExtractTo
                (shell_items [L "C:\dir\X.7z"; L "C:\dir\Y.7z"]))
      as (_ & _ & _ & _ & H & _).
    apply H. reflexivity.
  - destruct (Invoke_launch_shape sample_os CommandID.CRCMenu
                (shell_items [L "C:\dir\a.txt"]))
      as (_ & _ & _ & _ & _ & H).
    apply H. reflexivity.
Defined.

(** ** Quoting *)

Lemma quoteJoin_foldl (acc : wstring) (v : list wstring) :
  foldl (λ s p, s ++ dquote ++ p ++ dquote ++ L " ") acc v
  = acc ++ concat ((λ p, dquote ++ p ++ dquote ++ L " ") <$> v).
Proof.
  revert acc. induction v as [|p v IH]; intros acc.
  - simpl. by rewrite app_nil_r.
  - change (foldl (λ s p, s ++ dquote ++ p ++ dquote ++ L " ") acc (p :: v))
      with (foldl (λ s p, s ++ dquote ++ p ++ dquote ++ L " ")
              (acc ++ dquote ++ p ++ dquote ++ L " ") v).
    rewrite IH, fmap_cons. cbn [concat]. by rewrite <- (app_assoc acc).
Qed.

Lemma quoteJoin_concat (v : list wstring) :
  quoteJoin v = concat ((λ p, dquote ++ p ++ dquote ++ L " ") <$> v).
Proof. unfold quoteJoin. by rewrite quoteJoin_foldl. Qed.

Lemma quoted_args_skip (pre rest : wstring) :
  no_quote pre → quoted_args false [] (pre ++ rest) = quoted_args false [] rest.
Proof.
  induction 1 as [|c pre Hc _ IH]; [done|]. simpl.
  by destruct (N.eqb_spec c 34).
Qed.

Lemma quoted_args_inside (cur p rest : wstring) :
  no_quote p →
  quoted_args true cur (p ++ dquote ++ rest) = (cur ++ p) :: quoted_args false [] rest.
Proof.
  intros Hp. revert cur. induction Hp as [|c p Hc _ IH]; intros cur; simpl.
  - by rewrite app_nil_r.
  - destruct (N.eqb_spec c 34); [done|]. rewrite IH. by rewrite <- app_assoc.
Qed.

Lemma quoted_args_one (p rest : wstring) :
  no_quote p →
  quoted_args false [] (dquote ++ p ++ dquote ++ rest)
  = p :: quoted_args false [] rest.
Proof.
  intros Hp.
  change (quoted_args false [] (dquote ++ p ++ dquote ++ rest))
    with (quoted_args true [] (p ++ dquote ++ rest)).
  by rewrite (quoted_args_inside [] p rest Hp).
Qed.

Lemma quoted_args_quoteJoin (v : list wstring) :
  Forall no_quote v → quoted_args false [] (quoteJoin v) = v.
Proof.
  rewrite quoteJoin_concat. induction 1 as [|p v Hp _ IH]; [done|].
  rewrite fmap_cons. cbn [concat]. rewrite <- !app_assoc.
  rewrite quoted_args_one by done.
  f_equal. exact IH.
Qed.

(** X5. [quoteJoin] writes each path between double quotes followed by a
    space, in order, so joining distributes over appending lists; when no
    path holds a double quote, reading the quoted arguments of the joined
    text back, after any unquoted switches, gives the paths again, so two
    lists of such paths that join to the same text are equal. *)
Theorem quoteJoin_reads_back (pre : wstring) (v w : list wstring) :
  quoteJoin v = concat ((λ p, dquote ++ p ++ dquote ++ L " ") <$> v)
  ∧ quoteJoin (v ++ w) = quoteJoin v ++ quoteJoin w
  ∧ (no_quote pre → Forall no_quote v →
       quoted_args false [] (pre ++ quoteJoin v) = v)
  ∧ (Forall no_quote v → Forall no_quote w → quoteJoin v = quoteJoin w → v = w).
Proof.
  split; [apply quoteJoin_concat|]. split.
  { rewrite !quoteJoin_concat, fmap_app. apply concat_app. }
  split.
  { intros Hpre Hv. rewrite quoted_args_skip by done.
    by apply quoted_args_quoteJoin. }
  intros Hv Hw E.
  rewrite <- (quoted_args_quoteJoin v Hv), <- (quoted_args_quoteJoin w Hw).
  by rewrite E.
Qed.

Lemma quoteJoin_reads_back_witness :
  quoted_args false []
    (L "h -scrcSHA1 " ++ quoteJoin [L "C:\my dir\a b.txt"; L "C:\dir\c.txt"])
  = [L "C:\my dir\a b.txt"; L "C:\dir\c.txt"].
Proof.
  apply (quoteJoin_reads_back (L "h -scrcSHA1 ")
           [L "C:\my dir\a b.txt"; L "C:\dir\c.txt"] []).
  - apply (bool_decide_unpack _). vm_compute. reflexivity.
  - apply (bool_decide_unpack _). vm_compute. reflexivity.
Defined.

(** ** Names keep to the characters of their sources *)

Lemma filename_Forall (P : wchar → Prop) (p : wstring) :
  Forall P p → Forall P (filename p).
Proof. apply Forall_drop. Qed.

Lemma stem_Forall (P : wchar → Prop) (p : wstring) :
  Forall P p → Forall P (stem p).
Proof. intros H. unfold stem, substr. by apply Forall_take, Forall_drop. Qed.

Lemma parent_path_Forall (P : wchar → Prop) (p : wstring) :
  Forall P p → Forall P (parent_path p).
Proof. intros H. unfold parent_path. by apply Forall_take. Qed.

Lemma BaseName_Forall (os : Win32) (P : wchar → Prop) (p : wstring) :
  Forall P p → Forall P (BaseName os p).
Proof.
  intros H. unfold BaseName.
  destruct (IsDirectoryPath os p); [by apply filename_Forall|by apply stem_Forall].
Qed.

Lemma DefaultArchiveName_Forall (os : Win32) (P : wchar → Prop)
    (paths : list wstring) (ext : wstring) :
  Forall P (L "Archive") → Forall P ext → Forall (Forall P) paths →
  Forall P (DefaultArchiveName os paths ext).
Proof.
  intros HA He Hp. unfold DefaultArchiveName.
  destruct Hp as [|p paths Hp Hps]; [by apply Forall_app|].
  destruct Hps as [|q rest Hq Hrest].
  - apply Forall_app. split; [by apply BaseName_Forall|done].
  - destruct (_ && _); apply Forall_app; split; try done.
    by apply filename_Forall, parent_path_Forall.
Qed.

(** ** What the launches carry *)

Lemma quoted_of_ShellRun (exe args cwd : wstring) :
  quoted_of (ShellRun exe args cwd) = quoted_args false [] args.
Proof. unfold quoted_of, ShellRun, nullable. simpl. by destruct args. Qed.

Lemma quoted_args_bulk (pre : wstring) (paths : list wstring) :
  no_quote pre → Forall no_quote paths →
  quoted_args false [] (pre ++ quoteJoin paths) = paths.
Proof.
  intros Hpre Hp. rewrite quoted_args_skip by done.
  by apply quoted_args_quoteJoin.
Qed.

Lemma quoted_args_single (pre p : wstring) :
  no_quote pre → no_quote p →
  quoted_args false [] (pre ++ dquote ++ p ++ dquote) = [p].
Proof.
  intros Hpre Hp. rewrite quoted_args_skip by done.
  rewrite <- (app_nil_r dquote) at 2. by rewrite quoted_args_one.
Qed.

Lemma quoted_args_named (pre out : wstring) (paths : list wstring) :
  no_quote pre → no_quote out → Forall no_quote paths →
  quoted_args false [] (pre ++ dquote ++ out ++ dquote ++ L " " ++ quoteJoin paths)
  = out :: paths.
Proof.
  intros Hpre Hout Hp. rewrite quoted_args_skip by done.
  rewrite quoted_args_one by done. f_equal.
  apply (quoted_args_bulk (L " ")); [|done]. by repeat constructor.
Qed.

Lemma quoted_args_into (folder p : wstring) :
  no_quote folder → no_quote p →
  quoted_args false []
    (L "x -y -o" ++ dquote ++ folder ++ bslash ++ dquote
     ++ L " " ++ dquote ++ p ++ dquote)
  = [folder ++ bslash; p].
Proof.
  intros Hf Hp. rewrite quoted_args_skip by (by repeat constructor).
  rewrite (app_assoc folder bslash).
  rewrite quoted_args_one by (apply Forall_app; split; [done|by repeat constructor]).
  f_equal. apply (quoted_args_single (L " ")); [by repeat constructor|done].
Qed.

Lemma quoted_of_extract_to_folder (os : Win32) (tool : wstring)
    (paths : list wstring) :
  Forall no_quote paths →
  quoted_of <$> (extract_to_folder os tool <$> paths)
  = (λ p, [BaseName os p ++ bslash; p]) <$> paths.
Proof.
  intros H. rewrite <- list_fmap_compose. apply Forall_fmap_ext.
  eapply Forall_impl; [exact H|]. intros p Hp. simpl.
  unfold extract_to_folder. rewrite quoted_of_ShellRun.
  apply quoted_args_into; [by apply BaseName_Forall|done].
Qed.

Lemma no_quote_literal (s : wstring) :
  bool_decide (no_quote s) = true → no_quote s.
Proof. apply bool_decide_eq_true_1. Qed.

(** X6. When no selected path holds a double quote, the quoted arguments of
    the launches of [Invoke] are: the first path alone for [Open] and for
    [Extract Here] on one path; the folder with a trailing backslash and the
    path, per path, for the extractions into folders; the default archive
    name followed by every path for the named add and email commands; and
    every path, in selection order, for the other commands. *)
Theorem Invoke_carries (os : Win32) (m_id : CommandID.t)
    (arr : option IShellItemArray) (p0 : wstring) (rest : list wstring) :
  CollectPaths arr = p0 :: rest → Forall no_quote (p0 :: rest) →
  quoted_of <$> (Invoke os m_id arr).2 = carried os m_id p0 rest.
Proof.
  intros E Hq. pose proof (Forall_inv Hq) as Hp0.
  assert (∀ ext, no_quote ext →
            no_quote (DefaultArchiveName os (p0 :: rest) ext)) as Hname.
  { intros ext He. apply DefaultArchiveName_Forall; [|done..].
    by apply no_quote_literal. }
  unfold Invoke. rewrite E.
  destruct m_id; cbv beta iota zeta delta [snd carried];
    rewrite ?list_fmap_singleton, ?quoted_of_ShellRun; try reflexivity.
  - f_equal. rewrite <- (app_nil_l (dquote ++ _)).
    by apply quoted_args_single; [constructor|].
  - f_equal. by apply quoted_args_bulk; [apply no_quote_literal|].
  - f_equal. by apply quoted_args_bulk; [apply no_quote_literal|].
  - destruct rest as [|q rest].
    + cbv beta iota zeta delta [length Nat.eqb].
      rewrite list_fmap_singleton, quoted_of_ShellRun. f_equal.
      by apply quoted_args_single; [apply no_quote_literal|].
    + cbv beta iota zeta delta [length Nat.eqb].
      by apply quoted_of_extract_to_folder.
  - by apply quoted_of_extract_to_folder.
  - f_equal. by apply quoted_args_bulk; [apply no_quote_literal|].
  - f_equal. apply quoted_args_named; [by apply no_quote_literal| |done].
    by apply Hname, no_quote_literal.
  - f_equal. apply quoted_args_named; [by apply no_quote_literal| |done].
    by apply Hname, no_quote_literal.
  - f_equal. by apply quoted_args_bulk; [apply no_quote_literal|].
  - f_equal. apply quoted_args_named; [by apply no_quote_literal| |done].
    by apply Hname, no_quote_literal.
  - f_equal. apply quoted_args_named; [by apply no_quote_literal| |done].
    by apply Hname, no_quote_literal.
  - f_equal. by apply quoted_args_bulk; [apply no_quote_literal|].
  - f_equal. by apply quoted_args_bulk; [apply no_quote_literal|].
  - f_equal. by apply quoted_args_bulk; [apply no_quote_literal|].
  - f_equal. by apply quoted_args_bulk; [apply no_quote_literal|].
Qed.

Lemma Invoke_carries_witness :
  quoted_of <$> (Invoke sample_os CommandID.AddToZip
                   (shell_items [L "C:\dir\a.txt"; L "C:\dir\b.txt"])).2
  = [[L "dir.zip"; L "C:\dir\a.txt"; L "C:\dir\b.txt"]].
Proof.
  apply (Invoke_carries sample_os CommandID.AddToZip
           (shell_items [L "C:\dir\a.txt"; L "C:\dir\b.txt"])
           (L "C:\dir\a.txt") [L "C:\dir\b.txt"]).
  - reflexivity.
  - apply (bool_decide_unpack _). vm_compute. reflexivity.
Defined.

(** ** Titles *)

Lemma c_str_id (s : wstring) : no_NUL s → c_str s = s.
Proof.
  induction 1 as [|c s Hc _ IH]; simpl; [done|].
  destruct (N.eqb_spec c 0); [done|]. by rewrite IH.
Qed.

Lemma no_NUL_literal (s : wstring) : bool_decide (no_NUL s) = true → no_NUL s.
Proof. apply bool_decide_eq_true_1. Qed.

Lemma CollectPaths_no_NUL (arr : option IShellItemArray) :
  Forall no_NUL (CollectPaths arr).
Proof.
  eapply Forall_impl; [apply CollectPaths_paths|]. by intros p [_ ?].
Qed.

Lemma DefaultArchiveName_no_NUL (os : Win32) (arr : option IShellItemArray)
    (ext : wstring) :
  no_NUL ext → no_NUL (DefaultArchiveName os (CollectPaths arr) ext).
Proof.
  intros He. apply DefaultArchiveName_Forall; [by apply no_NUL_literal|done|].
  apply CollectPaths_no_NUL.
Qed.

(** X7. The title of each named add or email command shows, in full, the
    default archive name of the selection with the extension of the command;
    on a selection without paths that name is [Archive] with the extension.  The title of [Extract
    to] shows the folder named after the first path, or the placeholder when
    there is none.  [GetTitle] answers [S_OK]. *)
Theorem GetTitle_shows_default_name (os : Win32) (m_title : wstring)
    (arr : option IShellItemArray) :
  let name ext := DefaultArchiveName os (CollectPaths arr) (L ext) in
  GetTitle os CommandID.AddTo7z m_title arr
  = (S_OK, L "Add to " ++ dquote ++ name ".7z"%string ++ dquote)
  ∧ GetTitle os CommandID.AddToZip m_title arr
    = (S_OK, L "Add to " ++ dquote ++ name ".zip"%string ++ dquote)
  ∧ GetTitle os CommandID.Email7z m_title arr
    = (S_OK, L "Compress to " ++ dquote ++ name ".7z"%string ++ dquote
             ++ L " and email")
  ∧ GetTitle os CommandID.EmailZip m_title arr
    = (S_OK, L "Compress to " ++ dquote ++ name ".zip"%string ++ dquote
             ++ L " and email")
  ∧ GetTitle os CommandID.ExtractTo m_title arr
    = (S_OK, match CollectPaths arr with
             | p0 :: _ => L "Extract to " ++ dquote ++ BaseName os p0 ++ bslash ++ dquote
             | [] => L "Extract to \<Folder>" ++ bslash
             end).
Proof.
  intros name. subst name.
  assert (∀ ext : string, bool_decide (no_NUL (L ext)) = true →
            no_NUL (DefaultArchiveName os (CollectPaths arr) (L ext))) as Hn.
  { intros ext He. by apply DefaultArchiveName_no_NUL, no_NUL_literal. }
  repeat split; unfold GetTitle; cbv beta iota zeta.
  - change (c_str (L ".7z")) with (L ".7z"). f_equal. apply c_str_id.
    apply Forall_app; split; [by apply no_NUL_literal|].
    apply Forall_app; split; [by repeat constructor|].
    apply Forall_app; split; [by apply Hn|by repeat constructor].
  - change (c_str (L ".zip")) with (L ".zip"). f_equal. apply c_str_id.
    apply Forall_app; split; [by apply no_NUL_literal|].
    apply Forall_app; split; [by repeat constructor|].
    apply Forall_app; split; [by apply Hn|by repeat constructor].
  - change (c_str (L ".7z")) with (L ".7z"). f_equal. apply c_str_id.
    apply Forall_app; split; [by apply no_NUL_literal|].
    apply Forall_app; split; [by repeat constructor|].
    apply Forall_app; split; [by apply Hn|].
    apply Forall_app; split; [by repeat constructor|by apply no_NUL_literal].
  - change (c_str (L ".zip")) with (L ".zip"). f_equal. apply c_str_id.
    apply Forall_app; split; [by apply no_NUL_literal|].
    apply Forall_app; split; [by repeat constructor|].
    apply Forall_app; split; [by apply Hn|].
    apply Forall_app; split; [by repeat constructor|by apply no_NUL_literal].
  - pose proof (CollectPaths_no_NUL arr) as Hp.
    destruct (CollectPaths arr) as [|p0 rest]; [done|]. f_equal.
    apply c_str_id.
    apply Forall_app; split; [by apply no_NUL_literal|].
    apply Forall_app; split; [by repeat constructor|].
    apply Forall_app; split; [apply BaseName_Forall; by inversion Hp|].
    by repeat constructor.
Qed.

(** ** Default names *)

(** X8. The default archive name always ends with the extension asked for,
    and every character before it comes from a selected path or from the
    word [Archive]; for a selection of two or more paths it does not depend
    on the file system. *)
Theorem DefaultArchiveName_shape (os os' : Win32) (paths : list wstring)
    (ext : wstring) (P : wchar → Prop) :
  (∃ base, DefaultArchiveName os paths ext = base ++ ext
           ∧ (Forall P (L "Archive") → Forall (Forall P) paths → Forall P base))
  ∧ (2 ≤ length paths →
       DefaultArchiveName os paths ext = DefaultArchiveName os' paths ext).
Proof.
  split.
  - unfold DefaultArchiveName. destruct paths as [|p [|q rest]].
    + by eexists.
    + eexists. split; [done|]. intros _ Hp. apply BaseName_Forall. by inversion Hp.
    + destruct (_ && _); eexists; (split; [done|]); intros HA Hp; [|done].
      apply filename_Forall, parent_path_Forall. by inversion Hp.
  - intros Hlen. destruct paths as [|p [|q rest]]; simpl in Hlen; [lia..|done].
Qed.

Lemma DefaultArchiveName_shape_witness :
  DefaultArchiveName sample_os [L "C:\dir\sub"; L "C:\dir\b.txt"] (L ".7z")
  = DefaultArchiveName
      {| GetFileAttributesW := λ _, INVALID_FILE_ATTRIBUTES;
         GetModuleDir := []; PathAppendW := app |}
      [L "C:\dir\sub"; L "C:\dir\b.txt"] (L ".7z").
Proof.
  apply (DefaultArchiveName_shape sample_os _ [L "C:\dir\sub"; L "C:\dir\b.txt"]
           (L ".7z") (λ _, True)).
  simpl. lia.
Defined.

(** ** Extensions and states *)

Lemma c_str_towlower (s : wstring) : c_str (towlower <$> s) = towlower <$> c_str s.
Proof.
  induction s as [|c s IH]; [done|]. rewrite fmap_cons. simpl.
  destruct (N.eqb_spec c 0) as [->|Hc]; [done|].
  destruct (N.eqb_spec (towlower c) 0) as [E|_].
  - by apply towlower_NUL in E.
  - by rewrite IH.
Qed.

Lemma towlower_idemp (c : wchar) : towlower (towlower c) = towlower c.
Proof.
  unfold towlower. destruct ((65 <=? c) && (c <=? 90))%N eqn:E; [|by rewrite E].
  apply andb_prop in E as [E1%N.leb_le E2%N.leb_le].
  destruct ((65 <=? c + 32) && (c + 32 <=? 90))%N eqn:E'; [|done].
  apply andb_prop in E' as [_ E3%N.leb_le]. lia.
Qed.

(** X9. [IsArchiveExt] compares without regard to ASCII case: two
    extensions that agree after lowering are both accepted or both
    rejected, and an extension is accepted exactly when its lowered form
    is. *)
Theorem IsArchiveExt_ignores_case (ext ext' : wstring) :
  (towlower <$> c_str ext = towlower <$> c_str ext' →
     IsArchiveExt ext = IsArchiveExt ext')
  ∧ IsArchiveExt (towlower <$> ext) = IsArchiveExt ext.
Proof.
  assert (∀ e e', towlower <$> c_str e = towlower <$> c_str e' →
                  IsArchiveExt e = IsArchiveExt e') as H.
  { intros e e' E. apply eq_true_iff_eq. by rewrite !IsArchiveExt_spec, E. }
  split; [apply H|]. apply H.
  rewrite c_str_towlower, <- list_fmap_compose. apply list_fmap_ext.
  intros _ c _. apply towlower_idemp.
Qed.

Lemma IsArchiveExt_ignores_case_witness :
  IsArchiveExt (L ".ZiP") = IsArchiveExt (L ".zip").
Proof.
  apply (proj1 (IsArchiveExt_ignores_case (L ".ZiP") (L ".zip"))). reflexivity.
Defined.

(** X10. A command that does not need archives (the add, email and hash
    families, the hash menu and the id [None]) is enabled on every selection
    with at least one path, whatever the paths are, and hidden on the
    others. *)
Theorem GetState_always_enabled_family (m_id : CommandID.t)
    (arr : option IShellItemArray) :
  needs_archives m_id = false →
  GetState m_id arr
  = (S_OK, match CollectPaths arr with [] => ECS_HIDDEN | _ :: _ => ECS_ENABLED end).
Proof.
  intros H. unfold GetState. destruct (CollectPaths arr); [done|]. by destruct m_id.
Qed.

Lemma GetState_always_enabled_family_witness :
  GetState CommandID.Email7z (shell_items [L "C:\dir\a.txt"; L "C:\dir\sub"])
  = (S_OK, ECS_ENABLED).
Proof.
  apply (GetState_always_enabled_family CommandID.Email7z
           (shell_items [L "C:\dir\a.txt"; L "C:\dir\sub"])).
  reflexivity.
Defined.

(** X11. [Test], [Extract files], [Extract Here] and [Extract to] always
    share one state; whenever [Open] is enabled so are they; and a selection
    holding some path whose extension is not an archive extension hides all
    five. *)
Theorem GetState_extract_family (arr : option IShellItemArray) :
  GetState CommandID.ExtractFiles arr = GetState CommandID.Test arr
  ∧ GetState CommandID.ExtractHere arr = GetState CommandID.Test arr
  ∧ GetState CommandID.ExtractTo arr = GetState CommandID.Test arr
  ∧ (GetState CommandID.Open arr = (S_OK, ECS_ENABLED) →
       GetState CommandID.Test arr = (S_OK, ECS_ENABLED))
  ∧ (Exists (λ p, ¬ has_archive_extension p) (CollectPaths arr) →
       ∀ m_id, needs_archives m_id = true →
               GetState m_id arr = (S_OK, ECS_HIDDEN)).
Proof.
  unfold GetState. repeat split.
  - destruct (CollectPaths arr); [done|].
    by destruct (_ =? 1), (allArchives _).
  - intros Hex m_id Hm.
    assert (allArchives (CollectPaths arr) = false) as A.
    { apply not_true_is_false. rewrite allArchives_Forall.
      intros HF. apply Exists_exists in Hex as (p & Hin & Hp).
      rewrite Forall_forall in HF. by apply Hp, HF. }
    destruct (CollectPaths arr); [done|]. rewrite A, andb_false_r.
    by destruct m_id.
Qed.

Lemma GetState_extract_family_witness :
  GetState CommandID.Test (shell_items [L "C:\dir\X.7z"]) = (S_OK, ECS_ENABLED)
  ∧ GetState CommandID.ExtractHere (shell_items [L "C:\dir\X.7z"; L "C:\dir\a.txt"])
    = (S_OK, ECS_HIDDEN).
Proof.
  split.
  - apply (GetState_extract_family (shell_items [L "C:\dir\X.7z"])).
    reflexivity.
  - apply (GetState_extract_family
             (shell_items [L "C:\dir\X.7z"; L "C:\dir\a.txt"])); [|reflexivity].
    apply Exists_cons_tl, Exists_cons_hd.
    intros H. apply (bool_decide_pack _) in H. vm_compute in H. destruct H.
Defined.

(** * Further properties of the objects *)

(** ** Exact steps *)

Lemma State_eq (s s' : State) :
  g_ObjCount s = g_ObjCount s' → g_LockCount s = g_LockCount s' →
  heap s = heap s' → s = s'.
Proof. destruct s, s'. simpl. by intros -> -> ->. Qed.

Lemma with_heap_id (s : State) : with_heap s (heap s) = s.
Proof. by destruct s. Qed.

Lemma get_obj_exact (a : addr) (o : object) (s : State) :
  heap s !! a = Some o → get_obj a s = Some (o, s).
Proof. unfold get_obj. by intros ->. Qed.

Lemma AddRef_exact (a : addr) (o : object) (s : State) :
  heap s !! a = Some o →
  AddRef a s = Some (ULONG (LONG (m_ref o + 1)),
                     with_heap s (<[a:=more_refs 1 o]> (heap s))).
Proof.
  intros Ha. unfold AddRef.
  rewrite (bind_step _ _ _ _ _ (get_obj_exact _ _ _ Ha)). reflexivity.
Qed.

(** [Release] that leaves the object alive, and [Release] that destroys it. *)
Lemma Release_by_alive (destroy : addr → M ()) (a : addr) (o : object) (s : State) :
  heap s !! a = Some o → ULONG (LONG (m_ref o - 1)) ≠ 0%Z →
  Release_by destroy a s
  = Some (ULONG (LONG (m_ref o - 1)),
          with_heap s (<[a:=more_refs (-1) o]> (heap s))).
Proof.
  intros Ha Hc. unfold Release_by.
  rewrite (bind_step _ _ _ _ _ (get_obj_exact _ _ _ Ha)).
  apply Z.eqb_neq in Hc.
  unfold mbind, M_bind, put_obj. simpl. by rewrite Hc.
Qed.

Lemma Release_by_last (destroy : addr → M ()) (a : addr) (o : object)
    (s s' : State) (u : ()) :
  heap s !! a = Some o → ULONG (LONG (m_ref o - 1)) = 0%Z →
  destroy a (with_heap s (<[a:=more_refs (-1) o]> (heap s))) = Some (u, s') →
  Release_by destroy a s = Some (0%Z, s').
Proof.
  intros Ha Hc Hd. unfold Release_by.
  rewrite (bind_step _ _ _ _ _ (get_obj_exact _ _ _ Ha)).
  unfold mbind at 1, M_bind at 1, put_obj. rewrite Hc.
  change (0 =? 0)%Z with true. cbv iota.
  unfold with_heap, more_refs in Hd. replace (m_ref o + -1)%Z with (m_ref o - 1)%Z in Hd by lia.
  by rewrite (bind_step _ _ _ _ _ Hd).
Qed.

Lemma LONG_id (z : Z) : in_LONG z → LONG z = z.
Proof. apply LONG_small. Qed.

Lemma ULONG_pos (z : Z) : (0 < z < 2 ^ 31)%Z → ULONG z = z.
Proof. intros H. unfold ULONG. apply Z.mod_small. lia. Qed.

Lemma more_refs_back (o : object) :
  in_LONG (m_ref o) → more_refs (-1) (more_refs 1 o) = o.
Proof.
  intros H. unfold more_refs. destruct o; simpl;
    rewrite LONG_add; (replace (_ + 1 + -1)%Z with (m_ref0)%Z by lia);
    by rewrite LONG_id.
Qed.

(** X12. [AddRef] followed by [Release] on a live object whose count is a
    non-zero [LONG] leaves the module exactly as it was; [Release] answers
    the count the object had. *)
Theorem AddRef_Release_round_trip (a : addr) (o : object) (s : State) :
  heap s !! a = Some o → in_LONG (m_ref o) → m_ref o ≠ 0%Z →
  (AddRef a;; Release a) s = Some (ULONG (m_ref o), s).
Proof.
  intros Ha Hr H0.
  rewrite (bind_step _ _ _ _ _ (AddRef_exact _ _ _ Ha)).
  assert (LONG (m_ref (more_refs 1 o) - 1) = m_ref o) as E.
  { unfold more_refs. destruct o; simpl; rewrite LONG_sub;
      (replace (_ + 1 - 1)%Z with (m_ref0)%Z by lia); by apply LONG_id. }
  unfold Release.
  rewrite (Release_by_alive delete_ a (more_refs 1 o)).
  - rewrite E. do 2 f_equal. apply State_eq; [done..|]. simpl.
    rewrite insert_insert_eq, more_refs_back by done. by apply insert_id.
  - simpl. apply lookup_insert_eq.
  - rewrite E. unfold ULONG. unfold in_LONG in Hr.
    destruct (Z_lt_le_dec (m_ref o) 0).
    + rewrite <- (Z.mod_add _ 1) by lia. rewrite Z.mod_small by lia. lia.
    + rewrite Z.mod_small by lia. done.
Qed.

Lemma AddRef_Release_round_trip_witness :
  (AddRef 12;; Release 12) sample_state = Some (2%Z, sample_state).
Proof.
  apply (AddRef_Release_round_trip 12
           (ExplorerCommandBase true 2 CommandID.CRCMenu (L "CRC SHA")) sample_state).
  - vm_compute. reflexivity.
  - unfold in_LONG. simpl. lia.
  - discriminate.
Defined.

(** ** Enumerating *)

Lemma put_CommandEnum_keeps_commands (e : addr) r items idx (o : object) (s : State) :
  heap s !! e = Some (CommandEnum r items idx) → kind_of o = KEnum →
  keeps_commands s (with_heap s (<[e:=o]> (heap s)))
  ∧ live_commands (with_heap s (<[e:=o]> (heap s))) = live_commands s.
Proof.
  intros He Hk. split.
  - intros a c. unfold described. simpl.
    destruct (decide (e = a)) as [<-|Hne]; [by rewrite He|].
    by rewrite lookup_insert_ne.
  - unfold live_commands. simpl.
    apply (live_insert_same _ e (CommandEnum r items idx)); [done|by destruct o].
Qed.

Lemma length_take_drop {A} (n idx : nat) (l : list A) :
  length (take n (drop idx l)) = n ↔ n ≤ length l - idx.
Proof. rewrite length_take, length_drop. lia. Qed.

Lemma Next_fwd (e : addr) (n : nat) (s : State) r items idx :
  heap s !! e = Some (CommandEnum r items idx) →
  Forall (λ a, is_Some (described s a)) items →
  ∃ s' r',
    Next e n s
    = Some ((if length (take n (drop idx items)) =? n then S_OK else S_FALSE,
             take n (drop idx items)), s')
    ∧ heap s' !! e
      = Some (CommandEnum r' items (idx + length (take n (drop idx items))))
    ∧ keeps_commands s s'
    ∧ live_commands s' = live_commands s.
Proof.
  intros He Hv.
  destruct (Next_loop_fwd e n s r items idx He Hv) as (s' & r' & H & K & He' & Hl).
  exists s', r'. repeat split; try done.
  unfold Next. rewrite (bind_step _ _ _ _ _ (get_obj_exact _ _ _ He)).
  by rewrite (bind_step _ _ _ _ _ H).
Qed.

(** X13. [Next] on an enumerator whose elements are live commands fetches the
    elements from its position on, in order and at most [celt] of them, and
    moves the position past them; it answers [S_OK] exactly when [celt]
    elements were left.  No command is created or destroyed. *)
Theorem Next_fetches (e : addr) (celt : nat) (s : State) r items idx :
  heap s !! e = Some (CommandEnum r items idx) →
  Forall (λ a, is_Some (described s a)) items →
  let f := take celt (drop idx items) in
  ∃ s' r' hr,
    Next e celt s = Some ((hr, f), s')
    ∧ (hr = S_OK ↔ celt ≤ length items - idx)
    ∧ (hr = S_OK ∨ hr = S_FALSE)
    ∧ heap s' !! e = Some (CommandEnum r' items (idx + length f))
    ∧ keeps_commands s s'
    ∧ live_commands s' = live_commands s.
Proof.
  intros He Hv f. subst f.
  destruct (Next_fwd e celt s r items idx He Hv) as (s' & r' & H & He' & K & Hl).
  exists s', r', (if length (take celt (drop idx items)) =? celt then S_OK else S_FALSE).
  repeat split; try done.
  - destruct (Nat.eqb_spec (length (take celt (drop idx items))) celt) as [E|E];
      [|done]. intros _. by apply length_take_drop.
  - intros Hle. apply length_take_drop in Hle. by rewrite Hle, Nat.eqb_refl.
  - destruct (_ =? _); auto.
Qed.

Lemma sample_state_enum :
  heap sample_state !! 13
  = Some (CommandEnum 2 [1; 2; 3; 4; 5; 6; 7; 8; 9; 10; 11; 12] 0)
  ∧ Forall (λ a, is_Some (described sample_state a))
      [1; 2; 3; 4; 5; 6; 7; 8; 9; 10; 11; 12].
Proof.
  split; [vm_compute; reflexivity|].
  repeat constructor; vm_compute; by eexists.
Qed.

Lemma Next_fetches_witness :
  ∃ s' hr, Next 13 5 sample_state = Some ((hr, [1; 2; 3; 4; 5]), s')
           ∧ (hr = S_OK ↔ 5 ≤ 12 - 0).
Proof.
  destruct (Next_fetches 13 5 sample_state 2 [1; 2; 3; 4; 5; 6; 7; 8; 9; 10; 11; 12] 0
              (proj1 sample_state_enum) (proj2 sample_state_enum))
    as (s' & r' & hr & H & Hhr & _).
  exists s', hr. split; [exact H|exact Hhr].
Defined.

(** X14. On such an enumerator, [Skip] then [Next] fetches the elements that
    follow the skipped ones, none when the skip reaches the end, and [Reset]
    then [Next] fetches from the first element again, whatever had been
    fetched before.  The position is a [size_t] wide enough for [idx + celt]
    not to wrap, as in a 64-bit build. *)
Theorem Skip_Reset_then_Next (e : addr) (k celt : nat) (s : State) r items idx :
  heap s !! e = Some (CommandEnum r items idx) →
  Forall (λ a, is_Some (described s a)) items →
  (∃ s' hr, (Skip e k;; Next e celt) s
            = Some ((hr, take celt (drop (idx + k) items)), s')
            ∧ (hr = S_OK ↔ celt ≤ length items - (idx + k)))
  ∧ (∃ s' hr, (Reset e;; Next e celt) s = Some ((hr, take celt items), s')
              ∧ (hr = S_OK ↔ celt ≤ length items)).
Proof.
  intros He Hv. split.
  - set (i := Nat.min (idx + k) (length items)).
    set (s1 := with_heap s (<[e:=CommandEnum r items i]> (heap s))).
    assert (Skip e k s = Some (S_OK, s1)) as HS.
    { unfold Skip. by rewrite (bind_step _ _ _ _ _ (get_obj_exact _ _ _ He)). }
    destruct (put_CommandEnum_keeps_commands e r items idx
                (CommandEnum r items i) s He eq_refl) as [K1 _].
    destruct (Next_fwd e celt s1 r items i) as (s' & r' & H & _);
      [apply lookup_insert_eq| |].
    { eapply Forall_impl; [exact Hv|]. intros a [c Ha]. exists c. by apply K1. }
    assert (drop i items = drop (idx + k) items) as Hd.
    { subst i. destruct (Nat.min_spec (idx + k) (length items)) as [[_ ->]|[Hle ->]];
        [done|]. by rewrite !drop_ge by lia. }
    rewrite Hd in H. eexists s', _. split.
    + rewrite (bind_step _ _ _ _ _ HS). exact H.
    + split.
      * destruct (Nat.eqb_spec (length (take celt (drop (idx + k) items))) celt)
          as [E|E]; [|done]. intros _. by apply length_take_drop.
      * intros Hle. apply length_take_drop in Hle. by rewrite Hle, Nat.eqb_refl.
  - set (s1 := with_heap s (<[e:=CommandEnum r items 0]> (heap s))).
    assert (Reset e s = Some (S_OK, s1)) as HS.
    { unfold Reset. by rewrite (bind_step _ _ _ _ _ (get_obj_exact _ _ _ He)). }
    destruct (put_CommandEnum_keeps_commands e r items idx
                (CommandEnum r items 0) s He eq_refl) as [K1 _].
    destruct (Next_fwd e celt s1 r items 0) as (s' & r' & H & _);
      [apply lookup_insert_eq| |].
    { eapply Forall_impl; [exact Hv|]. intros a [c Ha]. exists c. by apply K1. }
    rewrite drop_0 in H. eexists s', _. split.
    + rewrite (bind_step _ _ _ _ _ HS). exact H.
    + split.
      * destruct (Nat.eqb_spec (length (take celt items)) celt) as [E|E]; [|done].
        intros _. rewrite length_take in E. lia.
      * intros Hle. rewrite length_take, Nat.min_l by done. by rewrite Nat.eqb_refl.
Qed.

Lemma Skip_Reset_then_Next_witness :
  (∃ s' hr, (Skip 13 10;; Next 13 4) sample_state = Some ((hr, [11; 12]), s')
            ∧ (hr = S_OK ↔ 4 ≤ 12 - (0 + 10)))
  ∧ (∃ s' hr, (Reset 13;; Next 13 4) sample_state = Some ((hr, [1; 2; 3; 4]), s')
              ∧ (hr = S_OK ↔ 4 ≤ 12)).
Proof.
  exact (Skip_Reset_then_Next 13 10 4 sample_state 2
           [1; 2; 3; 4; 5; 6; 7; 8; 9; 10; 11; 12] 0
           (proj1 sample_state_enum) (proj2 sample_state_enum)).
Defined.

Lemma new_CommandEnum_fresh (v : list addr) (s s' : State) (e : addr) :
  new_CommandEnum v s = Some (e, s') → heap s !! e = None.
Proof.
  unfold new_CommandEnum. intros H.
  apply bind_Some in H as (a' & s1 & H1 & H).
  apply bind_Some in H as (cs & s2 & H2 & H).
  apply ret_Some in H as [-> ->].
  by apply new_Some in H1 as (Hf & _).
Qed.

(** X15. [Clone] of an enumerator over live commands makes a new enumerator,
    at an address that held nothing, over the same elements at the same
    position and with one reference; the original keeps its elements and
    position, and no command is created or destroyed. *)
Theorem Clone_copies (e : addr) (s : State) r items idx :
  heap s !! e = Some (CommandEnum r items idx) →
  Forall (λ a, is_Some (described s a)) items →
  ∃ e' s' r',
    Clone e s = Some ((S_OK, Some e'), s')
    ∧ heap s !! e' = None
    ∧ heap s' !! e' = Some (CommandEnum 1 items idx)
    ∧ heap s' !! e = Some (CommandEnum r' items idx)
    ∧ keeps_commands s s'
    ∧ live_commands s' = live_commands s.
Proof.
  intros He Hv.
  destruct (new_CommandEnum_fwd items s) as (e' & s1 & r1 & H1 & E1 & He1 & L1).
  { eapply Forall_impl; [exact Hv|]. intros a. apply described_is_Some. }
  pose proof (new_CommandEnum_fresh _ _ _ _ H1) as Hf.
  destruct (E1 e _ He) as (o' & Ho' & Eo').
  destruct o' as [| |r' items' idx']; try done. simpl in Eo'.
  injection Eo' as -> ->.
  destruct (put_CommandEnum_keeps_commands e' r1 items 0
              (CommandEnum 1 items idx) s1 He1 eq_refl) as [K2 L2].
  exists e', (with_heap s1 (<[e':=CommandEnum 1 items idx]> (heap s1))), r'.
  repeat split.
  - unfold Clone. rewrite (bind_step _ _ _ _ _ (get_obj_exact _ _ _ He)).
    by rewrite (bind_step _ _ _ _ _ H1).
  - exact Hf.
  - apply lookup_insert_eq.
  - simpl. rewrite lookup_insert_ne; [done|]. intros ->. congruence.
  - etrans; [by apply extends_keeps_commands|exact K2].
  - by rewrite L2.
Qed.

Lemma Clone_copies_witness :
  ∃ e' s', Clone 13 sample_state = Some ((S_OK, Some e'), s')
           ∧ heap s' !! e'
             = Some (CommandEnum 1 [1; 2; 3; 4; 5; 6; 7; 8; 9; 10; 11; 12] 0).
Proof.
  destruct (Clone_copies 13 sample_state 2 [1; 2; 3; 4; 5; 6; 7; 8; 9; 10; 11; 12] 0
              (proj1 sample_state_enum) (proj2 sample_state_enum))
    as (e' & s' & r' & H & _ & He' & _).
  exists e', s'. split; [exact H|exact He'].
Defined.

(** ** Building and destroying a root *)

Lemma new_ExplorerCommandBase_exact d id t (s : State) :
  ∃ a, heap s !! a = None
       ∧ new_ExplorerCommandBase d id t s
         = Some (a, {| g_ObjCount := LONG (g_ObjCount s + 1);
                       g_LockCount := g_LockCount s;
                       heap := <[a:=ExplorerCommandBase d 1 id t]> (heap s) |}).
Proof.
  exists (fresh (dom (heap s))). split; [|reflexivity].
  apply not_elem_of_dom, is_fresh.
Qed.

Lemma mapM_new_ExplorerCommandBase_exact (l : list (CommandID.t * wstring)) (s : State) :
  ∃ v s', mapM (λ c, new_ExplorerCommandBase false c.1 c.2) l s = Some (v, s')
          ∧ NoDup v
          ∧ Forall (λ b, heap s !! b = None) v
          ∧ (∀ b, b ∉ v → heap s' !! b = heap s !! b)
          ∧ Forall2 (λ b c, heap s' !! b = Some (ExplorerCommandBase false 1 c.1 c.2)) v l
          ∧ LONG (g_ObjCount s') = LONG (g_ObjCount s + Z.of_nat (length l))
          ∧ g_LockCount s' = g_LockCount s.
Proof.
  revert s. induction l as [|[id t] l IH]; intros s.
  - exists [], s. repeat split; try done; try constructor.
    simpl. by rewrite Z.add_0_r.
  - destruct (new_ExplorerCommandBase_exact false id t s) as (a & Hf & H1).
    set (s1 := {| g_ObjCount := LONG (g_ObjCount s + 1);
                  g_LockCount := g_LockCount s;
                  heap := <[a:=ExplorerCommandBase false 1 id t]> (heap s) |}) in *.
    destruct (IH s1) as (v & s2 & H2 & Hnd & Hfr & Hout & Hin & Hg & Hl).
    assert (a ∉ v) as Hav.
    { intros Hin'. rewrite Forall_forall in Hfr. specialize (Hfr a Hin').
      simpl in Hfr. by rewrite lookup_insert_eq in Hfr. }
    exists (a :: v), s2. repeat split.
    + simpl. rewrite (bind_step _ _ _ _ _ H1), (bind_step _ _ _ _ _ H2). done.
    + by constructor.
    + constructor; [done|]. rewrite Forall_forall in Hfr. apply Forall_forall.
      intros b Hb. specialize (Hfr b Hb). simpl in Hfr.
      rewrite lookup_insert_ne in Hfr; [done|]. intros ->. done.
    + intros b Hb. apply not_elem_of_cons in Hb as [Hba Hbv].
      rewrite (Hout b Hbv). simpl. by rewrite lookup_insert_ne.
    + constructor; [|done]. rewrite (Hout a Hav). simpl. apply lookup_insert_eq.
    + rewrite Hg. simpl g_ObjCount. rewrite LONG_add. f_equal.
      rewrite length_cons. lia.
    + by rewrite Hl.
Qed.

Lemma Forall2_Forall_left {A B} (P : A → B → Prop) (Q : A → Prop)
    (l : list A) (k : list B) :
  Forall2 P l k → (∀ x y, P x y → Q x) → Forall Q l.
Proof. induction 1; intros HPQ; constructor; eauto. Qed.

Lemma Forall2_impl_elem {A B} (P Q : A → B → Prop) (l : list A) (k : list B) :
  Forall2 P l k → (∀ x y, x ∈ l → P x y → Q x y) → Forall2 Q l k.
Proof.
  induction 1 as [|x y l k HP HF IH]; intros HPQ; constructor.
  - apply HPQ; [left|exact HP].
  - apply IH. intros x' y' Hx'. apply HPQ. by right.
Qed.

Lemma new_ExplorerCommandRoot_exact (s : State) :
  ∃ a subs s1, new_ExplorerCommandRoot s = Some (a, s1) ∧ fresh_root s s1 a subs.
Proof.
  destruct (new_ (ExplorerCommandRoot 1 [] 0) s) as [[a s1]|] eqn:H1; [|done].
  pose proof H1 as (Hfa & Hh1 & Hg1 & Hl1)%new_Some.
  destruct (InterlockedIncrement_ObjCount s1) as [[c s2]|] eqn:H2; [|done].
  pose proof H2 as (Hh2 & Hg2 & Hl2)%Increment_ObjCount_Some.
  destruct (mapM_new_ExplorerCommandBase_exact root_children s2)
    as (v & s3 & H3 & Hnd & Hfr & Hout & Hin & Hg3 & Hl3).
  destruct (new_ExplorerCommandBase_fwd true CommandID.CRCMenu (L "CRC SHA") s3)
    as (crc & s4 & H4 & _).
  pose proof H4 as H4'. unfold new_ExplorerCommandBase in H4'.
  apply bind_Some in H4' as (crc' & s3a & H4a & H4').
  apply bind_Some in H4' as (c' & s3b & H4b & H4').
  apply ret_Some in H4' as [-> ->].
  apply new_Some in H4a as (Hfc & Hh3a & Hg3a & Hl3a).
  apply Increment_ObjCount_Some in H4b as (Hh4 & Hg4 & Hl4).
  rewrite Hh3a in Hh4. rewrite Hg3a in Hg4. rewrite Hl3a in Hl4.
  destruct (put_obj a (ExplorerCommandRoot 1 (v ++ [crc]) 0) s4) as [[u s5]|] eqn:H5;
    [|done].
  pose proof H5 as (Hh5 & Hg5 & Hl5)%put_obj_Some.
  assert (heap s2 = <[a:=ExplorerCommandRoot 1 [] 0]> (heap s)) as Hh2'
    by (by rewrite Hh2, Hh1).
  assert (a ∉ v) as Hav.
  { intros Hin'. rewrite Forall_forall in Hfr. specialize (Hfr a Hin').
    by rewrite Hh2', lookup_insert_eq in Hfr. }
  assert (heap s3 !! a = Some (ExplorerCommandRoot 1 [] 0)) as Ha3.
  { rewrite (Hout a Hav), Hh2'. apply lookup_insert_eq. }
  assert (crc ≠ a) as Hca by (intros ->; congruence).
  assert (∀ b, b ∈ v → ∃ c : CommandID.t * wstring,
            heap s3 !! b = Some (ExplorerCommandBase false 1 c.1 c.2)) as Hv3.
  { apply Forall_forall.
    eapply (Forall2_Forall_left _ _ _ _ Hin). intros b c0 Hb. by exists c0. }
  assert (crc ∉ v) as Hcv.
  { intros Hin'. destruct (Hv3 crc Hin') as (c0 & Hc). congruence. }
  exists a, (v ++ [crc]), s5. split.
  { unfold new_ExplorerCommandRoot.
    rewrite (bind_step _ _ _ _ _ H1), (bind_step _ _ _ _ _ H2),
      (bind_step _ _ _ _ _ H3).
    unfold new_CRCMenuParent.
    rewrite (bind_step _ _ _ _ _ H4), (bind_step _ _ _ _ _ H5). reflexivity. }
  clear H1 H2 H3 H4 H5.
  unfold fresh_root. split_and!.
  - constructor.
    + rewrite elem_of_app, list_elem_of_singleton. intros [Hx|Hx].
      * exact (Hav Hx).
      * apply Hca. by symmetry.
    + apply NoDup_app. split; [done|]. split; [|apply NoDup_singleton].
      intros b Hb ->%list_elem_of_singleton. done.
  - constructor; [done|]. apply Forall_app. split.
    + rewrite Forall_forall in Hfr. apply Forall_forall. intros b Hb.
      specialize (Hfr b Hb). rewrite Hh2' in Hfr.
      rewrite lookup_insert_ne in Hfr; [done|]. by intros ->.
    + constructor; [|constructor]. rewrite (Hout crc Hcv), Hh2' in Hfc.
      rewrite lookup_insert_ne in Hfc; [done|]. by intros ->.
  - intros b Hb. apply not_elem_of_cons in Hb as [Hba Hb].
    apply not_elem_of_app in Hb as [Hbv Hbc].
    apply not_elem_of_cons in Hbc as [Hbc _].
    rewrite Hh5, Hh4, !lookup_insert_ne by done.
    rewrite (Hout b Hbv), Hh2'. by rewrite lookup_insert_ne.
  - rewrite Hh5. apply lookup_insert_eq.
  - unfold root_menu. apply Forall2_app.
    + apply Forall2_fmap_r.
      eapply Forall2_impl_elem; [exact Hin|]. intros b c0 Hb Hc. simpl.
      rewrite Hh5, Hh4.
      rewrite !lookup_insert_ne; [exact Hc|..]; intros ->; done.
    + constructor; [|constructor]. simpl. rewrite Hh5, Hh4.
      rewrite lookup_insert_ne by done. apply lookup_insert_eq.
  - rewrite Hg5, Hg4. rewrite <- LONG_add, Hg3, Hg2, Hg1. rewrite LONG_add.
    rewrite <- !Z.add_assoc, LONG_add.
    change (length root_children) with 11. f_equal. lia.
  - by rewrite Hl5, Hl4, Hl3, Hl2, Hl1.
Qed.

Lemma Release_item_last (a : addr) d id t (s : State) :
  heap s !! a = Some (ExplorerCommandBase d 1 id t) →
  Release_item a s
  = Some (0%Z, {| g_ObjCount := LONG (g_ObjCount s - 1);
                  g_LockCount := g_LockCount s;
                  heap := delete a (heap s) |}).
Proof.
  intros Ha. unfold Release_item.
  rewrite (bind_step _ _ _ _ _ (get_obj_exact _ _ _ Ha)).
  eapply Release_by_last; [exact Ha|reflexivity|].
  unfold delete_ExplorerCommandBase.
  unfold mbind, M_bind, InterlockedDecrement_ObjCount, free. simpl.
  by rewrite delete_insert_eq.
Qed.

Lemma mapM_Release_item_last (l : list addr) (s : State) :
  NoDup l →
  Forall (λ b, ∃ d id t, heap s !! b = Some (ExplorerCommandBase d 1 id t)) l →
  ∃ cs s', mapM Release_item l s = Some (cs, s')
           ∧ (∀ b, heap s' !! b = if decide (b ∈ l) then None else heap s !! b)
           ∧ LONG (g_ObjCount s') = LONG (g_ObjCount s - Z.of_nat (length l))
           ∧ g_LockCount s' = g_LockCount s.
Proof.
  intros Hnd. revert s. induction Hnd as [|a l Hal Hnd IH]; intros s Hl.
  - exists [], s. split_and!; [done| |simpl; by rewrite Z.sub_0_r|done].
    intros b. rewrite decide_False; [done|]. apply not_elem_of_nil.
  - apply Forall_cons in Hl as [(d & id & t & Ha) Hl].
    pose proof (Release_item_last a d id t s Ha) as H1.
    set (s1 := {| g_ObjCount := LONG (g_ObjCount s - 1);
                  g_LockCount := g_LockCount s;
                  heap := delete a (heap s) |}) in *.
    destruct (IH s1) as (cs & s2 & H2 & Hh & Hg & Hk).
    { rewrite Forall_forall in Hl. apply Forall_forall. intros b Hb.
      destruct (Hl b Hb) as (d' & id' & t' & Hb'). exists d', id', t'. simpl.
      rewrite lookup_delete_ne; [done|]. by intros ->. }
    exists (0%Z :: cs), s2. split_and!.
    + simpl. rewrite (bind_step _ _ _ _ _ H1), (bind_step _ _ _ _ _ H2). done.
    + intros b. rewrite Hh. simpl.
      destruct (decide (b = a)) as [->|Hne].
      * rewrite lookup_delete_eq.
        destruct (decide (a ∈ a :: l)) as [_|Hn]; [|destruct Hn; left].
        by destruct (decide (a ∈ l)).
      * rewrite lookup_delete_ne by done.
        destruct (decide (b ∈ l)) as [Hin|Hnin];
          destruct (decide (b ∈ a :: l)) as [Hin'|Hnin']; try done.
        -- destruct Hnin'. by right.
        -- apply elem_of_cons in Hin' as [?|?]; done.
    + rewrite Hg. simpl g_ObjCount. rewrite LONG_sub. f_equal.
      rewrite length_cons. lia.
    + by rewrite Hk.
Qed.

(** Releasing the last reference of a root just built brings the module
    back to where it was. *)
Lemma Release_fresh_root (s s1 : State) (a : addr) (subs : list addr) :
  fresh_root s s1 a subs → in_LONG (g_ObjCount s) →
  Release a s1 = Some (0%Z, s).
Proof.
  intros (Hnd & Hfr & Hout & Ha & Hmenu & Hg & Hl) HL.
  apply NoDup_cons in Hnd as [Has Hnd].
  assert (length subs = 13 - 1) as Hlen by apply (Forall2_length _ _ _ Hmenu).
  assert (Forall (λ b, ∃ d id t, heap s1 !! b = Some (ExplorerCommandBase d 1 id t))
            subs) as Hsubs.
  { eapply (Forall2_Forall_left _ _ _ _ Hmenu). intros b c Hc. by eexists _, _, _. }
  set (root0 := more_refs (-1) (ExplorerCommandRoot 1 subs 0)).
  set (s2 := with_heap s1 (<[a:=root0]> (heap s1))).
  destruct (mapM_Release_item_last subs s2 Hnd) as (cs & s3 & H3 & Hh3 & Hg3 & Hl3).
  { rewrite Forall_forall in Hsubs. apply Forall_forall. intros b Hb.
    destruct (Hsubs b Hb) as (d & id & t & Hb'). exists d, id, t. simpl.
    rewrite lookup_insert_ne; [done|]. by intros ->. }
  unfold Release. eapply (Release_by_last delete_ a _ s1); [exact Ha|reflexivity|].
  fold root0. fold s2. unfold delete_.
  assert (get_obj a s2 = Some (root0, s2)) as HG
    by (apply get_obj_exact; simpl; apply lookup_insert_eq).
  rewrite (bind_step _ _ _ _ _ HG). subst root0. cbn [more_refs set_m_ref].
  rewrite (bind_step _ _ _ _ _ H3).
  unfold mbind, M_bind, InterlockedDecrement_ObjCount, free. simpl.
  do 2 f_equal. symmetry. apply State_eq; simpl.
  - rewrite <- LONG_sub, Hg3. simpl g_ObjCount. rewrite Hg, Hlen.
    rewrite (LONG_sub (g_ObjCount s + 13)), !LONG_sub.
    replace (g_ObjCount s + 13 - Z.of_nat (13 - 1) - 1)%Z
      with (g_ObjCount s) by lia.
    symmetry. by apply LONG_id.
  - rewrite Hl3. simpl. by rewrite Hl.
  - apply map_eq. intros b. destruct (decide (b = a)) as [->|Hne].
    + rewrite lookup_delete_eq. by apply Forall_inv in Hfr.
    + rewrite lookup_delete_ne by done. rewrite Hh3. simpl.
      destruct (decide (b ∈ subs)) as [Hin|Hnin].
      * apply Forall_inv_tail in Hfr. rewrite Forall_forall in Hfr.
        by rewrite (Hfr b Hin).
      * rewrite lookup_insert_ne by done. symmetry. apply Hout.
        by intros [?|?]%elem_of_cons.
Qed.

Lemma QueryInterface_exact (a : addr) (o : object) (riid : IID) (s : State) :
  heap s !! a = Some o →
  QueryInterface a riid s
  = if supports o riid
    then Some ((S_OK, Some a), with_heap s (<[a:=more_refs 1 o]> (heap s)))
    else Some ((E_NOINTERFACE, None), s).
Proof.
  intros Ha. unfold QueryInterface.
  rewrite (bind_step _ _ _ _ _ (get_obj_exact _ _ _ Ha)).
  destruct (supports o riid); [|reflexivity].
  by rewrite (bind_step _ _ _ _ _ (AddRef_exact _ _ _ Ha)).
Qed.

Lemma Release_extra_reference (a : addr) (o : object) (s : State) :
  heap s !! a = Some o → (0 < m_ref o < 2 ^ 31 - 1)%Z →
  Release a (with_heap s (<[a:=more_refs 1 o]> (heap s))) = Some (m_ref o, s).
Proof.
  intros Ha Hr.
  assert (in_LONG (m_ref o)) as HL by (unfold in_LONG; lia).
  assert (LONG (m_ref (more_refs 1 o) - 1) = m_ref o) as E.
  { unfold more_refs. destruct o; simpl; rewrite LONG_sub;
      (replace (_ + 1 - 1)%Z with (m_ref0)%Z by lia); by apply LONG_id. }
  unfold Release.
  rewrite (Release_by_alive delete_ a (more_refs 1 o)).
  - rewrite E, ULONG_pos by lia. do 2 f_equal. apply State_eq; [done..|]. simpl.
    rewrite insert_insert_eq, more_refs_back by done. by apply insert_id.
  - simpl. apply lookup_insert_eq.
  - rewrite E, ULONG_pos by lia. lia.
Qed.

Lemma CreateInstance_fresh_root (riid : IID) (s : State) :
  riid ∈ [IID_IUnknown; IID_IExplorerCommand; IID_IEnumExplorerCommand] →
  ∃ a subs s1,
    CreateInstance false riid s = Some ((S_OK, Some a), s1)
    ∧ fresh_root s s1 a subs.
Proof.
  intros Hriid.
  destruct (new_ExplorerCommandRoot_exact s) as (a & subs & s1 & H1 & Hroot).
  exists a, subs, s1. split; [|exact Hroot].
  pose proof Hroot as (_ & _ & _ & Ha & _).
  unfold CreateInstance. rewrite (bind_step _ _ _ _ _ H1).
  pose proof (QueryInterface_exact a _ riid s1 Ha) as HQ.
  assert (supports (ExplorerCommandRoot 1 subs 0) riid = true) as Hs.
  { clear -Hriid.
    apply elem_of_cons in Hriid as [->|Hriid]; [reflexivity|].
    apply elem_of_cons in Hriid as [->|Hriid]; [reflexivity|].
    apply elem_of_cons in Hriid as [->|Hriid]; [reflexivity|].
    by apply elem_of_nil in Hriid. }
  rewrite Hs in HQ. rewrite (bind_step _ _ _ _ _ HQ).
  assert (0 < m_ref (ExplorerCommandRoot 1 subs 0) < 2 ^ 31 - 1)%Z as Hr
    by (simpl; lia).
  rewrite (bind_step _ _ _ _ _ (Release_extra_reference a _ s1 Ha Hr)).
  reflexivity.
Qed.

(** X16. [CreateInstance] asked, without an outer object, for [IUnknown],
    [IExplorerCommand] or [IEnumExplorerCommand] answers [S_OK] with a new
    root that holds one reference, the caller's.  The root owns twelve new
    commands, those of the menu in its order, each with one reference; the
    object counter has gone up by thirteen and nothing else has changed.
    When the caller releases its reference the root and its commands are
    destroyed and the module is exactly as before the call. *)
Theorem CreateInstance_one_reference (riid : IID) (s : State) :
  in_LONG (g_ObjCount s) →
  riid ∈ [IID_IUnknown; IID_IExplorerCommand; IID_IEnumExplorerCommand] →
  ∃ a subs s1,
    CreateInstance false riid s = Some ((S_OK, Some a), s1)
    ∧ fresh_root s s1 a subs
    ∧ Release a s1 = Some (0%Z, s).
Proof.
  intros HL Hriid.
  destruct (CreateInstance_fresh_root riid s Hriid) as (a & subs & s1 & H1 & Hroot).
  exists a, subs, s1. split; [exact H1|]. split; [exact Hroot|].
  exact (Release_fresh_root s s1 a subs Hroot HL).
Qed.

Lemma CreateInstance_one_reference_witness :
  ∃ a subs s1,
    CreateInstance false IID_IExplorerCommand initial = Some ((S_OK, Some a), s1)
    ∧ fresh_root initial s1 a subs
    ∧ Release a s1 = Some (0%Z, initial).
Proof.
  apply (CreateInstance_one_reference IID_IExplorerCommand initial).
  - unfold in_LONG. simpl. lia.
  - right. left.
Defined.

(** X17. A [CreateInstance] that fails hands out nothing and leaves nothing
    behind.  With an outer object it answers [CLASS_E_NOAGGREGATION]; asked
    for an interface the root does not have it answers [E_NOINTERFACE], and
    the root it built for the query is destroyed with its twelve commands
    before it returns.  In both cases the module, counters and heap, is
    exactly as before the call. *)
Theorem CreateInstance_failure_leaves_nothing (pUnkOuter : bool) (riid : IID)
    (s : State) :
  in_LONG (g_ObjCount s) →
  pUnkOuter = true ∨ riid ∈ [IID_IClassFactory; IID_other] →
  CreateInstance pUnkOuter riid s
  = Some ((if pUnkOuter then CLASS_E_NOAGGREGATION else E_NOINTERFACE, None), s).
Proof.
  intros HL Hwhy. destruct pUnkOuter; [reflexivity|].
  destruct Hwhy as [?|Hriid]; [done|].
  destruct (new_ExplorerCommandRoot_exact s) as (a & subs & s1 & H1 & Hroot).
  pose proof Hroot as (_ & _ & _ & Ha & _).
  unfold CreateInstance. rewrite (bind_step _ _ _ _ _ H1).
  pose proof (QueryInterface_exact a _ riid s1 Ha) as HQ.
  assert (supports (ExplorerCommandRoot 1 subs 0) riid = false) as Hs.
  { clear -Hriid.
    apply elem_of_cons in Hriid as [->|Hriid]; [reflexivity|].
    apply elem_of_cons in Hriid as [->|Hriid]; [reflexivity|].
    by apply elem_of_nil in Hriid. }
  rewrite Hs in HQ. rewrite (bind_step _ _ _ _ _ HQ).
  rewrite (bind_step _ _ _ _ _ (Release_fresh_root s s1 a subs Hroot HL)).
  reflexivity.
Qed.

Lemma CreateInstance_failure_leaves_nothing_witness :
  CreateInstance false IID_IClassFactory sample_state
  = Some ((E_NOINTERFACE, None), sample_state).
Proof.
  apply (CreateInstance_failure_leaves_nothing false IID_IClassFactory sample_state).
  - unfold in_LONG. vm_compute. split; [discriminate|reflexivity].
  - right. left.
Defined.

(** ** References taken and given back along a vector *)

Lemma mapM_AddRef_exact (l : list addr) (s : State) :
  NoDup l → Forall (λ b, is_Some (heap s !! b)) l →
  ∃ cs s', mapM AddRef l s = Some (cs, s')
           ∧ (∀ b, heap s' !! b
                   = if decide (b ∈ l) then more_refs 1 <$> heap s !! b
                     else heap s !! b)
           ∧ g_ObjCount s' = g_ObjCount s
           ∧ g_LockCount s' = g_LockCount s.
Proof.
  intros Hnd. revert s. induction Hnd as [|a l Hal Hnd IH]; intros s Hl.
  - exists [], s. split_and!; [done| |done|done].
    intros b. rewrite decide_False; [done|]. apply not_elem_of_nil.
  - apply Forall_cons in Hl as [[o Ha] Hl].
    pose proof (AddRef_exact a o s Ha) as H1.
    destruct (IH (with_heap s (<[a:=more_refs 1 o]> (heap s))))
      as (cs & s2 & H2 & Hh & Hg & Hk).
    { rewrite Forall_forall in Hl. apply Forall_forall. intros b Hb. simpl.
      rewrite lookup_insert_ne; [by apply Hl|]. by intros ->. }
    exists (ULONG (LONG (m_ref o + 1)) :: cs), s2. split_and!.
    + simpl. rewrite (bind_step _ _ _ _ _ H1), (bind_step _ _ _ _ _ H2). done.
    + intros b. rewrite Hh. simpl.
      destruct (decide (b = a)) as [->|Hne].
      * rewrite lookup_insert_eq, Ha.
        destruct (decide (a ∈ a :: l)) as [_|Hn]; [|destruct Hn; left].
        by destruct (decide (a ∈ l)).
      * rewrite lookup_insert_ne by done.
        destruct (decide (b ∈ l)) as [Hin|Hnin];
          destruct (decide (b ∈ a :: l)) as [Hin'|Hnin']; try done.
        -- destruct Hnin'. by right.
        -- apply elem_of_cons in Hin' as [?|?]; done.
    + by rewrite Hg.
    + by rewrite Hk.
Qed.

Lemma Release_item_alive (a : addr) d r id t (s : State) :
  heap s !! a = Some (ExplorerCommandBase d r id t) →
  ULONG (LONG (r - 1)) ≠ 0%Z →
  Release_item a s
  = Some (ULONG (LONG (r - 1)),
          with_heap s (<[a:=more_refs (-1) (ExplorerCommandBase d r id t)]> (heap s))).
Proof.
  intros Ha Hr. unfold Release_item.
  rewrite (bind_step _ _ _ _ _ (get_obj_exact _ _ _ Ha)).
  by apply (Release_by_alive _ a (ExplorerCommandBase d r id t)).
Qed.

Lemma mapM_Release_item_alive (l : list addr) (s : State) :
  NoDup l →
  Forall (λ b, ∃ d r id t, heap s !! b = Some (ExplorerCommandBase d r id t)
                           ∧ ULONG (LONG (r - 1)) ≠ 0%Z) l →
  ∃ cs s', mapM Release_item l s = Some (cs, s')
           ∧ (∀ b, heap s' !! b
                   = if decide (b ∈ l) then more_refs (-1) <$> heap s !! b
                     else heap s !! b)
           ∧ g_ObjCount s' = g_ObjCount s
           ∧ g_LockCount s' = g_LockCount s.
Proof.
  intros Hnd. revert s. induction Hnd as [|a l Hal Hnd IH]; intros s Hl.
  - exists [], s. split_and!; [done| |done|done].
    intros b. rewrite decide_False; [done|]. apply not_elem_of_nil.
  - apply Forall_cons in Hl as [(d & r & id & t & Ha & Hr) Hl].
    pose proof (Release_item_alive a d r id t s Ha Hr) as H1.
    destruct (IH (with_heap s
                    (<[a:=more_refs (-1) (ExplorerCommandBase d r id t)]> (heap s))))
      as (cs & s2 & H2 & Hh & Hg & Hk).
    { rewrite Forall_forall in Hl. apply Forall_forall. intros b Hb. simpl.
      rewrite lookup_insert_ne; [by apply Hl|]. by intros ->. }
    exists (ULONG (LONG (r - 1)) :: cs), s2. split_and!.
    + simpl. rewrite (bind_step _ _ _ _ _ H1), (bind_step _ _ _ _ _ H2). done.
    + intros b. rewrite Hh. simpl.
      destruct (decide (b = a)) as [->|Hne].
      * rewrite lookup_insert_eq, Ha.
        destruct (decide (a ∈ a :: l)) as [_|Hn]; [|destruct Hn; left].
        by destruct (decide (a ∈ l)).
      * rewrite lookup_insert_ne by done.
        destruct (decide (b ∈ l)) as [Hin|Hnin];
          destruct (decide (b ∈ a :: l)) as [Hin'|Hnin']; try done.
        -- destruct Hnin'. by right.
        -- apply elem_of_cons in Hin' as [?|?]; done.
    + by rewrite Hg.
    + by rewrite Hk.
Qed.

Lemma new_CommandEnum_exact (v : list addr) (s : State) :
  NoDup v → Forall (λ b, is_Some (heap s !! b)) v →
  ∃ e s', new_CommandEnum v s = Some (e, s')
          ∧ heap s !! e = None
          ∧ (e ∉ v)
          ∧ heap s' !! e = Some (CommandEnum 1 v 0)
          ∧ (∀ b, b ≠ e →
                  heap s' !! b
                  = if decide (b ∈ v) then more_refs 1 <$> heap s !! b
                    else heap s !! b)
          ∧ g_ObjCount s' = g_ObjCount s
          ∧ g_LockCount s' = g_LockCount s.
Proof.
  intros Hnd Hv.
  destruct (new_ (CommandEnum 1 v 0) s) as [[e s1]|] eqn:H1; [|done].
  pose proof H1 as (Hfe & Hh1 & Hg1 & Hl1)%new_Some.
  assert (e ∉ v) as Hev.
  { intros Hin. rewrite Forall_forall in Hv. destruct (Hv e Hin) as [o Ho].
    congruence. }
  destruct (mapM_AddRef_exact v s1 Hnd) as (cs & s2 & H2 & Hh2 & Hg2 & Hl2).
  { rewrite Forall_forall in Hv. apply Forall_forall. intros b Hb.
    rewrite Hh1, lookup_insert_ne; [by apply Hv|]. by intros ->. }
  exists e, s2. split_and!.
  - unfold new_CommandEnum.
    rewrite (bind_step _ _ _ _ _ H1), (bind_step _ _ _ _ _ H2). reflexivity.
  - exact Hfe.
  - exact Hev.
  - rewrite Hh2, decide_False by exact Hev. rewrite Hh1. apply lookup_insert_eq.
  - intros b Hb. rewrite Hh2, Hh1. by rewrite lookup_insert_ne.
  - by rewrite Hg2.
  - by rewrite Hl2.
Qed.

Lemma mapM_new_ExplorerCommandBase_count (l : list (CommandID.t * wstring))
    (s s' : State) (v : list addr) :
  mapM (λ c, new_ExplorerCommandBase false c.1 c.2) l s = Some (v, s') →
  l ≠ [] →
  g_ObjCount s' = LONG (g_ObjCount s + Z.of_nat (length l)).
Proof.
  revert s s' v. induction l as [|[id t] l IH]; intros s s' v H Hne; [done|].
  simpl in H.
  apply bind_Some in H as (a & s1 & H1 & H).
  apply bind_Some in H as (v' & s2 & H2 & H).
  apply ret_Some in H as [_ ->].
  destruct (new_ExplorerCommandBase_exact false id t s) as (a' & _ & E).
  simpl in H1. rewrite E in H1. injection H1 as _ <-.
  destruct l as [|c l].
  - apply ret_Some in H2 as [_ <-]. reflexivity.
  - rewrite (IH _ _ _ H2) by done. simpl g_ObjCount. rewrite LONG_add. f_equal.
    rewrite (length_cons (id, t)). lia.
Qed.

(** ** Enumerating the menu of a root *)

Lemma Root_EnumSubCommands_exact (a : addr) r subs idx (s : State) :
  heap s !! a = Some (ExplorerCommandRoot r subs idx) →
  NoDup subs → Forall (λ b, is_Some (heap s !! b)) subs →
  ∃ e s1, EnumSubCommands a s = Some ((S_OK, Some e), s1)
          ∧ heap s !! e = None
          ∧ (e ∉ subs)
          ∧ heap s1 !! e = Some (CommandEnum 2 subs 0)
          ∧ (∀ b, b ≠ e →
                  heap s1 !! b
                  = if decide (b ∈ subs) then more_refs 1 <$> heap s !! b
                    else heap s !! b)
          ∧ g_ObjCount s1 = g_ObjCount s
          ∧ g_LockCount s1 = g_LockCount s.
Proof.
  intros Ha Hnd Hv.
  destruct (new_CommandEnum_exact subs s Hnd Hv)
    as (e & s' & H1 & Hfe & Hes & He & Hh & Hg & Hl).
  exists e, (with_heap s' (<[e:=more_refs 1 (CommandEnum 1 subs 0)]> (heap s'))).
  split_and!.
  - unfold EnumSubCommands.
    rewrite (bind_step _ _ _ _ _ (get_obj_exact _ _ _ Ha)).
    rewrite (bind_step _ _ _ _ _ H1).
    rewrite (bind_step _ _ _ _ _ (AddRef_exact _ _ _ He)). reflexivity.
  - exact Hfe.
  - exact Hes.
  - simpl. rewrite lookup_insert_eq. reflexivity.
  - intros b Hb. simpl. rewrite lookup_insert_ne by done. by apply Hh.
  - exact Hg.
  - exact Hl.
Qed.

Lemma Release_enumerator_second_reference (e : addr) items idx (s : State) :
  heap s !! e = Some (CommandEnum 2 items idx) →
  Release e s = Some (1%Z, with_heap s (<[e:=CommandEnum 1 items idx]> (heap s))).
Proof.
  intros He. unfold Release.
  rewrite (Release_by_alive delete_ e (CommandEnum 2 items idx) s He); [reflexivity|].
  simpl. vm_compute. discriminate.
Qed.

(** X18. [EnumSubCommands] on a root whose commands are distinct live objects
    answers [S_OK] with a new enumerator over them, at position 0.  The
    enumerator holds two references though one pointer is handed out, each
    command has gained one reference, and nothing else has changed; so the
    [Release] that the caller owes answers 1 and leaves the enumerator
    alive. *)
Theorem Root_EnumSubCommands_two_references (a : addr) r subs idx (s : State) :
  heap s !! a = Some (ExplorerCommandRoot r subs idx) →
  NoDup subs → Forall (λ b, is_Some (heap s !! b)) subs →
  ∃ e s1 s2,
    EnumSubCommands a s = Some ((S_OK, Some e), s1)
    ∧ heap s !! e = None
    ∧ heap s1 !! e = Some (CommandEnum 2 subs 0)
    ∧ (∀ b o, b ∈ subs → heap s !! b = Some o →
              heap s1 !! b = Some (more_refs 1 o))
    ∧ (∀ b, b ∉ e :: subs → heap s1 !! b = heap s !! b)
    ∧ g_ObjCount s1 = g_ObjCount s
    ∧ g_LockCount s1 = g_LockCount s
    ∧ Release e s1 = Some (1%Z, s2)
    ∧ heap s2 !! e = Some (CommandEnum 1 subs 0).
Proof.
  intros Ha Hnd Hv.
  destruct (Root_EnumSubCommands_exact a r subs idx s Ha Hnd Hv)
    as (e & s1 & H1 & Hfe & Hes & He & Hh & Hg & Hl).
  exists e, s1, (with_heap s1 (<[e:=CommandEnum 1 subs 0]> (heap s1))).
  split_and!.
  - exact H1.
  - exact Hfe.
  - exact He.
  - intros b o Hb Ho. rewrite Hh by (by intros ->).
    rewrite decide_True by exact Hb. by rewrite Ho.
  - intros b Hb. apply not_elem_of_cons in Hb as [Hbe Hbs].
    rewrite Hh by exact Hbe. by rewrite decide_False by exact Hbs.
  - exact Hg.
  - exact Hl.
  - by apply Release_enumerator_second_reference.
  - simpl. apply lookup_insert_eq.
Qed.

Lemma Root_EnumSubCommands_two_references_witness :
  ∃ e s1 s2,
    EnumSubCommands 0 sample_state = Some ((S_OK, Some e), s1)
    ∧ heap s1 !! e = Some (CommandEnum 2 [1; 2; 3; 4; 5; 6; 7; 8; 9; 10; 11; 12] 0)
    ∧ Release e s1 = Some (1%Z, s2).
Proof.
  destruct (Root_EnumSubCommands_two_references 0 1
              [1; 2; 3; 4; 5; 6; 7; 8; 9; 10; 11; 12] 0 sample_state)
    as (e & s1 & s2 & H1 & _ & He & _ & _ & _ & _ & H2 & _).
  - vm_compute. reflexivity.
  - refine (bool_decide_unpack _ _). vm_compute. exact I.
  - refine (bool_decide_unpack _ _). vm_compute. exact I.
  - exists e, s1, s2. split_and!; [exact H1|exact He|exact H2].
Defined.

(** X19. A host that creates the root, enumerates its menu once and then
    releases each of the two pointers it was given does not get the module
    back: the root is destroyed, but the enumerator keeps the reference
    nobody holds, and with it the twelve commands of the menu, one reference
    each.  The object counter stays twelve above its value before, so from a
    module without objects [DllCanUnloadNow] answers [S_FALSE] afterwards. *)
Theorem enumerated_menu_outlives_root (riid : IID) (s : State) :
  riid ∈ [IID_IUnknown; IID_IExplorerCommand; IID_IEnumExplorerCommand] →
  ∃ a e subs s1 s2 s3 s4,
    CreateInstance false riid s = Some ((S_OK, Some a), s1)
    ∧ EnumSubCommands a s1 = Some ((S_OK, Some e), s2)
    ∧ Release e s2 = Some (1%Z, s3)
    ∧ Release a s3 = Some (0%Z, s4)
    ∧ heap s4 !! a = None
    ∧ heap s4 !! e = Some (CommandEnum 1 subs 0)
    ∧ Forall2 (λ b c, heap s4 !! b = Some (ExplorerCommandBase c.1.1 1 c.1.2 c.2))
        subs root_menu
    ∧ (∀ b, b ∉ a :: e :: subs → heap s4 !! b = heap s !! b)
    ∧ g_ObjCount s4 = LONG (g_ObjCount s + 12)
    ∧ g_LockCount s4 = g_LockCount s
    ∧ (g_ObjCount s = 0%Z → DllCanUnloadNow s4 = S_FALSE).
Proof.
  intros Hriid.
  destruct (CreateInstance_fresh_root riid s Hriid) as (a & subs & s1 & H1 & Hroot).
  pose proof Hroot as (Hnd & Hfr & Hout & Ha & Hmenu & Hg & Hl).
  apply NoDup_cons in Hnd as [Has Hnd].
  assert (Forall (λ b, ∃ d id t, heap s1 !! b = Some (ExplorerCommandBase d 1 id t))
            subs) as Hsubs.
  { eapply (Forall2_Forall_left _ _ _ _ Hmenu). intros b c Hc.
    exists c.1.1, c.1.2, c.2. exact Hc. }
  rewrite Forall_forall in Hsubs.
  assert (Forall (λ b, is_Some (heap s1 !! b)) subs) as Hlive.
  { apply Forall_forall. intros b Hb. destruct (Hsubs b Hb) as (d & id & t & Hb').
    eexists. exact Hb'. }
  destruct (Root_EnumSubCommands_exact a 1 subs 0 s1 Ha Hnd Hlive)
    as (e & s2 & H2 & Hfe & Hes & He & Hh2 & Hg2 & Hl2).
  assert (a ≠ e) as Hae.
  { intros E. rewrite E, Hfe in Ha. discriminate Ha. }
  assert (e ≠ a) as Hea by (intros E; apply Hae; symmetry; exact E).
  assert (∀ b, b ∈ subs → a ≠ b) as Hsa.
  { intros b Hb E. apply Has. rewrite E. exact Hb. }
  assert (∀ b, b ∈ subs → e ≠ b) as Hse.
  { intros b Hb E. apply Hes. rewrite E. exact Hb. }
  pose proof (Release_enumerator_second_reference e subs 0 s2 He) as H3.
  remember (with_heap s2 (<[e:=CommandEnum 1 subs 0]> (heap s2))) as s3 eqn:Es3.
  assert (heap s3 !! a = Some (ExplorerCommandRoot 1 subs 0)) as Ha3.
  { rewrite Es3. simpl. rewrite lookup_insert_ne by exact Hea.
    rewrite Hh2 by exact Hae. rewrite decide_False by exact Has. exact Ha. }
  remember (with_heap s3 (<[a:=more_refs (-1) (ExplorerCommandRoot 1 subs 0)]> (heap s3)))
    as s3' eqn:Es3'.
  assert (g_ObjCount s3' = g_ObjCount s1 ∧ g_LockCount s3' = g_LockCount s1)
    as [Hg3 Hl3].
  { rewrite Es3'. simpl. rewrite Es3. simpl. split; [exact Hg2|exact Hl2]. }
  assert (∀ b, b ∈ subs → heap s3' !! b = more_refs 1 <$> heap s1 !! b) as Hin3.
  { intros b Hb. rewrite Es3'. simpl.
    rewrite lookup_insert_ne by exact (Hsa b Hb).
    rewrite Es3. simpl. rewrite lookup_insert_ne by exact (Hse b Hb).
    rewrite Hh2 by (intros E; exact (Hse b Hb (eq_sym E))).
    rewrite decide_True by exact Hb. reflexivity. }
  assert (∀ b, b ≠ a → b ≠ e → b ∉ subs → heap s3' !! b = heap s1 !! b) as Hout3.
  { intros b Hba Hbe Hbs. rewrite Es3'. simpl.
    rewrite lookup_insert_ne by (intros E; exact (Hba (eq_sym E))).
    rewrite Es3. simpl.
    rewrite lookup_insert_ne by (intros E; exact (Hbe (eq_sym E))).
    rewrite Hh2 by exact Hbe. rewrite decide_False by exact Hbs. reflexivity. }
  assert (heap s3' !! e = Some (CommandEnum 1 subs 0)) as He3.
  { rewrite Es3'. simpl. rewrite lookup_insert_ne by exact Hae.
    rewrite Es3. simpl. apply lookup_insert_eq. }
  assert (heap s3' !! a = Some (ExplorerCommandRoot 0 subs 0)) as Ha3'.
  { rewrite Es3'. simpl. rewrite lookup_insert_eq. reflexivity. }
  destruct (mapM_Release_item_alive subs s3' Hnd) as (cs & s3'' & H4 & Hh4 & Hg4 & Hl4).
  { apply Forall_forall. intros b Hb. destruct (Hsubs b Hb) as (d & id & t & Hb').
    exists d, 2%Z, id, t. split.
    - rewrite (Hin3 b Hb), Hb'. reflexivity.
    - vm_compute. discriminate. }
  assert (Release a s3
          = Some (0%Z, {| g_ObjCount := LONG (g_ObjCount s3'' - 1);
                          g_LockCount := g_LockCount s3'';
                          heap := delete a (heap s3'') |})) as H5.
  { unfold Release.
    eapply (Release_by_last delete_ a _ s3); [exact Ha3|reflexivity|].
    rewrite <- Es3'. unfold delete_.
    rewrite (bind_step _ _ _ _ _ (get_obj_exact _ _ _ Ha3')).
    rewrite (bind_step _ _ _ _ _ H4). reflexivity. }
  exists a, e, subs, s1, s2, s3,
    {| g_ObjCount := LONG (g_ObjCount s3'' - 1);
       g_LockCount := g_LockCount s3'';
       heap := delete a (heap s3'') |}.
  split; [exact H1|]. split; [exact H2|]. split; [exact H3|]. split; [exact H5|].
  clear H1 H2 H3 H4 H5 Hroot.
  split_and!.
  - simpl. apply lookup_delete_eq.
  - simpl. rewrite lookup_delete_ne by exact Hae.
    rewrite Hh4, decide_False by exact Hes. exact He3.
  - eapply Forall2_impl_elem; [exact Hmenu|]. intros b c Hb Hc. simpl.
    rewrite lookup_delete_ne by exact (Hsa b Hb).
    rewrite Hh4, decide_True by exact Hb.
    rewrite (Hin3 b Hb), Hc. reflexivity.
  - intros b Hb. apply not_elem_of_cons in Hb as [Hba Hb].
    apply not_elem_of_cons in Hb as [Hbe Hbs]. simpl.
    rewrite lookup_delete_ne by (intros E; exact (Hba (eq_sym E))).
    rewrite Hh4, decide_False by exact Hbs.
    rewrite (Hout3 b Hba Hbe Hbs).
    apply Hout. intros Hin. apply elem_of_cons in Hin as [E|Hin].
    + exact (Hba E).
    + exact (Hbs Hin).
  - simpl. rewrite Hg4, Hg3, Hg. rewrite LONG_sub. f_equal. lia.
  - simpl. rewrite Hl4, Hl3. exact Hl.
  - intros H0. unfold DllCanUnloadNow. simpl.
    rewrite Hg4, Hg3, Hg, H0. reflexivity.
Qed.

Lemma enumerated_menu_outlives_root_witness :
  ∃ a e s1 s2 s3 s4,
    CreateInstance false IID_IExplorerCommand initial = Some ((S_OK, Some a), s1)
    ∧ EnumSubCommands a s1 = Some ((S_OK, Some e), s2)
    ∧ Release e s2 = Some (1%Z, s3)
    ∧ Release a s3 = Some (0%Z, s4)
    ∧ DllCanUnloadNow s4 = S_FALSE.
Proof.
  destruct (enumerated_menu_outlives_root IID_IExplorerCommand initial)
    as (a & e & subs & s1 & s2 & s3 & s4 & H1 & H2 & H3 & H4 & _ & _ & _ & _ & _ & _ & H5).
  - right. left.
  - exists a, e, s1, s2, s3, s4. split_and!; [exact H1|exact H2|exact H3|exact H4|].
    apply H5. reflexivity.
Defined.

(** ** Expanding the hash menu *)

(** X20. [EnumSubCommands] on the hash menu parent creates four new commands
    and a new enumerator over them.  The enumerator holds two references and
    each command two, though the only pointers that leave the call are the
    enumerator's one and the four the enumerator keeps.  So even a caller that
    releases the enumerator until it is destroyed leaves the four commands
    alive with one reference each: every expansion raises the object counter
    by four for good. *)
Theorem hash_menu_children_leak (p : addr) r id t (s : State) :
  heap s !! p = Some (ExplorerCommandBase true r id t) →
  ∃ e v s1 s2 s3,
    EnumSubCommands p s = Some ((S_OK, Some e), s1)
    ∧ NoDup (e :: v)
    ∧ Forall (λ b, heap s !! b = None) (e :: v)
    ∧ heap s1 !! e = Some (CommandEnum 2 v 0)
    ∧ Forall2 (λ b c, heap s1 !! b = Some (ExplorerCommandBase false 2 c.1 c.2))
        v hash_children
    ∧ Release e s1 = Some (1%Z, s2)
    ∧ Release e s2 = Some (0%Z, s3)
    ∧ heap s3 !! e = None
    ∧ Forall2 (λ b c, heap s3 !! b = Some (ExplorerCommandBase false 1 c.1 c.2))
        v hash_children
    ∧ (∀ b, b ∉ e :: v → heap s3 !! b = heap s !! b)
    ∧ g_ObjCount s3 = LONG (g_ObjCount s + 4)
    ∧ g_LockCount s3 = g_LockCount s.
Proof.
  intros Hp.
  destruct (mapM_new_ExplorerCommandBase_exact hash_children s)
    as (v & sA & HA & Hnd & Hfr & Hout & Hin & _ & HlA).
  pose proof (mapM_new_ExplorerCommandBase_count hash_children s sA v HA
                ltac:(discriminate)) as HgA.
  change (Z.of_nat (length hash_children)) with 4%Z in HgA.
  assert (Forall (λ b, ∃ d id t, heap sA !! b = Some (ExplorerCommandBase d 1 id t))
            v) as Hsubs.
  { eapply (Forall2_Forall_left _ _ _ _ Hin). intros b c Hc.
    exists false, c.1, c.2. exact Hc. }
  rewrite Forall_forall in Hsubs.
  assert (Forall (λ b, is_Some (heap sA !! b)) v) as Hlive.
  { apply Forall_forall. intros b Hb. destruct (Hsubs b Hb) as (d & id' & t' & Hb').
    eexists. exact Hb'. }
  destruct (new_CommandEnum_exact v sA Hnd Hlive)
    as (e & sB & HB & Hfe & Hev & He & HhB & HgB & HlB).
  assert (∀ b, b ∈ v → e ≠ b) as Hve.
  { intros b Hb E. apply Hev. rewrite E. exact Hb. }
  remember (with_heap sB (<[e:=more_refs 1 (CommandEnum 1 v 0)]> (heap sB)))
    as s1 eqn:Es1.
  assert (EnumSubCommands p s = Some ((S_OK, Some e), s1)) as H1.
  { unfold EnumSubCommands.
    rewrite (bind_step _ _ _ _ _ (get_obj_exact _ _ _ Hp)).
    unfold CRCMenuParent_EnumSubCommands.
    rewrite (bind_step _ _ _ _ _ HA), (bind_step _ _ _ _ _ HB).
    rewrite (bind_step _ _ _ _ _ (AddRef_exact _ _ _ He)).
    rewrite Es1. reflexivity. }
  assert (heap s1 !! e = Some (CommandEnum 2 v 0)) as He1.
  { rewrite Es1. simpl. rewrite lookup_insert_eq. reflexivity. }
  pose proof (Release_enumerator_second_reference e v 0 s1 He1) as H2.
  remember (with_heap s1 (<[e:=CommandEnum 1 v 0]> (heap s1))) as s2 eqn:Es2.
  assert (heap s2 !! e = Some (CommandEnum 1 v 0)) as He2.
  { rewrite Es2. simpl. apply lookup_insert_eq. }
  remember (with_heap s2 (<[e:=more_refs (-1) (CommandEnum 1 v 0)]> (heap s2)))
    as s2' eqn:Es2'.
  assert (g_ObjCount s2' = LONG (g_ObjCount s + 4)
          ∧ g_LockCount s2' = g_LockCount s) as [Hg2 Hl2].
  { rewrite Es2'. simpl. rewrite Es2. simpl. rewrite Es1. simpl.
    rewrite HgB, HlB. split; [exact HgA|exact HlA]. }
  assert (∀ b, b ∈ v → heap s1 !! b = more_refs 1 <$> heap sA !! b) as Hin1.
  { intros b Hb. rewrite Es1. simpl.
    rewrite lookup_insert_ne by exact (Hve b Hb).
    rewrite HhB by (intros E; exact (Hve b Hb (eq_sym E))).
    rewrite decide_True by exact Hb. reflexivity. }
  assert (∀ b, b ∈ v → heap s2' !! b = more_refs 1 <$> heap sA !! b) as Hin2.
  { intros b Hb. rewrite Es2'. simpl.
    rewrite lookup_insert_ne by exact (Hve b Hb).
    rewrite Es2. simpl. rewrite lookup_insert_ne by exact (Hve b Hb).
    exact (Hin1 b Hb). }
  assert (∀ b, b ≠ e → b ∉ v → heap s2' !! b = heap s !! b) as Hout2.
  { intros b Hbe Hbv. rewrite Es2'. simpl.
    rewrite lookup_insert_ne by (intros E; exact (Hbe (eq_sym E))).
    rewrite Es2. simpl.
    rewrite lookup_insert_ne by (intros E; exact (Hbe (eq_sym E))).
    rewrite Es1. simpl.
    rewrite lookup_insert_ne by (intros E; exact (Hbe (eq_sym E))).
    rewrite HhB by exact Hbe. rewrite decide_False by exact Hbv.
    exact (Hout b Hbv). }
  assert (heap s2' !! e = Some (CommandEnum 0 v 0)) as He2'.
  { rewrite Es2'. simpl. rewrite lookup_insert_eq. reflexivity. }
  destruct (mapM_Release_item_alive v s2' Hnd) as (cs & s2'' & H4 & Hh4 & Hg4 & Hl4).
  { apply Forall_forall. intros b Hb. destruct (Hsubs b Hb) as (d & id' & t' & Hb').
    exists d, 2%Z, id', t'. split.
    - rewrite (Hin2 b Hb), Hb'. reflexivity.
    - vm_compute. discriminate. }
  assert (Release e s2 = Some (0%Z, with_heap s2'' (delete e (heap s2'')))) as H3.
  { unfold Release.
    eapply (Release_by_last delete_ e _ s2); [exact He2|reflexivity|].
    rewrite <- Es2'. unfold delete_.
    rewrite (bind_step _ _ _ _ _ (get_obj_exact _ _ _ He2')).
    rewrite (bind_step _ _ _ _ _ H4). reflexivity. }
  assert (heap s !! e = None) as Hfe0.
  { rewrite <- (Hout e Hev). exact Hfe. }
  exists e, v, s1, s2, (with_heap s2'' (delete e (heap s2''))).
  split; [exact H1|]. clear H1.
  split; [constructor; [exact Hev|exact Hnd]|].
  split; [constructor; [exact Hfe0|exact Hfr]|].
  split; [exact He1|].
  split.
  { eapply Forall2_impl_elem; [exact Hin|]. intros b c Hb Hc. simpl.
    rewrite (Hin1 b Hb), Hc. reflexivity. }
  split; [exact H2|]. split; [exact H3|]. clear H2 H3 H4 HA HB.
  split_and!.
  - simpl. apply lookup_delete_eq.
  - eapply Forall2_impl_elem; [exact Hin|]. intros b c Hb Hc. simpl.
    rewrite lookup_delete_ne by exact (Hve b Hb).
    rewrite Hh4, decide_True by exact Hb.
    rewrite (Hin2 b Hb), Hc. reflexivity.
  - intros b Hb. apply not_elem_of_cons in Hb as [Hbe Hbv]. simpl.
    rewrite lookup_delete_ne by (intros E; exact (Hbe (eq_sym E))).
    rewrite Hh4, decide_False by exact Hbv.
    exact (Hout2 b Hbe Hbv).
  - simpl. rewrite Hg4. exact Hg2.
  - simpl. rewrite Hl4. exact Hl2.
Qed.

Lemma hash_menu_children_leak_witness :
  ∃ e v s1 s3,
    EnumSubCommands 12 sample_state = Some ((S_OK, Some e), s1)
    ∧ (Release e;; Release e) s1 = Some (0%Z, s3)
    ∧ Forall2 (λ b c, heap s3 !! b = Some (ExplorerCommandBase false 1 c.1 c.2))
        v hash_children
    ∧ g_ObjCount s3 = 17%Z.
Proof.
  destruct (hash_menu_children_leak 12 2 CommandID.CRCMenu (L "CRC SHA") sample_state)
    as (e & v & s1 & s2 & s3 & H1 & _ & _ & _ & _ & H2 & H3 & _ & Hv & _ & Hg & _).
  - vm_compute. reflexivity.
  - exists e, v, s1, s3. split_and!; [exact H1| |exact Hv|].
    + rewrite (bind_step _ _ _ _ _ H2). exact H3.
    + rewrite Hg. vm_compute. reflexivity.
Defined.

(** ** Locks *)

(** X21. [LockServer(TRUE)] on a module with a lock count from 0 up answers
    [S_OK], adds one lock and touches neither the objects nor their counter;
    while the lock is held [DllCanUnloadNow] answers [S_FALSE], whatever
    objects are alive; the matching [LockServer(FALSE)] brings the module
    back exactly as it was. *)
Theorem LockServer_pins_module (s : State) :
  (0 ≤ g_LockCount s < 2 ^ 31 - 1)%Z →
  ∃ s1, LockServer true s = Some (S_OK, s1)
        ∧ heap s1 = heap s
        ∧ g_ObjCount s1 = g_ObjCount s
        ∧ g_LockCount s1 = (g_LockCount s + 1)%Z
        ∧ DllCanUnloadNow s1 = S_FALSE
        ∧ LockServer false s1 = Some (S_OK, s).
Proof.
  intros Hk.
  assert (LONG (g_LockCount s + 1) = (g_LockCount s + 1)%Z) as E1
    by (apply LONG_small; lia).
  assert (LONG (g_LockCount s + 1 - 1) = g_LockCount s) as E2.
  { replace (g_LockCount s + 1 - 1)%Z with (g_LockCount s) by lia.
    apply LONG_small. lia. }
  exists {| g_ObjCount := g_ObjCount s;
            g_LockCount := LONG (g_LockCount s + 1);
            heap := heap s |}.
  split_and!.
  - reflexivity.
  - reflexivity.
  - reflexivity.
  - exact E1.
  - unfold DllCanUnloadNow. simpl. rewrite E1.
    destruct (Z.eqb_spec (g_LockCount s + 1) 0) as [E|_]; [lia|].
    by rewrite andb_false_r.
  - unfold LockServer, mbind, M_bind, InterlockedDecrement_LockCount. simpl.
    rewrite E1, E2. by destruct s.
Qed.

Lemma LockServer_pins_module_witness :
  ∃ s1, LockServer true sample_state = Some (S_OK, s1)
        ∧ DllCanUnloadNow s1 = S_FALSE
        ∧ LockServer false s1 = Some (S_OK, sample_state).
Proof.
  destruct (LockServer_pins_module sample_state) as (s1 & H1 & _ & _ & _ & H2 & H3).
  - vm_compute. split; [discriminate|reflexivity].
  - exists s1. split_and!; [exact H1|exact H2|exact H3].
Defined.

(** ** A clone and its references *)

Lemma shared_command_Some (s : State) (b : addr) :
  shared_command s b →
  ∃ d k id t, heap s !! b = Some (ExplorerCommandBase d k id t)
              ∧ (0 < k < 2 ^ 31 - 1)%Z.
Proof.
  unfold shared_command. destruct (heap s !! b) as [[d k id t| |]|]; try tauto.
  intros Hk. exists d, k, id, t. split; [reflexivity|exact Hk].
Qed.

(** X22. [Clone] of an enumerator over distinct live commands takes one
    reference on each of them for the copy, which holds one reference, the
    caller's.  When the caller releases it the copy is destroyed, every
    reference it took is given back, and the module is exactly as before
    [Clone]. *)
Theorem Clone_Release_round_trip (e : addr) r items idx (s : State) :
  heap s !! e = Some (CommandEnum r items idx) →
  NoDup items →
  Forall (shared_command s) items →
  ∃ e' s1,
    Clone e s = Some ((S_OK, Some e'), s1)
    ∧ heap s1 !! e' = Some (CommandEnum 1 items idx)
    ∧ (∀ b o, b ∈ items → heap s !! b = Some o →
              heap s1 !! b = Some (more_refs 1 o))
    ∧ Release e' s1 = Some (0%Z, s).
Proof.
  intros He Hnd Hitems. rewrite Forall_forall in Hitems.
  assert (Forall (λ b, is_Some (heap s !! b)) items) as Hlive.
  { apply Forall_forall. intros b Hb.
    destruct (shared_command_Some s b (Hitems b Hb)) as (d & k & id & t & Hb' & _).
    eexists. exact Hb'. }
  destruct (new_CommandEnum_exact items s Hnd Hlive)
    as (e' & sA & HA & Hfe & Hei & He' & HhA & HgA & HlA).
  assert (∀ b, b ∈ items → e' ≠ b) as Hie.
  { intros b Hb E. apply Hei. rewrite E. exact Hb. }
  remember (with_heap sA (<[e':=CommandEnum 1 items idx]> (heap sA))) as s1 eqn:Es1.
  assert (Clone e s = Some ((S_OK, Some e'), s1)) as H1.
  { unfold Clone. rewrite (bind_step _ _ _ _ _ (get_obj_exact _ _ _ He)).
    rewrite (bind_step _ _ _ _ _ HA). rewrite Es1. reflexivity. }
  assert (heap s1 !! e' = Some (CommandEnum 1 items idx)) as He1.
  { rewrite Es1. simpl. apply lookup_insert_eq. }
  assert (∀ b, b ∈ items → heap s1 !! b = more_refs 1 <$> heap s !! b) as Hin1.
  { intros b Hb. rewrite Es1. simpl.
    rewrite lookup_insert_ne by exact (Hie b Hb).
    rewrite HhA by (intros E; exact (Hie b Hb (eq_sym E))).
    rewrite decide_True by exact Hb. reflexivity. }
  remember (with_heap s1 (<[e':=more_refs (-1) (CommandEnum 1 items idx)]> (heap s1)))
    as s1' eqn:Es1'.
  assert (heap s1' !! e' = Some (CommandEnum 0 items idx)) as He1'.
  { rewrite Es1'. simpl. rewrite lookup_insert_eq. reflexivity. }
  assert (∀ b, b ≠ e' → heap s1' !! b
                        = if decide (b ∈ items) then more_refs 1 <$> heap s !! b
                          else heap s !! b) as Hh1'.
  { intros b Hb. rewrite Es1'. simpl.
    rewrite lookup_insert_ne by (intros E; exact (Hb (eq_sym E))).
    rewrite Es1. simpl.
    rewrite lookup_insert_ne by (intros E; exact (Hb (eq_sym E))).
    exact (HhA b Hb). }
  assert (g_ObjCount s1' = g_ObjCount s ∧ g_LockCount s1' = g_LockCount s)
    as [Hg1 Hl1].
  { rewrite Es1'. simpl. rewrite Es1. simpl. split; [exact HgA|exact HlA]. }
  destruct (mapM_Release_item_alive items s1' Hnd)
    as (cs & s2 & H2 & Hh2 & Hg2 & Hl2).
  { apply Forall_forall. intros b Hb.
    destruct (shared_command_Some s b (Hitems b Hb)) as (d & k & id & t & Hb' & Hk).
    exists d, (LONG (k + 1)), id, t. split.
    - rewrite Hh1' by (intros E; exact (Hie b Hb (eq_sym E))).
      rewrite decide_True by exact Hb. rewrite Hb'. reflexivity.
    - rewrite LONG_sub. replace (k + 1 - 1)%Z with k by lia.
      rewrite LONG_small by lia. rewrite ULONG_pos by lia. lia. }
  assert (Release e' s1 = Some (0%Z, s)) as H3.
  { unfold Release.
    eapply (Release_by_last delete_ e' _ s1); [exact He1|reflexivity|].
    rewrite <- Es1'. unfold delete_.
    rewrite (bind_step _ _ _ _ _ (get_obj_exact _ _ _ He1')).
    rewrite (bind_step _ _ _ _ _ H2).
    unfold free. do 2 f_equal. apply State_eq; simpl.
    - rewrite Hg2. exact Hg1.
    - rewrite Hl2. exact Hl1.
    - apply map_eq. intros b. destruct (decide (b = e')) as [->|Hne].
      + rewrite lookup_delete_eq. symmetry. exact Hfe.
      + rewrite lookup_delete_ne by (intros E; exact (Hne (eq_sym E))).
        rewrite Hh2, (Hh1' b Hne).
        destruct (decide (b ∈ items)) as [Hb|Hb]; [|reflexivity].
        destruct (shared_command_Some s b (Hitems b Hb))
          as (d & k & id & t & Hb' & Hk).
        rewrite Hb'. simpl. f_equal.
        apply (more_refs_back (ExplorerCommandBase d k id t)).
        unfold in_LONG. simpl. lia. }
  exists e', s1. split; [exact H1|]. split; [exact He1|]. split; [|exact H3].
  intros b o Hb Ho. rewrite (Hin1 b Hb), Ho. reflexivity.
Qed.

Lemma Clone_Release_round_trip_witness :
  ∃ e' s1,
    Clone 13 sample_state = Some ((S_OK, Some e'), s1)
    ∧ Release e' s1 = Some (0%Z, sample_state).
Proof.
  destruct (Clone_Release_round_trip 13 2 [1; 2; 3; 4; 5; 6; 7; 8; 9; 10; 11; 12] 0
              sample_state)
    as (e' & s1 & H1 & _ & _ & H2).
  - vm_compute. reflexivity.
  - refine (bool_decide_unpack _ _). vm_compute. exact I.
  - repeat (constructor; [vm_compute; split; reflexivity|]). constructor.
  - exists e', s1. split; [exact H1|exact H2].
Defined.

(** ** The enumerator interface of the root *)

(** X23. A root answers [QueryInterface] for [IEnumExplorerCommand] with
    [S_OK] and itself, yet it implements none of that interface: [Next],
    [Skip], [Reset] and [Clone] on a root all answer [E_NOTIMPL], fetch or
    make nothing, and leave the module as it is. *)
Theorem Root_enumerator_not_implemented (a : addr) r subs idx (celt : nat)
    (s : State) :
  heap s !! a = Some (ExplorerCommandRoot r subs idx) →
  (∃ s1, QueryInterface a IID_IEnumExplorerCommand s = Some ((S_OK, Some a), s1))
  ∧ Next a celt s = Some ((E_NOTIMPL, []), s)
  ∧ Skip a celt s = Some (E_NOTIMPL, s)
  ∧ Reset a s = Some (E_NOTIMPL, s)
  ∧ Clone a s = Some ((E_NOTIMPL, None), s).
Proof.
  intros Ha. split_and!.
  - eexists. rewrite (QueryInterface_exact a _ IID_IEnumExplorerCommand s Ha).
    reflexivity.
  - unfold Next. by rewrite (bind_step _ _ _ _ _ (get_obj_exact _ _ _ Ha)).
  - unfold Skip. by rewrite (bind_step _ _ _ _ _ (get_obj_exact _ _ _ Ha)).
  - unfold Reset. by rewrite (bind_step _ _ _ _ _ (get_obj_exact _ _ _ Ha)).
  - unfold Clone. by rewrite (bind_step _ _ _ _ _ (get_obj_exact _ _ _ Ha)).
Qed.

Lemma Root_enumerator_not_implemented_witness :
  Next 0 3 sample_state = Some ((E_NOTIMPL, []), sample_state).
Proof.
  apply (Root_enumerator_not_implemented 0 1
           [1; 2; 3; 4; 5; 6; 7; 8; 9; 10; 11; 12] 0 3 sample_state).
  vm_compute. reflexivity.
Defined.
